(** * Meld Studio companion module: a shallow embedding of [main.js]

    The module bridges a button surface to Meld Studio over a WebSocket
    carrying Qt WebChannel.  This development embeds the instance class
    [MeldStudioInstance] as explicit state passing over a [World] (the
    instance fields together with the parts of the JavaScript host the
    instance talks to: the clock, the timer queue, sockets, the status
    line, the published variables, the log and the trace of remote
    method invocations), and states properties of its handlers. *)

From Stdlib Require Import ZArith Ascii String SpecFloat.
From stdpp Require Import base gmap strings list fin_maps.

Local Open Scope Z_scope.

(** ** JavaScript values

    Numbers are IEEE doubles in the source.  [JsNumber] holds the
    numbers that are integers or not finite: the port of a
    configuration, and what [Math.floor] and [%] return in
    [formatHMS].  [Int z] is the double whose value is the integer [z].
    [formatHMS] itself computes on doubles, see [Fmt]. *)

Inductive JsNumber : Type :=
| NaN
| PosInfinity
| NegInfinity
| Int (z : Z).

(** Values as they appear in a configuration object and in the state
    properties of the remote proxy. *)
Inductive JsValue : Type :=
| JUndefined
| JNull
| JBool (b : bool)
| JNum (n : JsNumber)
| JStr (s : string)
| JObj (handle : nat).

(** ToBoolean on numbers: 0 and NaN are falsy. *)
Definition num_truthy (n : JsNumber) : bool :=
  match n with
  | NaN => false
  | Int z => negb (z =? 0)
  | _ => true
  end.

(** ToBoolean on values. *)
Definition truthy (v : JsValue) : bool :=
  match v with
  | JUndefined | JNull => false
  | JBool b => b
  | JNum n => num_truthy n
  | JStr s => negb (String.eqb s "")
  | JObj _ => true
  end.

(** ** Utilities: [formatHMS]

    [formatHMS] takes any number and divides it, so its argument is a
    double.  [spec_float] is the Standard Library's specification of
    IEEE 754 binary64 arithmetic: [SFdiv 53 1024] is the division,
    rounded to the nearest double, ties to even.  The doubles are the
    [spec_float]s that [valid_binary 53 1024] accepts. *)

Module Fmt.

Definition prec : Z := 53.
Definition emax : Z := 1024.

Definition double : Type := spec_float.

(** The double nearest to an integer: the integer itself up to 2^53 in
    absolute value, and whenever it is the value of a double. *)
Definition number (z : Z) : double := binary_normalize prec emax z 0 false.

(** [x / y] *)
Definition div : double -> double -> double := SFdiv prec emax.

(** [Number.isFinite] *)
Definition Number_isFinite (x : double) : bool :=
  match x with
  | S754_zero _ | S754_finite _ _ _ => true
  | _ => false
  end.

(** [Math.floor]: an integer, or the argument when it is not finite.
    The sign of a zero is not kept; nothing below looks at it. *)
Definition Math_floor (x : double) : JsNumber :=
  match x with
  | S754_nan => NaN
  | S754_infinity s => if s then NegInfinity else PosInfinity
  | S754_zero _ => Int 0
  | S754_finite s m e =>
      let v := if s then Z.neg m else Z.pos m in
      Int (match e with
           | Z.neg p => v / 2 ^ Z.pos p
           | _ => v * 2 ^ e
           end)
  end.

(** An integer-valued or non-finite number as a double. *)
Definition to_double (n : JsNumber) : double :=
  match n with
  | NaN => S754_nan
  | PosInfinity => S754_infinity false
  | NegInfinity => S754_infinity true
  | Int z => number z
  end.

(** [n % c] for a positive integer constant [c]: the remainder has the
    sign of [n] and is exact, there is no rounding in [%]. *)
Definition rem (n : JsNumber) (c : Z) : JsNumber :=
  match n with
  | Int z => Int (Z.rem z c)
  | _ => NaN
  end.

(** The decimal digit for a value in 0..9. *)
Definition digit_char (d : Z) : ascii :=
  ascii_of_nat (48 + Z.to_nat d).

(** The decimal digits of a non-negative integer, most significant
    first, no leading zero.  The recursion divides by ten at most
    [steps] times; the binary length of the number is enough. *)
Fixpoint digits_upto (steps : nat) (n : Z) : string :=
  match steps with
  | O => String (digit_char n) EmptyString
  | S k =>
      if n <? 10 then String (digit_char n) EmptyString
      else digits_upto k (n / 10) +:+ String (digit_char (n mod 10)) EmptyString
  end.

Definition digits_of (n : Z) : string := digits_upto (Z.to_nat (Z.log2 n)) n.

Fixpoint zeros (k : nat) : string :=
  match k with
  | O => EmptyString
  | S k' => String "0"%char (zeros k')
  end.

(** *** [String(n)] on an integer-valued number

    Number::toString writes the digits of the least [k] for which
    there are [s] and [n] with [10^(k-1) <= s < 10^k] such that
    [s * 10^(n-k)] reads back as the number, then the closest such [s].
    Up to 2^53 every integer is a double and the digits are those of
    the integer.  From 2^53 on they are searched for: [v] below is the
    exact value of the double. *)

(** [y] reads back as the double of [v]. *)
Definition reads_as (v y : Z) : bool := SFeqb (number y) (number v).

Definition decimal_length (v : Z) : Z := Z.of_nat (String.length (digits_of v)).

(** The pairs [(s, n)] with [k] digits. *)
Definition candidates (v k : Z) : list (Z * Z) :=
  let D := decimal_length v in
  List.filter
    (fun sn : Z * Z =>
       let (s, n) := sn in
       (10 ^ (k - 1) <=? s) && (s <? 10 ^ k) && (k <=? n)
       && reads_as v (s * 10 ^ (n - k)))
    (flat_map (fun n => [(v / 10 ^ (n - k), n); (v / 10 ^ (n - k) + 1, n)])
              [D; D + 1]).

Definition distance (v k : Z) (sn : Z * Z) : Z :=
  Z.abs (sn.1 * 10 ^ (sn.2 - k) - v).

(** The closer of two candidates, the even one at equal distance. *)
Definition closer (v k : Z) (a b : Z * Z) : Z * Z :=
  if distance v k b <? distance v k a then b
  else if (distance v k b =? distance v k a) && Z.even b.1 then b
  else a.

(** The least [k] from [k] on, with its [s] and [n]; seventeen digits
    always suffice. *)
Fixpoint shortest_from (steps : nat) (v k : Z) : Z * Z * Z :=
  match candidates v k with
  | c :: cs => let (s, n) := foldl (closer v k) c cs in (s, k, n)
  | [] =>
      match steps with
      | O => (v, decimal_length v, decimal_length v)
      | S r => shortest_from r v (k + 1)
      end
  end.

Definition shortest (v : Z) : Z * Z * Z := shortest_from 17 v 1.

(** The text of a non-negative integer-valued number: plain digits
    below 10^21, then [d.ddde+x]. *)
Definition integer_text (v : Z) : string :=
  if v <? 2 ^ 53 then digits_of v
  else
    let '(s, k, n) := shortest v in
    if n <=? 21 then digits_of s +:+ zeros (Z.to_nat (n - k))
    else
      match digits_of s with
      | String d EmptyString => String d ("e+" +:+ digits_of (n - 1))
      | String d r => String d ("." +:+ r +:+ "e+" +:+ digits_of (n - 1))
      | EmptyString => EmptyString
      end.

(** [String(n)] *)
Definition String_of_number (n : JsNumber) : string :=
  match n with
  | NaN => "NaN"
  | PosInfinity => "Infinity"
  | NegInfinity => "-Infinity"
  | Int z => if z <? 0 then "-" +:+ integer_text (- z) else integer_text z
  end.

(** [s.padStart(width, '0')]: a one-character filler, repeated in front
    of [s] until the length reaches [width]; [s] itself when it is
    already that long. *)
Definition padStart0 (width : nat) (s : string) : string :=
  zeros (width - String.length s) +:+ s.

(** [const pad = (n) => String(n).padStart(2, '0')] *)
Definition pad (n : JsNumber) : string := padStart0 2 (String_of_number n).

(** The clamp of the first line: [if (!Number.isFinite(ms) || ms < 0) ms = 0]. *)
Definition clamp_ms (ms : double) : double :=
  if negb (Number_isFinite ms) || SFltb ms (number 0) then number 0 else ms.

Definition formatHMS (ms : double) : string :=
  let ms := clamp_ms ms in
  let total := Math_floor (div ms (number 1000)) in
  let h := Math_floor (div (to_double total) (number 3600)) in
  let m := Math_floor (div (to_double (rem total 3600)) (number 60)) in
  let s := rem total 60 in
  pad h +:+ ":" +:+ pad m +:+ ":" +:+ pad s.

#[global] Arguments number : simpl never.
#[global] Arguments formatHMS : simpl never.

(** Reading a decimal string back: the number a string of digits
    denotes, nothing when the string is empty or holds another
    character. *)
Definition digit_value (c : ascii) : option Z :=
  let k := Z.of_nat (nat_of_ascii c) in
  if (48 <=? k) && (k <=? 57) then Some (k - 48) else None.

Fixpoint decimal_acc (s : string) (acc : Z) : option Z :=
  match s with
  | EmptyString => Some acc
  | String c r =>
      match digit_value c with
      | Some d => decimal_acc r (10 * acc + d)
      | None => None
      end
  end.

Definition decimal_value (s : string) : option Z :=
  match s with
  | EmptyString => None
  | _ => decimal_acc s 0
  end.

End Fmt.

(** ** The scene name pattern

    [_ingestScenes] cleans a name with
    [String(...).replace(/\s*\(.*?\)\s*$/, '')].  Strings are sequences
    of code units below 256 here, so [\s] is the white space of that
    range and [.] excludes the two line terminators of that range. *)

Module Pattern.

(** [\s] *)
Definition is_space (c : ascii) : bool :=
  let k := nat_of_ascii c in
  ((9 <=? k) && (k <=? 13) || (k =? 32) || (k =? 160))%nat.

(** The characters [.] does not match. *)
Definition is_line_terminator (c : ascii) : bool :=
  let k := nat_of_ascii c in
  ((k =? 10) || (k =? 13))%nat.

(** [\s*$] from the current position: only white space is left. *)
Fixpoint spaces_to_end (s : string) : bool :=
  match s with
  | EmptyString => true
  | String c r => is_space c && spaces_to_end r
  end.

(** [.*?\)\s*$] from the current position.  The lazy [.*?] first tries
    to stop, which needs a closing parenthesis followed by white space
    up to the end, and otherwise consumes one more character that is
    not a line terminator. *)
Fixpoint body_close_end (s : string) : bool :=
  match s with
  | EmptyString => false
  | String c r =>
      (Ascii.eqb c ")" && spaces_to_end r)
      || (negb (is_line_terminator c) && body_close_end r)
  end.

(** [\s*\(.*?\)\s*$] from the current position.  An opening parenthesis
    is not white space, so the greedy [\s*] never has to give a
    character back. *)
Fixpoint match_here (s : string) : bool :=
  match s with
  | EmptyString => false
  | String c r =>
      if is_space c then match_here r
      else Ascii.eqb c "(" && body_close_end r
  end.

(** [s.replace(/\s*\(.*?\)\s*$/, '')]: the pattern is not global, so the
    leftmost position at which it matches is the one replaced, and
    because of [$] the match runs to the end of the string: what is
    left is the text before that position. *)
Fixpoint strip (s : string) : string :=
  if match_here s then EmptyString
  else match s with
       | EmptyString => EmptyString
       | String c r => String c (strip r)
       end.

End Pattern.

(** ** Data of the instance and of its surroundings *)

(** [this.config] *)
Record Config : Type := {
  host : JsValue;
  port : JsNumber;
}.

(** The configuration object handed over by the host: its two fields,
    [JUndefined] when a field is missing.  [None] stands for a missing
    configuration ([undefined] or [null]), on which [config?.host] and
    [config?.port] are [undefined]. *)
Record ConfigInput : Type := {
  in_host : JsValue;
  in_port : JsValue;
}.

(** A scene as the remote side reports it, and as the registry keeps it. *)
Record RawScene : Type := {
  raw_id : string;
  raw_name : option string;
}.

Record Scene : Type := {
  id : string;
  name : string;
}.

(** An entry of [session.items]. *)
Record Item : Type := {
  item_type : option string;
  item_name : option string;
}.

(** ** The scene registry: a plain object

    [this.scenes] is an object literal used as a map from scene
    identifiers to entries.  What the code does with it depends on
    three things a map does not have: the order of the own properties
    (array indices in ascending order first, then the other keys in the
    order they were created); the key ["__proto__"], which an
    assignment does not create but hands to the setter inherited from
    [Object.prototype], so that the assigned entry becomes the
    prototype of the object; and the enumerable properties of such a
    prototype, which [for ... in] visits after the own ones. *)

Module Registry.

Record t : Type := {
  own : list (string * Scene);   (* the own properties, in property order *)
  proto : option Scene;          (* the entry that has replaced Object.prototype *)
}.

(** [{}] *)
Definition fresh : t := {| own := []; proto := None |}.

(** An array index: the canonical decimal text of an integer from 0 to
    2^32 - 2. *)
Definition array_index (k : string) : option Z :=
  match Fmt.decimal_value k with
  | Some n =>
      if (n <? 2 ^ 32 - 1) && String.eqb (Fmt.digits_of n) k then Some n else None
  | None => None
  end.

(** The own property under a key. *)
Fixpoint get_own (k : string) (l : list (string * Scene)) : option Scene :=
  match l with
  | [] => None
  | (k', v) :: r => if String.eqb k' k then Some v else get_own k r
  end.

(** A new value for an existing own property: its place is kept. *)
Fixpoint replace (k : string) (v : Scene) (l : list (string * Scene))
  : list (string * Scene) :=
  match l with
  | [] => []
  | (k', v') :: r =>
      if String.eqb k' k then (k, v) :: r else (k', v') :: replace k v r
  end.

(** A new array index goes after the smaller indices and before
    everything else. *)
Fixpoint insert_index (n : Z) (k : string) (v : Scene) (l : list (string * Scene))
  : list (string * Scene) :=
  match l with
  | [] => [(k, v)]
  | (k', v') :: r =>
      match array_index k' with
      | Some n' => if n' <? n then (k', v') :: insert_index n k v r else (k, v) :: l
      | None => (k, v) :: l
      end
  end.

(** Defining or updating an own property. *)
Definition put (k : string) (v : Scene) (l : list (string * Scene))
  : list (string * Scene) :=
  match get_own k l with
  | Some _ => replace k v l
  | None =>
      match array_index k with
      | Some n => insert_index n k v l
      | None => l ++ [(k, v)]
      end
  end.

(** [o[k] = v] for an entry [v]. *)
Definition assign (k : string) (v : Scene) (o : t) : t :=
  if String.eqb k "__proto__" then {| own := own o; proto := Some v |}
  else {| own := put k v (own o); proto := proto o |}.

(** [for (const k in o)], with what [o[k].name] is for each [k]: the
    own keys in property order with the names of their entries, then
    the two properties of a prototype entry that no own key hides.
    Under an inherited key, [o[k]] is the string property of the
    prototype entry, and a string has no [name]: [None] is
    [undefined]. *)
Definition for_in (o : t) : list (string * option string) :=
  ((fun kv : string * Scene => (kv.1, Some (name kv.2))) <$> own o)
  ++ match proto o with
     | Some _ =>
         (fun k : string => (k, None))
           <$> filter (fun k => get_own k (own o) = None) ["id"; "name"]
     | None => []
     end.

(** [Object.values(o)] *)
Definition values (o : t) : list Scene := snd <$> own o.

End Registry.

(** The own entry under an identifier is written [o !! sid], and [∅] is
    a fresh object. *)
#[global] Instance registry_lookup : Lookup string Scene Registry.t :=
  fun k o => Registry.get_own k (Registry.own o).

#[global] Instance registry_empty : Empty Registry.t := Registry.fresh.

(** [`${v}`] for a value that is a string or [undefined]. *)
Definition template_text (v : option string) : string := default "undefined" v.

(** The remote root proxy [channel.objects.meld]: the method names for
    which [typeof proxy[n] === 'function'], the two state properties, the
    three signals (present when they have a [connect]), and
    [session.items] when both are there.  A state property is a
    boolean on a well-behaved remote side; [typeof] tests it. *)
Record Proxy : Type := {
  methods : gset string;
  p_isRecording : JsValue;
  p_isStreaming : JsValue;
  sig_sceneChanged : bool;
  sig_isRecordingChanged : bool;
  sig_isStreamingChanged : bool;
  session_items : option (list (string * Item));
}.

Inductive Status : Type :=
| connecting
| ok
| disconnected
| connection_failure (message : string).

Inductive Level : Type := debug | info | warn | error.

Inductive LogMessage : Type :=
| MsgConnecting (h : JsValue) (p : JsNumber)
| MsgConfigUpdated (h : JsValue) (p : JsNumber)
| MsgQWebChannelInitFailed (e : option string)
| MsgNoSceneDiscovery.

(** A method invoked on the proxy, with its arguments. *)
Record RemoteCall : Type := {
  call_method : string;
  call_args : list string;
}.

(** The closures handed to [setInterval] and [setTimeout]. *)
Inductive TickKind : Type := RecordTick | StreamTick.

Record Interval : Type := {
  interval_id : nat;
  interval_kind : TickKind;
  interval_period : Z;
}.

(** The only one-shot timer of the source runs [_connect]. *)
Record Timeout : Type := {
  timeout_id : nat;
  timeout_set_at : Z;
  timeout_delay : Z;
}.

Inductive ReadyState : Type := CONNECTING | OPEN | CLOSING | CLOSED.

Record Socket : Type := {
  sock_host : JsValue;
  sock_port : JsNumber;
  sock_state : ReadyState;
  sock_channel : bool;      (* a QWebChannel waits for its handshake here *)
}.

(** The callbacks of the action definitions. *)
Inductive Callback : Type :=
| CbShowScene (scene : string)
| CbToggleStream | CbStartStream | CbStopStream
| CbToggleRecord | CbStartRecord | CbStopRecord.

Record ActionDef : Type := {
  action_name : string;
  action_callback : Callback;
}.

Record Preset : Type := {
  preset_category : string;
  preset_name : string;
  preset_text : option string;     (* [style.text]: a string, or [undefined] *)
  preset_action : string;
  preset_feedback_scene : option string;
}.

(** The fields of [MeldStudioInstance]. *)
Record Instance : Type := {
  ws : option nat;
  qweb : option Proxy;
  config : Config;
  scenes : Registry.t;
  currentSceneId : option string;
  isRecording : bool;
  isStreaming : bool;
  recordStart : option Z;
  streamStart : option Z;
  recordTimer : option nat;
  streamTimer : option nat;
}.

(** What surrounds the instance: the clock [Date.now()], the timers of
    the event loop, the sockets created so far, and what the instance
    has handed to the host through [InstanceBase]. *)
Record Env : Type := {
  now : Z;
  next_timer : nat;
  intervals : list Interval;
  timeouts : list Timeout;
  sockets : list Socket;               (* socket k is the k-th created *)
  status : option Status;
  variables : gmap string string;
  variable_defs : list (string * string);
  actions : gmap string ActionDef;
  feedback_choices : list (string * string);
  presets : list Preset;
  feedback_checks : nat;
  sub_sceneChanged : bool;             (* handlers connected to the proxy *)
  sub_isRecordingChanged : bool;
  sub_isStreamingChanged : bool;
  pending_getScenes : nat;
  remote_calls : list RemoteCall;
  log : list (Level * LogMessage);
}.

Record World : Type := {
  inst : Instance;
  env : Env;
}.

(** ** Field updates

    [this.f = v] on the instance, and the same for what the host keeps. *)

Definition set_ws v (i : Instance) : Instance :=
  {| ws := v; qweb := qweb i; config := config i; scenes := scenes i;
     currentSceneId := currentSceneId i; isRecording := isRecording i;
     isStreaming := isStreaming i; recordStart := recordStart i;
     streamStart := streamStart i; recordTimer := recordTimer i;
     streamTimer := streamTimer i |}.

Definition set_qweb v (i : Instance) : Instance :=
  {| ws := ws i; qweb := v; config := config i; scenes := scenes i;
     currentSceneId := currentSceneId i; isRecording := isRecording i;
     isStreaming := isStreaming i; recordStart := recordStart i;
     streamStart := streamStart i; recordTimer := recordTimer i;
     streamTimer := streamTimer i |}.

Definition set_config v (i : Instance) : Instance :=
  {| ws := ws i; qweb := qweb i; config := v; scenes := scenes i;
     currentSceneId := currentSceneId i; isRecording := isRecording i;
     isStreaming := isStreaming i; recordStart := recordStart i;
     streamStart := streamStart i; recordTimer := recordTimer i;
     streamTimer := streamTimer i |}.

Definition set_scenes v (i : Instance) : Instance :=
  {| ws := ws i; qweb := qweb i; config := config i; scenes := v;
     currentSceneId := currentSceneId i; isRecording := isRecording i;
     isStreaming := isStreaming i; recordStart := recordStart i;
     streamStart := streamStart i; recordTimer := recordTimer i;
     streamTimer := streamTimer i |}.

Definition set_currentSceneId v (i : Instance) : Instance :=
  {| ws := ws i; qweb := qweb i; config := config i; scenes := scenes i;
     currentSceneId := v; isRecording := isRecording i; isStreaming := isStreaming i;
     recordStart := recordStart i; streamStart := streamStart i;
     recordTimer := recordTimer i; streamTimer := streamTimer i |}.

Definition set_isRecording v (i : Instance) : Instance :=
  {| ws := ws i; qweb := qweb i; config := config i; scenes := scenes i;
     currentSceneId := currentSceneId i; isRecording := v;
     isStreaming := isStreaming i; recordStart := recordStart i;
     streamStart := streamStart i; recordTimer := recordTimer i;
     streamTimer := streamTimer i |}.

Definition set_isStreaming v (i : Instance) : Instance :=
  {| ws := ws i; qweb := qweb i; config := config i; scenes := scenes i;
     currentSceneId := currentSceneId i; isRecording := isRecording i;
     isStreaming := v; recordStart := recordStart i; streamStart := streamStart i;
     recordTimer := recordTimer i; streamTimer := streamTimer i |}.

Definition set_recordStart v (i : Instance) : Instance :=
  {| ws := ws i; qweb := qweb i; config := config i; scenes := scenes i;
     currentSceneId := currentSceneId i; isRecording := isRecording i;
     isStreaming := isStreaming i; recordStart := v; streamStart := streamStart i;
     recordTimer := recordTimer i; streamTimer := streamTimer i |}.

Definition set_streamStart v (i : Instance) : Instance :=
  {| ws := ws i; qweb := qweb i; config := config i; scenes := scenes i;
     currentSceneId := currentSceneId i; isRecording := isRecording i;
     isStreaming := isStreaming i; recordStart := recordStart i; streamStart := v;
     recordTimer := recordTimer i; streamTimer := streamTimer i |}.

Definition set_recordTimer v (i : Instance) : Instance :=
  {| ws := ws i; qweb := qweb i; config := config i; scenes := scenes i;
     currentSceneId := currentSceneId i; isRecording := isRecording i;
     isStreaming := isStreaming i; recordStart := recordStart i;
     streamStart := streamStart i; recordTimer := v; streamTimer := streamTimer i |}.

Definition set_streamTimer v (i : Instance) : Instance :=
  {| ws := ws i; qweb := qweb i; config := config i; scenes := scenes i;
     currentSceneId := currentSceneId i; isRecording := isRecording i;
     isStreaming := isStreaming i; recordStart := recordStart i;
     streamStart := streamStart i; recordTimer := recordTimer i; streamTimer := v |}.

Definition set_now v (e : Env) : Env :=
  {| now := v; next_timer := next_timer e; intervals := intervals e;
     timeouts := timeouts e; sockets := sockets e; status := status e;
     variables := variables e; variable_defs := variable_defs e;
     actions := actions e; feedback_choices := feedback_choices e;
     presets := presets e; feedback_checks := feedback_checks e;
     sub_sceneChanged := sub_sceneChanged e;
     sub_isRecordingChanged := sub_isRecordingChanged e;
     sub_isStreamingChanged := sub_isStreamingChanged e;
     pending_getScenes := pending_getScenes e; remote_calls := remote_calls e;
     log := log e |}.

Definition set_next_timer v (e : Env) : Env :=
  {| now := now e; next_timer := v; intervals := intervals e; timeouts := timeouts e;
     sockets := sockets e; status := status e; variables := variables e;
     variable_defs := variable_defs e; actions := actions e;
     feedback_choices := feedback_choices e; presets := presets e;
     feedback_checks := feedback_checks e; sub_sceneChanged := sub_sceneChanged e;
     sub_isRecordingChanged := sub_isRecordingChanged e;
     sub_isStreamingChanged := sub_isStreamingChanged e;
     pending_getScenes := pending_getScenes e; remote_calls := remote_calls e;
     log := log e |}.

Definition set_intervals v (e : Env) : Env :=
  {| now := now e; next_timer := next_timer e; intervals := v;
     timeouts := timeouts e; sockets := sockets e; status := status e;
     variables := variables e; variable_defs := variable_defs e;
     actions := actions e; feedback_choices := feedback_choices e;
     presets := presets e; feedback_checks := feedback_checks e;
     sub_sceneChanged := sub_sceneChanged e;
     sub_isRecordingChanged := sub_isRecordingChanged e;
     sub_isStreamingChanged := sub_isStreamingChanged e;
     pending_getScenes := pending_getScenes e; remote_calls := remote_calls e;
     log := log e |}.

Definition set_timeouts v (e : Env) : Env :=
  {| now := now e; next_timer := next_timer e; intervals := intervals e;
     timeouts := v; sockets := sockets e; status := status e;
     variables := variables e; variable_defs := variable_defs e;
     actions := actions e; feedback_choices := feedback_choices e;
     presets := presets e; feedback_checks := feedback_checks e;
     sub_sceneChanged := sub_sceneChanged e;
     sub_isRecordingChanged := sub_isRecordingChanged e;
     sub_isStreamingChanged := sub_isStreamingChanged e;
     pending_getScenes := pending_getScenes e; remote_calls := remote_calls e;
     log := log e |}.

Definition set_sockets v (e : Env) : Env :=
  {| now := now e; next_timer := next_timer e; intervals := intervals e;
     timeouts := timeouts e; sockets := v; status := status e;
     variables := variables e; variable_defs := variable_defs e;
     actions := actions e; feedback_choices := feedback_choices e;
     presets := presets e; feedback_checks := feedback_checks e;
     sub_sceneChanged := sub_sceneChanged e;
     sub_isRecordingChanged := sub_isRecordingChanged e;
     sub_isStreamingChanged := sub_isStreamingChanged e;
     pending_getScenes := pending_getScenes e; remote_calls := remote_calls e;
     log := log e |}.

Definition set_status v (e : Env) : Env :=
  {| now := now e; next_timer := next_timer e; intervals := intervals e;
     timeouts := timeouts e; sockets := sockets e; status := v;
     variables := variables e; variable_defs := variable_defs e;
     actions := actions e; feedback_choices := feedback_choices e;
     presets := presets e; feedback_checks := feedback_checks e;
     sub_sceneChanged := sub_sceneChanged e;
     sub_isRecordingChanged := sub_isRecordingChanged e;
     sub_isStreamingChanged := sub_isStreamingChanged e;
     pending_getScenes := pending_getScenes e; remote_calls := remote_calls e;
     log := log e |}.

Definition set_variables v (e : Env) : Env :=
  {| now := now e; next_timer := next_timer e; intervals := intervals e;
     timeouts := timeouts e; sockets := sockets e; status := status e;
     variables := v; variable_defs := variable_defs e; actions := actions e;
     feedback_choices := feedback_choices e; presets := presets e;
     feedback_checks := feedback_checks e; sub_sceneChanged := sub_sceneChanged e;
     sub_isRecordingChanged := sub_isRecordingChanged e;
     sub_isStreamingChanged := sub_isStreamingChanged e;
     pending_getScenes := pending_getScenes e; remote_calls := remote_calls e;
     log := log e |}.

Definition set_variable_defs v (e : Env) : Env :=
  {| now := now e; next_timer := next_timer e; intervals := intervals e;
     timeouts := timeouts e; sockets := sockets e; status := status e;
     variables := variables e; variable_defs := v; actions := actions e;
     feedback_choices := feedback_choices e; presets := presets e;
     feedback_checks := feedback_checks e; sub_sceneChanged := sub_sceneChanged e;
     sub_isRecordingChanged := sub_isRecordingChanged e;
     sub_isStreamingChanged := sub_isStreamingChanged e;
     pending_getScenes := pending_getScenes e; remote_calls := remote_calls e;
     log := log e |}.

Definition set_actions v (e : Env) : Env :=
  {| now := now e; next_timer := next_timer e; intervals := intervals e;
     timeouts := timeouts e; sockets := sockets e; status := status e;
     variables := variables e; variable_defs := variable_defs e; actions := v;
     feedback_choices := feedback_choices e; presets := presets e;
     feedback_checks := feedback_checks e; sub_sceneChanged := sub_sceneChanged e;
     sub_isRecordingChanged := sub_isRecordingChanged e;
     sub_isStreamingChanged := sub_isStreamingChanged e;
     pending_getScenes := pending_getScenes e; remote_calls := remote_calls e;
     log := log e |}.

Definition set_feedback_choices v (e : Env) : Env :=
  {| now := now e; next_timer := next_timer e; intervals := intervals e;
     timeouts := timeouts e; sockets := sockets e; status := status e;
     variables := variables e; variable_defs := variable_defs e;
     actions := actions e; feedback_choices := v; presets := presets e;
     feedback_checks := feedback_checks e; sub_sceneChanged := sub_sceneChanged e;
     sub_isRecordingChanged := sub_isRecordingChanged e;
     sub_isStreamingChanged := sub_isStreamingChanged e;
     pending_getScenes := pending_getScenes e; remote_calls := remote_calls e;
     log := log e |}.

Definition set_presets v (e : Env) : Env :=
  {| now := now e; next_timer := next_timer e; intervals := intervals e;
     timeouts := timeouts e; sockets := sockets e; status := status e;
     variables := variables e; variable_defs := variable_defs e;
     actions := actions e; feedback_choices := feedback_choices e; presets := v;
     feedback_checks := feedback_checks e; sub_sceneChanged := sub_sceneChanged e;
     sub_isRecordingChanged := sub_isRecordingChanged e;
     sub_isStreamingChanged := sub_isStreamingChanged e;
     pending_getScenes := pending_getScenes e; remote_calls := remote_calls e;
     log := log e |}.

Definition set_feedback_checks v (e : Env) : Env :=
  {| now := now e; next_timer := next_timer e; intervals := intervals e;
     timeouts := timeouts e; sockets := sockets e; status := status e;
     variables := variables e; variable_defs := variable_defs e;
     actions := actions e; feedback_choices := feedback_choices e;
     presets := presets e; feedback_checks := v;
     sub_sceneChanged := sub_sceneChanged e;
     sub_isRecordingChanged := sub_isRecordingChanged e;
     sub_isStreamingChanged := sub_isStreamingChanged e;
     pending_getScenes := pending_getScenes e; remote_calls := remote_calls e;
     log := log e |}.

Definition set_sub_sceneChanged v (e : Env) : Env :=
  {| now := now e; next_timer := next_timer e; intervals := intervals e;
     timeouts := timeouts e; sockets := sockets e; status := status e;
     variables := variables e; variable_defs := variable_defs e;
     actions := actions e; feedback_choices := feedback_choices e;
     presets := presets e; feedback_checks := feedback_checks e;
     sub_sceneChanged := v; sub_isRecordingChanged := sub_isRecordingChanged e;
     sub_isStreamingChanged := sub_isStreamingChanged e;
     pending_getScenes := pending_getScenes e; remote_calls := remote_calls e;
     log := log e |}.

Definition set_sub_isRecordingChanged v (e : Env) : Env :=
  {| now := now e; next_timer := next_timer e; intervals := intervals e;
     timeouts := timeouts e; sockets := sockets e; status := status e;
     variables := variables e; variable_defs := variable_defs e;
     actions := actions e; feedback_choices := feedback_choices e;
     presets := presets e; feedback_checks := feedback_checks e;
     sub_sceneChanged := sub_sceneChanged e; sub_isRecordingChanged := v;
     sub_isStreamingChanged := sub_isStreamingChanged e;
     pending_getScenes := pending_getScenes e; remote_calls := remote_calls e;
     log := log e |}.

Definition set_sub_isStreamingChanged v (e : Env) : Env :=
  {| now := now e; next_timer := next_timer e; intervals := intervals e;
     timeouts := timeouts e; sockets := sockets e; status := status e;
     variables := variables e; variable_defs := variable_defs e;
     actions := actions e; feedback_choices := feedback_choices e;
     presets := presets e; feedback_checks := feedback_checks e;
     sub_sceneChanged := sub_sceneChanged e;
     sub_isRecordingChanged := sub_isRecordingChanged e; sub_isStreamingChanged := v;
     pending_getScenes := pending_getScenes e; remote_calls := remote_calls e;
     log := log e |}.

Definition set_pending_getScenes v (e : Env) : Env :=
  {| now := now e; next_timer := next_timer e; intervals := intervals e;
     timeouts := timeouts e; sockets := sockets e; status := status e;
     variables := variables e; variable_defs := variable_defs e;
     actions := actions e; feedback_choices := feedback_choices e;
     presets := presets e; feedback_checks := feedback_checks e;
     sub_sceneChanged := sub_sceneChanged e;
     sub_isRecordingChanged := sub_isRecordingChanged e;
     sub_isStreamingChanged := sub_isStreamingChanged e; pending_getScenes := v;
     remote_calls := remote_calls e; log := log e |}.

Definition set_remote_calls v (e : Env) : Env :=
  {| now := now e; next_timer := next_timer e; intervals := intervals e;
     timeouts := timeouts e; sockets := sockets e; status := status e;
     variables := variables e; variable_defs := variable_defs e;
     actions := actions e; feedback_choices := feedback_choices e;
     presets := presets e; feedback_checks := feedback_checks e;
     sub_sceneChanged := sub_sceneChanged e;
     sub_isRecordingChanged := sub_isRecordingChanged e;
     sub_isStreamingChanged := sub_isStreamingChanged e;
     pending_getScenes := pending_getScenes e; remote_calls := v; log := log e |}.

Definition set_log v (e : Env) : Env :=
  {| now := now e; next_timer := next_timer e; intervals := intervals e;
     timeouts := timeouts e; sockets := sockets e; status := status e;
     variables := variables e; variable_defs := variable_defs e;
     actions := actions e; feedback_choices := feedback_choices e;
     presets := presets e; feedback_checks := feedback_checks e;
     sub_sceneChanged := sub_sceneChanged e;
     sub_isRecordingChanged := sub_isRecordingChanged e;
     sub_isStreamingChanged := sub_isStreamingChanged e;
     pending_getScenes := pending_getScenes e; remote_calls := remote_calls e;
     log := v |}.

Definition on_inst (f : Instance -> Instance) (w : World) : World :=
  {| inst := f (inst w); env := env w |}.

Definition on_env (f : Env -> Env) (w : World) : World :=
  {| inst := inst w; env := f (env w) |}.

(** ** What the instance calls on its surroundings *)

Definition Date_now (w : World) : Z := now (env w).

Definition updateStatus (s : Status) : World -> World :=
  on_env (set_status (Some s)).

Definition log_message (l : Level) (m : LogMessage) : World -> World :=
  on_env (fun e => set_log (log e ++ [(l, m)]) e).

(** [setVariableValues({ k: v })]: the named variables change, the
    others keep their values. *)
Definition setVariableValues (kvs : list (string * string)) : World -> World :=
  on_env (fun e =>
    set_variables (foldl (fun m kv => <[kv.1 := kv.2]> m) (variables e) kvs) e).

Definition setInterval (k : TickKind) (period : Z) (w : World) : nat * World :=
  let i := next_timer (env w) in
  (i, on_env (fun e =>
        set_next_timer (S i)
          (set_intervals
             (intervals e ++
                [{| interval_id := i; interval_kind := k; interval_period := period |}])
             e)) w).

Definition clearInterval (i : nat) : World -> World :=
  on_env (fun e =>
    set_intervals (filter (fun iv => interval_id iv <> i) (intervals e)) e).

(** [setTimeout(() => this._connect(), delay)] *)
Definition setTimeout_connect (delay : Z) : World -> World :=
  on_env (fun e =>
    set_next_timer (S (next_timer e))
      (set_timeouts
         (timeouts e ++
            [{| timeout_id := next_timer e; timeout_set_at := now e;
                timeout_delay := delay |}])
         e)).

(** [ws.close()]: a socket that is not closed yet starts closing; its
    close event comes later. *)
Definition closing (s : Socket) : Socket :=
  match sock_state s with
  | CLOSED => s
  | _ => {| sock_host := sock_host s; sock_port := sock_port s;
            sock_state := CLOSING; sock_channel := sock_channel s |}
  end.

Definition socket_close (k : nat) : World -> World :=
  on_env (fun e => set_sockets (alter closing k (sockets e)) e).

Definition set_sock_state (st : ReadyState) (s : Socket) : Socket :=
  {| sock_host := sock_host s; sock_port := sock_port s;
     sock_state := st; sock_channel := sock_channel s |}.

Definition set_sock_channel (b : bool) (s : Socket) : Socket :=
  {| sock_host := sock_host s; sock_port := sock_port s;
     sock_state := sock_state s; sock_channel := b |}.

(** A method call on the proxy.  The trace records the invocation,
    whether or not the channel behind the proxy can still deliver it. *)
Definition invoke (m : string) (args : list string) : World -> World :=
  on_env (fun e =>
    set_remote_calls
      (remote_calls e ++ [{| call_method := m; call_args := args |}]) e).

(** [typeof proxy[m] === 'function'] *)
Definition has_method (p : Proxy) (m : string) : bool :=
  bool_decide (m ∈ methods p).

(** [e?.message || fallback] *)
Definition message_or (e : option string) (fallback : string) : string :=
  match e with
  | Some m => if String.eqb m "" then fallback else m
  | None => fallback
  end.

(** ** Internal timers *)

Definition _stopRecordTimer (w : World) : World :=
  match recordTimer (inst w) with
  | Some i => on_inst (set_recordTimer None) (clearInterval i w)
  | None => w
  end.

Definition _stopStreamTimer (w : World) : World :=
  match streamTimer (inst w) with
  | Some i => on_inst (set_streamTimer None) (clearInterval i w)
  | None => w
  end.

Definition _startRecording (w : World) : World :=
  let w := on_inst (set_isRecording true) w in
  let w := on_inst (set_recordStart (Some (Date_now w))) w in
  let w := _stopRecordTimer w in
  let '(i, w) := setInterval RecordTick 1000 w in
  on_inst (set_recordTimer (Some i)) w.

Definition _stopRecording (w : World) : World :=
  let w := on_inst (set_isRecording false) w in
  let w := _stopRecordTimer w in
  setVariableValues [("recording_timecode", "00:00:00")] w.

Definition _startStreaming (w : World) : World :=
  let w := on_inst (set_isStreaming true) w in
  let w := on_inst (set_streamStart (Some (Date_now w))) w in
  let w := _stopStreamTimer w in
  let '(i, w) := setInterval StreamTick 1000 w in
  on_inst (set_streamTimer (Some i)) w.

Definition _stopStreaming (w : World) : World :=
  let w := on_inst (set_isStreaming false) w in
  let w := _stopStreamTimer w in
  setVariableValues [("streaming_timecode", "00:00:00")] w.

Definition _onRecordingStateChange (active : bool) (w : World) : World :=
  if active && negb (isRecording (inst w)) then _startRecording w
  else if negb active && isRecording (inst w) then _stopRecording w
  else w.

Definition _onStreamingStateChange (active : bool) (w : World) : World :=
  if active && negb (isStreaming (inst w)) then _startStreaming w
  else if negb active && isStreaming (inst w) then _stopStreaming w
  else w.

(** [start || Date.now()]: a start that is [null] or [0] is falsy. *)
Definition start_or_now (start : option Z) (t : Z) : Z :=
  match start with
  | Some s => if s =? 0 then t else s
  | None => t
  end.

(** The bodies of the two interval closures.  Clock readings are
    integers; their difference as a double is the double nearest to the
    difference. *)
Definition tick (k : TickKind) (w : World) : World :=
  match k with
  | RecordTick =>
      let tc := Fmt.formatHMS
                  (Fmt.number
                     (Date_now w - start_or_now (recordStart (inst w)) (Date_now w))) in
      setVariableValues [("recording_timecode", tc)] w
  | StreamTick =>
      let tc := Fmt.formatHMS
                  (Fmt.number
                     (Date_now w - start_or_now (streamStart (inst w)) (Date_now w))) in
      setVariableValues [("streaming_timecode", tc)] w
  end.

(** ** Scenes, actions, feedbacks, presets *)

(** [String(scene.name || scene.id).replace(...)]: an empty name is
    falsy like a missing one. *)
Definition name_or_id (nm : option string) (i : string) : string :=
  match nm with
  | Some n => if String.eqb n "" then i else n
  | None => i
  end.

Definition cleanName (scene : RawScene) : string :=
  Pattern.strip (name_or_id (raw_name scene) (raw_id scene)).

(** [{ id: scene.id, name: cleanName }] *)
Definition entry_of (scene : RawScene) : Scene :=
  {| id := raw_id scene; name := cleanName scene |}.

(** The loop of [_ingestScenes] over an object, and over the fresh
    object [_ingestScenes] starts from. *)
Definition ingest_from (o : Registry.t) (scenesArray : list RawScene) : Registry.t :=
  foldl (fun o scene => Registry.assign (raw_id scene) (entry_of scene) o) o scenesArray.

Definition ingest_loop (scenesArray : list RawScene) : Registry.t :=
  ingest_from Registry.fresh scenesArray.

Definition fixed_actions : list (string * ActionDef) :=
  [ ("toggle_stream", {| action_name := "Toggle Streaming"; action_callback := CbToggleStream |});
    ("start_stream", {| action_name := "Start Streaming"; action_callback := CbStartStream |});
    ("stop_stream", {| action_name := "Stop Streaming"; action_callback := CbStopStream |});
    ("toggle_record", {| action_name := "Toggle Recording"; action_callback := CbToggleRecord |});
    ("start_record", {| action_name := "Start Recording"; action_callback := CbStartRecord |});
    ("stop_record", {| action_name := "Stop Recording"; action_callback := CbStopRecord |}) ].

(** One action per name of the [for ... in] loop, keyed
    [show_scene_<id>], then the six controls; [setActionDefinitions]
    replaces what the host had. *)
Definition _defineActions (w : World) : World :=
  let per_scene :=
    foldl (fun (acc : gmap string ActionDef) (kn : string * option string) =>
             <["show_scene_" +:+ kn.1 :=
                 {| action_name := "Show Scene: " +:+ template_text kn.2;
                    action_callback := CbShowScene kn.1 |}]> acc)
          ∅ (Registry.for_in (scenes (inst w))) in
  let all := foldl (fun acc kv => <[kv.1 := kv.2]> acc) per_scene fixed_actions in
  on_env (set_actions all) w.

Definition _defineFeedbacks (w : World) : World :=
  on_env (set_feedback_choices []) w.

Definition _refreshFeedbackChoices (w : World) : World :=
  on_env (set_feedback_choices
            ((fun sc => (id sc, name sc)) <$> Registry.values (scenes (inst w)))) w.

(** The line feed between the two lines of a button text. *)
Definition nl : string := String (ascii_of_nat 10) EmptyString.

(** A control button: its text is a caption over the timecode variable
    of its kind. *)
Definition control_preset (nm caption variable action : string) : Preset :=
  {| preset_category := "Control"; preset_name := nm;
     preset_text := Some (caption +:+ nl +:+ "$(meldstudio:" +:+ variable +:+ ")");
     preset_action := action; preset_feedback_scene := None |}.

Definition fixed_presets : list Preset :=
  [ control_preset "Toggle Streaming" "Stream" "streaming_timecode" "toggle_stream";
    control_preset "Toggle Recording" "Record" "recording_timecode" "toggle_record";
    control_preset "Start Streaming" "Start Stream" "streaming_timecode" "start_stream";
    control_preset "Stop Streaming" "Stop Stream" "streaming_timecode" "stop_stream";
    control_preset "Start Recording" "Start Rec" "recording_timecode" "start_record";
    control_preset "Stop Recording" "Stop Rec" "recording_timecode" "stop_record" ].

(** One button per name of the [for ... in] loop, then the six
    control buttons. *)
Definition _definePresets (w : World) : World :=
  let per_scene :=
    (fun kn : string * option string =>
       {| preset_category := "Scenes";
          preset_name := "Scene: " +:+ template_text kn.2;
          preset_text := kn.2;
          preset_action := "show_scene_" +:+ kn.1;
          preset_feedback_scene := Some kn.1 |}) <$> Registry.for_in (scenes (inst w)) in
  on_env (set_presets (per_scene ++ fixed_presets)) w.

(** [scenesArray || []] *)
Definition _ingestScenes (scenesArray : option (list RawScene)) (w : World) : World :=
  let w := on_inst (set_scenes (ingest_loop (default [] scenesArray))) w in
  let w := _defineActions w in
  let w := _refreshFeedbackChoices w in
  _definePresets w.

(** The scenes among [session.items]. *)
Definition scenes_of_items (items : list (string * Item)) : list RawScene :=
  (fun kv => {| raw_id := kv.1;
                raw_name := Some (name_or_id (item_name kv.2) kv.1) |})
    <$> filter (fun kv => item_type kv.2 = Some "scene") items.

(** With [getScenes] the scenes arrive later, in the callback. *)
Definition _refreshScenes (w : World) : World :=
  match qweb (inst w) with
  | None => w
  | Some p =>
      if has_method p "getScenes" then
        on_env (fun e => set_pending_getScenes (S (pending_getScenes e)) e)
               (invoke "getScenes" [] w)
      else
        match session_items p with
        | Some items => _ingestScenes (Some (scenes_of_items items)) w
        | None => log_message warn MsgNoSceneDiscovery w
        end
  end.

(** The callbacks of the actions.  A callback has no [await]: it runs
    to its end in one go. *)
Definition run_callback (cb : Callback) (w : World) : World :=
  match cb with
  | CbShowScene sid =>
      match qweb (inst w) with
      | None => w
      | Some p =>
          if has_method p "showScene" then invoke "showScene" [sid] w
          else if has_method p "switchScene" then invoke "switchScene" [sid] w
          else w
      end
  | CbToggleStream =>
      let w := match qweb (inst w) with
               | Some p =>
                   if has_method p "toggleStream" then invoke "toggleStream" [] w
                   else if has_method p "toggleStreaming" then invoke "toggleStreaming" [] w
                   else w
               | None => w
               end in
      if isStreaming (inst w) then _stopStreaming w else _startStreaming w
  | CbStartStream =>
      let w := match qweb (inst w) with
               | Some p => if has_method p "startStream" then invoke "startStream" [] w else w
               | None => w
               end in
      if negb (isStreaming (inst w)) then _startStreaming w else w
  | CbStopStream =>
      let w := match qweb (inst w) with
               | Some p => if has_method p "stopStream" then invoke "stopStream" [] w else w
               | None => w
               end in
      if isStreaming (inst w) then _stopStreaming w else w
  | CbToggleRecord =>
      let w := match qweb (inst w) with
               | Some p =>
                   if has_method p "toggleRecord" then invoke "toggleRecord" [] w
                   else if has_method p "toggleRecording" then invoke "toggleRecording" [] w
                   else w
               | None => w
               end in
      if isRecording (inst w) then _stopRecording w else _startRecording w
  | CbStartRecord =>
      let w := match qweb (inst w) with
               | Some p => if has_method p "startRecord" then invoke "startRecord" [] w else w
               | None => w
               end in
      if negb (isRecording (inst w)) then _startRecording w else w
  | CbStopRecord =>
      let w := match qweb (inst w) with
               | Some p => if has_method p "stopRecord" then invoke "stopRecord" [] w else w
               | None => w
               end in
      if isRecording (inst w) then _stopRecording w else w
  end.

(** ** Connection *)

(** What [new WebSocket(url)] and [new QWebChannel(transport, cb)] do is
    decided outside the instance: either the object is built, or the
    constructor throws. *)
Inductive Construction : Type :=
| Built
| Throws (message : option string).

Definition _connect (o : Construction) (w : World) : World :=
  let w := match ws (inst w) with
           | Some k => on_inst (set_ws None) (socket_close k w)
           | None => w
           end in
  let c := config (inst w) in
  let w := log_message info (MsgConnecting (host c) (port c)) w in
  match o with
  | Built =>
      let k := length (sockets (env w)) in
      let w := on_env (fun e =>
                 set_sockets
                   (sockets e ++
                      [{| sock_host := host c; sock_port := port c;
                          sock_state := CONNECTING; sock_channel := false |}]) e) w in
      on_inst (set_ws (Some k)) w
  | Throws e => updateStatus (connection_failure (message_or e "Connect failed")) w
  end.

(** The handler of the socket's open event. *)
Definition on_open (k : nat) (o : Construction) (w : World) : World :=
  match o with
  | Built =>
      on_env (fun e => set_sockets (alter (set_sock_channel true) k (sockets e)) e) w
  | Throws e =>
      let w := updateStatus (connection_failure "QWebChannel init failed") w in
      let w := log_message error (MsgQWebChannelInitFailed e) w in
      socket_close k w
  end.

(** The callback of [QWebChannel], with [channel.objects.meld]. *)
Definition on_channel (meld : option Proxy) (w : World) : World :=
  let w := on_inst (set_qweb meld) w in
  let w := updateStatus ok w in
  let subscribed (f : Proxy -> bool) := from_option f false meld in
  let w := on_env (set_sub_sceneChanged (subscribed sig_sceneChanged)) w in
  let w := on_env (set_sub_isRecordingChanged (subscribed sig_isRecordingChanged)) w in
  let w := on_env (set_sub_isStreamingChanged (subscribed sig_isStreamingChanged)) w in
  let w := match p_isRecording <$> meld with
           | Some (JBool b) => _onRecordingStateChange b w
           | _ => w
           end in
  let w := match p_isStreaming <$> meld with
           | Some (JBool b) => _onStreamingStateChange b w
           | _ => w
           end in
  _refreshScenes w.

(** The handler of the socket's close event. *)
Definition on_close (w : World) : World :=
  let w := updateStatus disconnected w in
  let w := _stopRecordTimer w in
  let w := _stopStreamTimer w in
  setTimeout_connect 3000 w.

(** The handler of the socket's error event. *)
Definition on_error (message : option string) (w : World) : World :=
  updateStatus (connection_failure (message_or message "WebSocket error")) w.

(** The handlers connected to the three signals. *)
Definition on_sceneChanged (sid : string) (w : World) : World :=
  let w := on_inst (set_currentSceneId (Some sid)) w in
  on_env (fun e => set_feedback_checks (S (feedback_checks e)) e) w.

Definition on_isRecordingChanged (w : World) : World :=
  match qweb (inst w) with
  | Some p => _onRecordingStateChange (truthy (p_isRecording p)) w
  | None => w
  end.

Definition on_isStreamingChanged (w : World) : World :=
  match qweb (inst w) with
  | Some p => _onStreamingStateChange (truthy (p_isStreaming p)) w
  | None => w
  end.

Definition destroy (w : World) : World :=
  let w := _stopRecordTimer w in
  let w := _stopStreamTimer w in
  match ws (inst w) with
  | Some k => on_inst (set_ws None) (socket_close k w)
  | None => w
  end.

(** ** Configuration and the events of a run

    [Number(v)] on a string or an object is left to the two conversions
    of the section. *)

Section Lifecycle.

Variable StringToNumber : string -> JsNumber.
Variable ObjectToNumber : nat -> JsNumber.

(** [Number(v)] *)
Definition ToNumber (v : JsValue) : JsNumber :=
  match v with
  | JUndefined => NaN
  | JNull => Int 0
  | JBool b => Int (if b then 1 else 0)
  | JNum n => n
  | JStr s => StringToNumber s
  | JObj h => ObjectToNumber h
  end.

(** [{ host: config?.host || '127.0.0.1', port: Number(config?.port) || 13376 }] *)
Definition effective_config (c : option ConfigInput) : Config :=
  let h := from_option in_host JUndefined c in
  let p := ToNumber (from_option in_port JUndefined c) in
  {| host := if truthy h then h else JStr "127.0.0.1";
     port := if num_truthy p then p else Int 13376 |}.

Definition init (c : option ConfigInput) (o : Construction) (w : World) : World :=
  let w := on_inst (set_config (effective_config c)) w in
  let w := updateStatus connecting w in
  let w := on_env (set_variable_defs
                     [("recording_timecode", "Recording Timecode");
                      ("streaming_timecode", "Streaming Timecode")]) w in
  let w := setVariableValues
             [("recording_timecode", "00:00:00"); ("streaming_timecode", "00:00:00")] w in
  let w := _defineFeedbacks w in
  let w := _defineActions w in
  let w := _definePresets w in
  _connect o w.

Definition configUpdated (c : option ConfigInput) (o : Construction) (w : World) : World :=
  let w := on_inst (set_config (effective_config c)) w in
  let w := log_message debug
             (MsgConfigUpdated (host (config (inst w))) (port (config (inst w)))) w in
  _connect o w.

(** What can happen to a running instance: calls from the host, socket
    events, timers that fire, signals and replies from the remote side,
    and time that passes. *)
Inductive Event : Type :=
| EvInit (c : option ConfigInput) (o : Construction)
| EvConfigUpdated (c : option ConfigInput) (o : Construction)
| EvDestroy
| EvOpen (k : nat) (o : Construction)
| EvChannel (k : nat) (meld : option Proxy)
| EvClose (k : nat)
| EvError (k : nat) (message : option string)
| EvTimeout (i : nat) (o : Construction)
| EvInterval (i : nat)
| EvSceneChanged (sid : string)
| EvIsRecordingChanged (v : JsValue)
| EvIsStreamingChanged (v : JsValue)
| EvScenes (scenesArray : option (list RawScene))
| EvAction (key : string)
| EvElapse (dt : Z).

Definition set_p_isRecording (v : JsValue) (p : Proxy) : Proxy :=
  {| methods := methods p; p_isRecording := v; p_isStreaming := p_isStreaming p;
     sig_sceneChanged := sig_sceneChanged p;
     sig_isRecordingChanged := sig_isRecordingChanged p;
     sig_isStreamingChanged := sig_isStreamingChanged p;
     session_items := session_items p |}.

Definition set_p_isStreaming (v : JsValue) (p : Proxy) : Proxy :=
  {| methods := methods p; p_isRecording := p_isRecording p; p_isStreaming := v;
     sig_sceneChanged := sig_sceneChanged p;
     sig_isRecordingChanged := sig_isRecordingChanged p;
     sig_isStreamingChanged := sig_isStreamingChanged p;
     session_items := session_items p |}.

Definition socket_state (k : nat) (w : World) : option ReadyState :=
  sock_state <$> sockets (env w) !! k.

Definition set_socket_state (k : nat) (st : ReadyState) : World -> World :=
  on_env (fun e => set_sockets (alter (set_sock_state st) k (sockets e)) e).

Definition due (t : Timeout) (w : World) : bool :=
  timeout_set_at t + timeout_delay t <=? Date_now w.

(** One event.  [None] when the event cannot happen in this world: an
    event of a socket that does not exist or is already closed, a timer
    that is not pending or not due, a signal nobody is connected to, a
    reply nobody waits for, an action that is not defined. *)
Definition step (ev : Event) (w : World) : option World :=
  match ev with
  | EvInit c o => Some (init c o w)
  | EvConfigUpdated c o => Some (configUpdated c o w)
  | EvDestroy => Some (destroy w)
  | EvOpen k o =>
      match socket_state k w with
      | Some CONNECTING => Some (on_open k o (set_socket_state k OPEN w))
      | _ => None
      end
  | EvChannel k meld =>
      match sockets (env w) !! k with
      | Some s =>
          match sock_state s, sock_channel s with
          | OPEN, true =>
              Some (on_channel meld
                      (on_env (fun e =>
                         set_sockets (alter (set_sock_channel false) k (sockets e)) e) w))
          | _, _ => None
          end
      | None => None
      end
  | EvClose k =>
      match socket_state k w with
      | Some CLOSED | None => None
      | Some _ => Some (on_close (set_socket_state k CLOSED w))
      end
  | EvError k message =>
      match socket_state k w with
      | Some _ => Some (on_error message w)
      | None => None
      end
  | EvTimeout i o =>
      match filter (fun t => timeout_id t = i) (timeouts (env w)) with
      | t :: _ =>
          if due t w then
            Some (_connect o
                    (on_env (fun e =>
                       set_timeouts
                         (filter (fun t => timeout_id t <> i) (timeouts e)) e) w))
          else None
      | [] => None
      end
  | EvInterval i =>
      match filter (fun iv => interval_id iv = i) (intervals (env w)) with
      | iv :: _ => Some (tick (interval_kind iv) w)
      | [] => None
      end
  | EvSceneChanged sid =>
      if sub_sceneChanged (env w) then Some (on_sceneChanged sid w) else None
  | EvIsRecordingChanged v =>
      if sub_isRecordingChanged (env w) then
        Some (on_isRecordingChanged
                (on_inst (fun i => set_qweb (set_p_isRecording v <$> qweb i) i) w))
      else None
  | EvIsStreamingChanged v =>
      if sub_isStreamingChanged (env w) then
        Some (on_isStreamingChanged
                (on_inst (fun i => set_qweb (set_p_isStreaming v <$> qweb i) i) w))
      else None
  | EvScenes scenesArray =>
      match pending_getScenes (env w) with
      | S n => Some (_ingestScenes scenesArray
                       (on_env (set_pending_getScenes n) w))
      | O => None
      end
  | EvAction key =>
      match actions (env w) !! key with
      | Some d => Some (run_callback (action_callback d) w)
      | None => None
      end
  | EvElapse dt =>
      if 0 <=? dt then Some (on_env (fun e => set_now (now e + dt) e) w) else None
  end.

Fixpoint run (evs : list Event) (w : World) : option World :=
  match evs with
  | [] => Some w
  | ev :: rest =>
      match step ev w with
      | Some w' => run rest w'
      | None => None
      end
  end.

End Lifecycle.

(** The instance the constructor builds, in a host whose clock reads
    [t0], before [init]. *)
Definition constructed (t0 : Z) : World :=
  {| inst := {| ws := None; qweb := None;
                config := {| host := JStr "127.0.0.1"; port := Int 13376 |};
                scenes := ∅; currentSceneId := None;
                isRecording := false; isStreaming := false;
                recordStart := None; streamStart := None;
                recordTimer := None; streamTimer := None |};
     env := {| now := t0; next_timer := 0; intervals := []; timeouts := [];
               sockets := []; status := None; variables := ∅; variable_defs := [];
               actions := ∅; feedback_choices := []; presets := [];
               feedback_checks := 0; sub_sceneChanged := false;
               sub_isRecordingChanged := false; sub_isStreamingChanged := false;
               pending_getScenes := 0; remote_calls := []; log := [] |} |}.

(** The worlds a run can reach. *)
Definition reachable (S2N : string -> JsNumber) (O2N : nat -> JsNumber) (w : World) : Prop :=
  exists t0 evs, run S2N O2N evs (constructed t0) = Some w.

(** ** Vocabulary of the statements *)

(** The doubles among the [spec_float]s. *)
Definition is_double (d : Fmt.double) : Prop :=
  valid_binary Fmt.prec Fmt.emax d = true.

(** A finite number is below 2^53. *)
Definition below_2_53 (d : Fmt.double) : Prop :=
  Fmt.Number_isFinite d = true -> SFltb d (Fmt.number (2 ^ 53)) = true.

(** The whole seconds of [max(d, 0) / 1000], computed exactly from the
    mantissa and the exponent of [d]; zero for a negative number and
    for a number that is not finite. *)
Definition whole_seconds (d : Fmt.double) : Z :=
  match d with
  | S754_finite false m e =>
      match e with
      | Z.neg p => Z.pos m / (1000 * 2 ^ Z.pos p)
      | _ => Z.pos m * 2 ^ e / 1000
      end
  | _ => 0
  end.

(** Every character of a string passes a test. *)
Fixpoint all_chars (P : ascii -> bool) (s : string) : bool :=
  match s with
  | EmptyString => true
  | String c r => P c && all_chars P r
  end.

(** White space, an opening parenthesis, characters without a line
    break, a closing parenthesis, white space: what
    [\s*\(.*?\)\s*$] matches from a position to the end. *)
Definition group_to_end (t : string) : Prop :=
  exists sp1 body sp2,
    t = sp1 +:+ "(" +:+ body +:+ ")" +:+ sp2 /\
    all_chars Pattern.is_space sp1 = true /\
    all_chars (fun c => negb (Pattern.is_line_terminator c)) body = true /\
    all_chars Pattern.is_space sp2 = true.

(** The normalization as the specification words it, "strip one
    trailing parenthetical group and any preceding whitespace": a string
    that ends in a closing parenthesis loses the text from the last
    opening parenthesis on, and the white space in front of it. *)
Module Spec.

Fixpoint after_open (rev_s : string) : option string :=
  match rev_s with
  | EmptyString => None
  | String c r => if Ascii.eqb c "(" then Some r else after_open r
  end.

Fixpoint drop_spaces (s : string) : string :=
  match s with
  | EmptyString => EmptyString
  | String c r => if Pattern.is_space c then drop_spaces r else s
  end.

Definition strip_one_trailing_group (s : string) : string :=
  match String.rev s with
  | String c r =>
      if Ascii.eqb c ")" then
        match after_open r with
        | Some front => String.rev (drop_spaces front)
        | None => s
        end
      else s
  | EmptyString => s
  end.

End Spec.

(** The remote method names an action tries, in order. *)
Definition candidates (cb : Callback) : list string :=
  match cb with
  | CbShowScene _ => ["showScene"; "switchScene"]
  | CbToggleStream => ["toggleStream"; "toggleStreaming"]
  | CbStartStream => ["startStream"]
  | CbStopStream => ["stopStream"]
  | CbToggleRecord => ["toggleRecord"; "toggleRecording"]
  | CbStartRecord => ["startRecord"]
  | CbStopRecord => ["stopRecord"]
  end.

Definition arguments (cb : Callback) : list string :=
  match cb with
  | CbShowScene sid => [sid]
  | _ => []
  end.

(** The first of the names the bound proxy has as a method. *)
Definition first_available (p : option Proxy) (names : list string) : option string :=
  match p with
  | Some p => head (filter (fun n => n ∈ methods p) names)
  | None => None
  end.

(** The calls an action sends: one call of the first available
    candidate, none when there is no proxy or no candidate. *)
Definition calls_of (cb : Callback) (p : option Proxy) : list RemoteCall :=
  match first_available p (candidates cb) with
  | Some m => [{| call_method := m; call_args := arguments cb |}]
  | None => []
  end.

(** The local half of a record or stream action, as a state change
    notification: the state the action asks for, fed to the handler the
    remote signals use. *)
Definition local_entry (cb : Callback) (w : World) : World :=
  match cb with
  | CbShowScene _ => w
  | CbToggleStream => _onStreamingStateChange (negb (isStreaming (inst w))) w
  | CbStartStream => _onStreamingStateChange true w
  | CbStopStream => _onStreamingStateChange false w
  | CbToggleRecord => _onRecordingStateChange (negb (isRecording (inst w))) w
  | CbStartRecord => _onRecordingStateChange true w
  | CbStopRecord => _onRecordingStateChange false w
  end.

#[global] Instance TickKind_eq_dec : EqDecision TickKind.
Proof. solve_decision. Defined.

(** The tick sources of a kind that are active. *)
Definition ticking (k : TickKind) (w : World) : list Interval :=
  filter (fun iv => interval_kind iv = k) (intervals (env w)).

(** Every active interval is the one a timer field of the instance
    refers to. *)
Definition owner (k : TickKind) (w : World) : option nat :=
  match k with
  | RecordTick => recordTimer (inst w)
  | StreamTick => streamTimer (inst w)
  end.

Definition ticks_owned (w : World) : Prop :=
  Forall (fun iv => owner (interval_kind iv) w = Some (interval_id iv))
         (intervals (env w)).

#[global] Instance ticks_owned_dec (w : World) : Decision (ticks_owned w).
Proof. unfold ticks_owned. apply _. Defined.

(** What [ticks_owned] looks at. *)
Definition tick_view (w : World) : list Interval * option nat * option nat :=
  (intervals (env w), recordTimer (inst w), streamTimer (inst w)).

(** Time passing with nothing else happening. *)
Definition elapse (dt : Z) : World -> World :=
  on_env (fun e => set_now (now e + dt) e).

Definition start_of (k : TickKind) (w : World) : option Z :=
  match k with
  | RecordTick => recordStart (inst w)
  | StreamTick => streamStart (inst w)
  end.

Definition start (k : TickKind) : World -> World :=
  match k with
  | RecordTick => _startRecording
  | StreamTick => _startStreaming
  end.

Definition stop (k : TickKind) : World -> World :=
  match k with
  | RecordTick => _stopRecording
  | StreamTick => _stopStreaming
  end.

Definition stopTimer (k : TickKind) : World -> World :=
  match k with
  | RecordTick => _stopRecordTimer
  | StreamTick => _stopStreamTimer
  end.

Definition active (k : TickKind) (w : World) : bool :=
  match k with
  | RecordTick => isRecording (inst w)
  | StreamTick => isStreaming (inst w)
  end.

Definition onStateChange (k : TickKind) : bool -> World -> World :=
  match k with
  | RecordTick => _onRecordingStateChange
  | StreamTick => _onStreamingStateChange
  end.

Definition start_action (k : TickKind) : Callback :=
  match k with
  | RecordTick => CbStartRecord
  | StreamTick => CbStartStream
  end.

(** Conversions for concrete runs: [Number(s)] on the empty string and
    on strings of decimal digits, [NaN] on the other strings met here,
    and [NaN] on plain objects. *)
Definition StringToNumber_digits (s : string) : JsNumber :=
  match s with
  | EmptyString => Int 0
  | _ => match Fmt.decimal_value s with
         | Some z => Int z
         | None => NaN
         end
  end.

Definition ObjectToNumber_plain (h : nat) : JsNumber := NaN.

(** A run with these conversions, from the constructor on; the world
    before [init] when an event of the run cannot happen. *)
Definition run_from (t0 : Z) (evs : list Event) : World :=
  default (constructed t0)
          (run StringToNumber_digits ObjectToNumber_plain evs (constructed t0)).

(** A proxy with the given methods and recording state, all three
    signals and no session. *)
Definition proxy_with (ms : list string) (recording : JsValue) : Proxy :=
  {| methods := list_to_set ms;
     p_isRecording := recording; p_isStreaming := JBool false;
     sig_sceneChanged := true; sig_isRecordingChanged := true;
     sig_isStreamingChanged := true; session_items := None |}.

(** Closes a conjunction of closed equations by evaluation. *)
Ltac by_evaluation :=
  intros;
  repeat match goal with |- _ /\ _ => split end;
  vm_compute; reflexivity.

(** ** Scenarios

    Concrete runs, with a clock that reads 1000 when the instance is
    constructed. *)

(** The remote side is already recording at bind time; five seconds
    pass and the tick publishes them. *)
Definition recording_run : list Event :=
  [ EvInit None Built; EvOpen 0 Built;
    EvChannel 0 (Some (proxy_with ["toggleRecord"] (JBool true)));
    EvElapse 5000; EvInterval 0 ].

Definition recording_world : World := run_from 1000 recording_run.

(** A socket that has opened and waits for its channel. *)
Definition open_world : World := run_from 1000 [EvInit None Built; EvOpen 0 Built].

(** The server goes away, the user saves the configuration one second
    later, and the new socket fails to connect. *)
Definition two_closes_run : list Event :=
  [ EvInit None Built; EvOpen 0 Built;
    EvChannel 0 (Some (proxy_with ["toggleRecord"] (JBool false)));
    EvClose 0;
    EvElapse 1000;
    EvConfigUpdated None Built;
    EvError 1 (Some "connect ECONNREFUSED");
    EvClose 1 ].

Definition two_closes_world : World := run_from 1000 two_closes_run.

(** A bound connection whose proxy has [toggleRecord]; then the socket
    closes, or the module is torn down, and the user presses the toggle
    button. *)
Definition bound_run : list Event :=
  [ EvInit None Built; EvOpen 0 Built;
    EvChannel 0 (Some (proxy_with ["toggleRecord"] (JBool false))) ].

Definition bound_world : World := run_from 1000 bound_run.

Definition closed_world : World := run_from 1000 (bound_run ++ [EvClose 0]).

Definition torn_down_world : World := run_from 1000 (bound_run ++ [EvDestroy]).

Definition pressed_after_close_run : list Event :=
  bound_run ++ [EvClose 0; EvAction "toggle_record"].

Definition pressed_after_destroy_run : list Event :=
  bound_run ++ [EvDestroy; EvAction "toggle_record"].

(** A first connection discovers scene [A] through [getScenes]; the
    socket closes, the reconnect fires, and the proxy of the second
    connection has no way to list scenes. *)
Definition rediscovery_run : list Event :=
  [ EvInit None Built; EvOpen 0 Built;
    EvChannel 0 (Some (proxy_with ["getScenes"] (JBool false)));
    EvScenes (Some [{| raw_id := "A"; raw_name := Some "Cam (Live)" |}]);
    EvClose 0; EvElapse 3000; EvTimeout 0 Built; EvOpen 1 Built;
    EvChannel 1 (Some (proxy_with [] (JBool false))) ].

Definition rediscovery_world : World := run_from 1000 rediscovery_run.

(** A recording started at 1000, looked at four seconds later. *)
Definition started_once : World := elapse 4000 (_startRecording (constructed 1000)).

(** A proxy that has the longer names only for start and stop. *)
Definition long_names_world : World :=
  on_inst (set_qweb (Some (proxy_with ["startRecording"; "stopRecording"; "toggleRecord"]
                                      (JBool false))))
          (constructed 1000).

(** A configuration whose host is a number. *)
Definition numeric_host : option ConfigInput :=
  Some {| in_host := JNum (Int 42); in_port := JStr "abc" |}.

(** Two scenes arrive: one whose name has two groups, one without a
    name whose identifier ends in a group. *)
Definition two_names_world : World :=
  _ingestScenes (Some [ {| raw_id := "7"; raw_name := Some "Cam (A) (B)" |};
                        {| raw_id := "s1 (x)"; raw_name := None |} ])
                (constructed 1000).

(** A scene whose identifier is ["__proto__"] arrives. *)
Definition proto_scene_world : World :=
  _ingestScenes (Some [ {| raw_id := "__proto__"; raw_name := Some "Cam" |} ])
                (constructed 1000).

(** ** Further vocabulary *)

(** The variable a timer kind publishes. *)
Definition timecode (k : TickKind) : string :=
  match k with
  | RecordTick => "recording_timecode"
  | StreamTick => "streaming_timecode"
  end.

(** What the timer invariant looks at: the intervals, the two timer
    fields and the two flags. *)
Definition timer_view (w : World)
  : list Interval * option nat * option nat * bool * bool :=
  (intervals (env w), recordTimer (inst w), streamTimer (inst w),
   isRecording (inst w), isStreaming (inst w)).

(** The timers are tidy: every interval is the one its timer field
    refers to, ticks every second, there is at most one per kind, and a
    kind that is not active has none. *)
Definition timers_tidy (w : World) : Prop :=
  ticks_owned w /\
  Forall (fun iv => interval_period iv = 1000) (intervals (env w)) /\
  forall k, (length (ticking k w) <= 1)%nat /\ (active k w = false -> owner k w = None).

(** Reading a timecode back: the text up to the first colon, and the
    whole seconds an [H:M:S] text denotes. *)
Fixpoint split_at_colon (s : string) : option (string * string) :=
  match s with
  | EmptyString => None
  | String c r =>
      if Ascii.eqb c ":" then Some (EmptyString, r)
      else match split_at_colon r with
           | Some (a, b) => Some (String c a, b)
           | None => None
           end
  end.

Definition read_hms (s : string) : option Z :=
  match split_at_colon s with
  | Some (H, r) =>
      match split_at_colon r with
      | Some (M, sec) =>
          match Fmt.decimal_value H, Fmt.decimal_value M, Fmt.decimal_value sec with
          | Some h, Some m, Some s => Some (3600 * h + 60 * m + s)
          | _, _, _ => None
          end
      | None => None
      end
  | None => None
  end.

(** A string has no opening parenthesis. *)
Definition no_open_paren (s : string) : bool :=
  all_chars (fun c => negb (Ascii.eqb c "(")) s.

(** The last character of a string. *)
Fixpoint last_char (s : string) : option ascii :=
  match s with
  | EmptyString => None
  | String c EmptyString => Some c
  | String _ r => last_char r
  end.

(** The action definition [_defineActions] writes under a name of the
    loop, and the preset [_definePresets] writes for it. *)
Definition scene_action (sid : string) (nm : option string) : ActionDef :=
  {| action_name := "Show Scene: " +:+ template_text nm;
     action_callback := CbShowScene sid |}.

Definition scene_preset (sid : string) (nm : option string) : Preset :=
  {| preset_category := "Scenes";
     preset_name := "Scene: " +:+ template_text nm;
     preset_text := nm;
     preset_action := "show_scene_" +:+ sid;
     preset_feedback_scene := Some sid |}.

(** A socket that is connecting or open. *)
Definition live (s : Socket) : bool :=
  match sock_state s with
  | CONNECTING | OPEN => true
  | CLOSING | CLOSED => false
  end.

(** The first lines of [_connect], which are also the last lines of
    [destroy]: close the socket the instance has, and forget it. *)
Definition drop_socket (w : World) : World :=
  match ws (inst w) with
  | Some k => on_inst (set_ws None) (socket_close k w)
  | None => w
  end.

(** What the connection invariant looks at. *)
Definition net_view (w : World) : option nat * list Socket * list Timeout * Z :=
  (ws (inst w), sockets (env w), timeouts (env w), Date_now w).

(** The connection is tidy: the only socket that may be connecting or
    open is the one the instance refers to, which exists; and every
    pending reconnect was scheduled, at a time that has come, to run
    3000 ms later. *)
Definition net_tidy (w : World) : Prop :=
  (forall k s, sockets (env w) !! k = Some s -> live s = true -> ws (inst w) = Some k) /\
  (forall k, ws (inst w) = Some k -> (k < length (sockets (env w)))%nat) /\
  Forall (fun t => timeout_delay t = 3000 /\ timeout_set_at t <= Date_now w)
         (timeouts (env w)).

(** The callback of the [scene_active] feedback,
    [this.currentSceneId && fb.options?.scene === this.currentSceneId],
    as the host reads it: a missing or empty current scene is falsy. *)
Definition scene_active (option_scene : option string) (w : World) : bool :=
  match currentSceneId (inst w) with
  | Some current =>
      if String.eqb current "" then false
      else bool_decide (option_scene = Some current)
  | None => false
  end.

(** What the handle invariant looks at. *)
Definition handle_view (w : World) : list Interval * option nat * option nat * nat :=
  (intervals (env w), recordTimer (inst w), streamTimer (inst w), next_timer (env w)).

(** The handles are fresh: every interval and every timer field holds a
    handle that was given out, and the two timer fields never hold the
    same one. *)
Definition handles_fresh (w : World) : Prop :=
  Forall (fun iv => (interval_id iv < next_timer (env w))%nat) (intervals (env w)) /\
  (forall k i, owner k w = Some i -> (i < next_timer (env w))%nat) /\
  (forall i, recordTimer (inst w) = Some i -> streamTimer (inst w) <> Some i).

(** ** The transport between the socket and the channel

    [makeWebChannelTransport] in an exception monad over what the
    transport can touch: the frames written to the socket, the messages
    handed to the channel, and the log. *)

Module Transport.

Inductive TransportMessage : Type :=
| MsgSendFailed (e : option string)
| MsgOnMessageFailed (e : option string).

Record State : Type := {
  wire : list string;                 (* frames written to the socket *)
  delivered : list string;            (* messages handed to the channel *)
  tlog : list (Level * TransportMessage);
}.

(** A computation returns a value or throws; the state it has reached
    stays either way. *)
Inductive Result (A : Type) : Type :=
| Returns (a : A)
| Raises (e : option string).
Arguments Returns {A} a.
Arguments Raises {A} e.

Definition M (A : Type) : Type := State -> Result A * State.

Definition ret {A} (a : A) : M A := fun s => (Returns a, s).

Definition raise {A} (e : option string) : M A := fun s => (Raises e, s).

Definition bind {A B} (m : M A) (f : A -> M B) : M B :=
  fun s => match m s with
           | (Returns a, s') => f a s'
           | (Raises e, s') => (Raises e, s')
           end.

(** [try { body } catch (e) { handler(e) }] *)
Definition try_catch {A} (body : M A) (handler : option string -> M A) : M A :=
  fun s => match body s with
           | (Returns a, s') => (Returns a, s')
           | (Raises e, s') => handler e s'
           end.

(** Data offered to [send], or arriving from the socket: a string, or
    something else together with what [JSON.stringify] (for [send]) or
    [toString] (for a message) makes of it, which may throw. *)
Inductive Payload : Type :=
| Text (s : string)
| Other (converted : Result string).

(** [typeof data === 'string' ? data : convert(data)] *)
Definition to_text (data : Payload) : M string :=
  match data with
  | Text s => ret s
  | Other (Returns s) => ret s
  | Other (Raises e) => raise e
  end.

(** [ws.send(text)]: the socket decides whether the write throws. *)
Definition ws_send (outcome : Construction) (text : string) : M unit :=
  fun s =>
    match outcome with
    | Built => (Returns tt, {| wire := wire s ++ [text]; delivered := delivered s;
                               tlog := tlog s |})
    | Throws e => (Raises e, s)
    end.

(** [log?.('error', ...)]: nothing without a logger. *)
Definition log_error (logger : bool) (m : TransportMessage) : M unit :=
  fun s =>
    (Returns tt,
     if logger then {| wire := wire s; delivered := delivered s;
                       tlog := tlog s ++ [(error, m)] |}
     else s).

(** [transport.send] *)
Definition send (logger : bool) (outcome : Construction) (data : Payload) : M unit :=
  try_catch (bind (to_text data) (ws_send outcome))
            (fun e => log_error logger (MsgSendFailed e)).

(** The channel's handler in [transport.onmessage]: it is handed the
    text and may throw. *)
Definition deliver (handler_outcome : string -> Construction) (text : string) : M unit :=
  fun s =>
    let s' := {| wire := wire s; delivered := delivered s ++ [text]; tlog := tlog s |} in
    match handler_outcome text with
    | Built => (Returns tt, s')
    | Throws e => (Raises e, s')
    end.

(** The listener [ws.on('message', ...)]; [handler] is [None] while
    [transport.onmessage] is not a function. *)
Definition on_message (logger : bool) (handler : option (string -> Construction))
           (data : Payload) : M unit :=
  try_catch
    (bind (to_text data)
          (fun text =>
             match handler with
             | Some h => deliver h text
             | None => ret tt
             end))
    (fun e => log_error logger (MsgOnMessageFailed e)).

End Transport.

(** ** Further scenarios *)

(** A bound proxy without [getScenes] whose session holds a scene with
    a name, a scene without one, and a layer. *)
Definition session_proxy : Proxy :=
  {| methods := ∅;
     p_isRecording := JBool false; p_isStreaming := JBool false;
     sig_sceneChanged := true; sig_isRecordingChanged := true;
     sig_isStreamingChanged := true;
     session_items :=
       Some [ ("1", {| item_type := Some "scene"; item_name := Some "Cam (Live)" |});
              ("2", {| item_type := Some "scene"; item_name := None |});
              ("3", {| item_type := Some "layer"; item_name := Some "Logo" |}) ] |}.

Definition session_world : World :=
  on_inst (set_qweb (Some session_proxy)) (constructed 1000).


(** The instance right after [init]: its first socket is connecting. *)
Definition connecting_world : World := run_from 1000 [EvInit None Built].

(** ** The state a bind reconciles *)

(** [meld.isRecording] and [meld.isStreaming] as the channel callback
    reads them; nothing when the channel has no [meld] object. *)
Definition reported (k : TickKind) (meld : option Proxy) : option JsValue :=
  match k with
  | RecordTick => p_isRecording <$> meld
  | StreamTick => p_isStreaming <$> meld
  end.

(** All there is to the timer of one kind: its flag, its start
    timestamp, its timer field, its tick sources and the value
    published under its variable. *)
Definition kind_view (k : TickKind) (w : World)
  : bool * option Z * option nat * list Interval * option string :=
  (active k w, start_of k w, owner k w, ticking k w,
   variables (env w) !! timecode k).

(** The socket closes five seconds into a recording; three seconds
    later the instance reconnects, and the new socket opens. *)
Definition reopened_run : list Event :=
  recording_run ++ [EvClose 0; EvElapse 3000; EvTimeout 1 Built; EvOpen 1 Built].

Definition reopened_world : World := run_from 1000 reopened_run.

(** The remote side never stopped recording. *)
Definition still_recording : option Proxy :=
  Some (proxy_with ["toggleRecord"] (JBool true)).

Definition rebound_world : World :=
  run_from 1000 (reopened_run ++ [EvChannel 1 still_recording]).

(** * Properties *)

(** ** Division of doubles

    What [formatHMS] needs of the division: the integer part of a
    rounded quotient.  The lemmas follow [SFdiv] through
    [SFdiv_core_binary] and [binary_round_aux]. *)

Module Ieee.
Import Fmt.

Lemma digits2_pos_bounds (p : positive) :
  2 ^ (Z.pos (digits2_pos p) - 1) <= Z.pos p < 2 ^ Z.pos (digits2_pos p).
Proof.
  induction p as [p IH | p IH |]; cbn [digits2_pos].
  - rewrite Pos2Z.inj_succ, Z.pow_succ_r by lia.
    replace (Z.succ (Z.pos (digits2_pos p)) - 1) with (Z.succ (Z.pos (digits2_pos p) - 1)) by lia.
    rewrite Z.pow_succ_r by lia. lia.
  - rewrite Pos2Z.inj_succ, Z.pow_succ_r by lia.
    replace (Z.succ (Z.pos (digits2_pos p)) - 1) with (Z.succ (Z.pos (digits2_pos p) - 1)) by lia.
    rewrite Z.pow_succ_r by lia. lia.
  - cbn. lia.
Qed.

(** The number of binary digits is determined by the bounds. *)
Lemma digits2_pos_unique (p : positive) (d : Z) :
  2 ^ (d - 1) <= Z.pos p < 2 ^ d -> Z.pos (digits2_pos p) = d.
Proof.
  intros [Hlo Hhi]. pose proof (digits2_pos_bounds p) as [Hlo' Hhi'].
  assert (0 < d) as Hd.
  { destruct (Z_lt_dec 0 d) as [|Hn]; [assumption|].
    assert (2 ^ d <= 1); [|lia].
    destruct (Z.eq_dec d 0) as [->|]; [cbn; lia|].
    rewrite Z.pow_neg_r by lia. lia. }
  destruct (Z_lt_dec (Z.pos (digits2_pos p)) d) as [Hlt|Hge].
  - assert (2 ^ Z.pos (digits2_pos p) <= 2 ^ (d - 1)) by (apply Z.pow_le_mono_r; lia). lia.
  - destruct (Z_lt_dec d (Z.pos (digits2_pos p))) as [Hgt|]; [|lia].
    assert (2 ^ d <= 2 ^ (Z.pos (digits2_pos p) - 1)) by (apply Z.pow_le_mono_r; lia). lia.
Qed.

Lemma fexp_normal (e : Z) : -1021 <= e -> fexp prec emax e = e - 53.
Proof. intros H. unfold fexp, emin, prec, emax. lia. Qed.

Lemma shr_fexp_canonical (m e : Z) (l : location) :
  fexp prec emax (Zdigits2 m + e) = e ->
  shr_fexp prec emax m e l = (shr_record_of_loc m l, e).
Proof. intros H. unfold shr_fexp. rewrite H, Z.sub_diag. reflexivity. Qed.

Lemma loc_of_record (m : Z) (l : location) :
  loc_of_shr_record (shr_record_of_loc m l) = l.
Proof. destruct l as [|[]]; reflexivity. Qed.

Lemma shr_m_record (m : Z) (l : location) : shr_m (shr_record_of_loc m l) = m.
Proof. destruct l as [|[]]; reflexivity. Qed.

(** A canonical mantissa that is given exactly is kept as it is. *)
Lemma binary_round_aux_exact (m : positive) (e : Z) :
  fexp prec emax (Z.pos (digits2_pos m) + e) = e ->
  e <= emax - prec ->
  binary_round_aux prec emax false (Z.pos m) e loc_Exact = S754_finite false m e.
Proof.
  intros Hc He. unfold binary_round_aux.
  rewrite shr_fexp_canonical by exact Hc.
  rewrite loc_of_record, shr_m_record. cbn [round_nearest_even].
  rewrite shr_fexp_canonical by exact Hc.
  rewrite shr_m_record.
  destruct (Z.leb_spec e (emax - prec)); [reflexivity | lia].
Qed.

Lemma iter_xO (p : positive) (k : positive) :
  Z.pos (Pos.iter xO p k) = Z.pos p * 2 ^ Z.pos k.
Proof.
  induction k as [|k IH] using Pos.peano_ind.
  - cbn. lia.
  - rewrite Pos.iter_succ, Pos2Z.inj_xO, IH, Pos2Z.inj_succ, Z.pow_succ_r by lia. lia.
Qed.

Lemma number_small (z : Z) :
  0 < z < 2 ^ 53 ->
  exists (m : positive) (a : Z),
    number z = S754_finite false m (- a) /\ 0 <= a <= 52 /\
    Z.pos m = z * 2 ^ a /\ Z.pos (digits2_pos m) = 53.
Proof.
  intros [Hpos Hlt]. destruct z as [|p|p]; try lia.
  pose proof (digits2_pos_bounds p) as [Hlo Hhi].
  assert (Hd : 1 <= Z.pos (digits2_pos p) <= 53).
  { split; [lia|]. destruct (Z_le_dec (Z.pos (digits2_pos p)) 53); [assumption|].
    assert (2 ^ 53 <= 2 ^ (Z.pos (digits2_pos p) - 1)) by (apply Z.pow_le_mono_r; lia). lia. }
  unfold number, binary_normalize, binary_round, shl_align.
  rewrite Z.add_0_r, fexp_normal, Z.sub_0_r by lia.
  destruct (Z.pos (digits2_pos p) - 53) as [|k|k] eqn:Ek; try lia.
  - exists p, 0. rewrite binary_round_aux_exact.
    + repeat split; try lia. 
    + rewrite Z.add_0_r, fexp_normal; lia.
    + unfold emax, prec. lia.
  - assert (Hdig : Z.pos (digits2_pos (Pos.iter xO p k)) = 53).
    { apply digits2_pos_unique. rewrite iter_xO.
      replace 53 with (Z.pos (digits2_pos p) + Z.pos k) by lia.
      replace (Z.pos (digits2_pos p) + Z.pos k - 1)
        with ((Z.pos (digits2_pos p) - 1) + Z.pos k) by lia.
      rewrite !Z.pow_add_r by lia.
      assert (0 < 2 ^ Z.pos k) by (apply Z.pow_pos_nonneg; lia). nia. }
    exists (Pos.iter xO p k), (Z.pos k). rewrite binary_round_aux_exact.
    + repeat split; try lia. apply iter_xO.
    + rewrite Hdig, fexp_normal; lia.
    + unfold emax, prec. lia.
Qed.

Lemma Math_floor_neg (m : positive) (e : Z) :
  e < 0 -> Math_floor (S754_finite false m e) = Int (Z.pos m / 2 ^ (- e)).
Proof. intros He. destruct e as [|p|p]; try lia. reflexivity. Qed.

Lemma div_core_normal (mx my : positive) (ex ey : Z) :
  Z.pos (digits2_pos mx) = 53 -> Z.pos (digits2_pos my) = 53 ->
  -1021 <= ex - ey ->
  SFdiv_core_binary prec emax (Z.pos mx) ex (Z.pos my) ey
  = (Z.pos mx * 2 ^ 53 / Z.pos my, ex - ey - 53,
     new_location (Z.pos my) ((Z.pos mx * 2 ^ 53) mod Z.pos my)).
Proof.
  intros Hx Hy He. unfold SFdiv_core_binary. cbn [Zdigits2]. rewrite Hx, Hy.
  replace (53 + ex - (53 + ey)) with (ex - ey) by lia.
  rewrite fexp_normal by lia. rewrite Z.min_l by lia.
  replace (ex - ey - (ex - ey - 53)) with 53 by lia.
  rewrite Z.shiftl_mul_pow2 by lia.
  unfold Z.div, Z.modulo.
  destruct (Z.div_eucl (Z.pos mx * 2 ^ 53) (Z.pos my)) as [q r]. reflexivity.
Qed.

Lemma round_finish (m1 E : Z) :
  2 ^ 52 <= m1 <= 2 ^ 53 -> -1074 <= E <= -2 ->
  Math_floor
    (let '(mrs, e) := shr_fexp prec emax m1 E loc_Exact in
     match shr_m mrs with
     | Z0 => S754_zero false
     | Z.pos m => if e <=? emax - prec then S754_finite false m e else S754_infinity false
     | Z.neg _ => S754_nan
     end) = Int (m1 / 2 ^ (- E)).
Proof.
  intros Hm HE. destruct (Z.eq_dec m1 (2 ^ 53)) as [->|Hne].
  - unfold shr_fexp. change (Zdigits2 (2 ^ 53)) with 54.
    replace (fexp prec emax (54 + E) - E) with 1 by (unfold fexp, emin, prec, emax; lia).
    cbn [shr shr_record_of_loc SpecFloat.iter_pos]. 
    change (shr_1 {| shr_m := 2 ^ 53; shr_r := false; shr_s := false |})
      with {| shr_m := 2 ^ 52; shr_r := false; shr_s := false |}.
    cbn [shr_m]. change (2 ^ 52) with (Z.pos 4503599627370496) at 1.
    cbv iota beta.
    destruct (Z.leb_spec (E + 1) (emax - prec)) as [_|Hbad]; [|unfold emax, prec in Hbad; lia].
    rewrite Math_floor_neg by lia. f_equal.
    change (Z.pos 4503599627370496) with (2 ^ 52).
    replace (- E) with (Z.succ (- (E + 1))) by lia.
    rewrite Z.pow_succ_r by lia.
    change (2 ^ 53) with (2 * 2 ^ 52).
    rewrite Z.div_mul_cancel_l; [reflexivity| |lia].
    apply Z.pow_nonzero; lia.
  - destruct m1 as [|p|p]; try lia.
    assert (Hdig : Z.pos (digits2_pos p) = 53) by (apply digits2_pos_unique; lia).
    rewrite shr_fexp_canonical.
    + rewrite shr_m_record.
      destruct (Z.leb_spec E (emax - prec)) as [_|Hbad]; [|unfold emax, prec in Hbad; lia].
      apply Math_floor_neg. lia.
    + cbn [Zdigits2]. rewrite Hdig. unfold fexp, emin, prec, emax. lia.
Qed.

Lemma round_nearest_even_cases (m : Z) (l : location) :
  round_nearest_even m l = m \/
  (round_nearest_even m l = m + 1 /\ (l = loc_Inexact Eq \/ l = loc_Inexact Gt)).
Proof.
  destruct l as [|[]]; cbn [round_nearest_even]; auto.
  destruct (Z.even m); auto.
Qed.

Lemma round_aux_normal (q e : Z) (l : location) :
  2 ^ 52 <= q < 2 ^ 54 -> -1074 <= e <= -3 ->
  exists n1 m1 : Z,
    (n1 = 0 \/ n1 = 1) /\
    (m1 = q / 2 ^ n1 \/
     (m1 = q / 2 ^ n1 + 1 /\
      ((n1 = 0 /\ (l = loc_Inexact Eq \/ l = loc_Inexact Gt))
       \/ (n1 = 1 /\ Z.odd q = true)))) /\
    Math_floor (binary_round_aux prec emax false q e l) = Int (m1 / 2 ^ (- (e + n1))).
Proof.
  intros Hq He. destruct q as [|p|p]; try lia.
  destruct (Z_lt_dec (Z.pos p) (2 ^ 53)) as [Hlt|Hge].
  - assert (Hdig : Z.pos (digits2_pos p) = 53) by (apply digits2_pos_unique; lia).
    exists 0, (round_nearest_even (Z.pos p) l).
    split; [now left|]. rewrite Z.pow_0_r, Z.div_1_r, Z.add_0_r.
    split.
    { destruct (round_nearest_even_cases (Z.pos p) l) as [H|[H Hl]]; [now left|].
      right. split; [exact H|]. left. now split. }
    unfold binary_round_aux. rewrite shr_fexp_canonical.
    + rewrite shr_m_record, loc_of_record. apply round_finish; [|lia].
      destruct (round_nearest_even_cases (Z.pos p) l) as [->|[-> _]]; lia.
    + cbn [Zdigits2]. rewrite Hdig. unfold fexp, emin, prec, emax. lia.
  - assert (Hdig : Z.pos (digits2_pos p) = 54) by (apply digits2_pos_unique; lia).
    assert (Hshift : forall (r s : bool),
               shr_fexp prec emax (Z.pos p) e
                 (loc_of_shr_record {| shr_m := Z.pos p; shr_r := r; shr_s := s |})
               = (shr_1 {| shr_m := Z.pos p; shr_r := r; shr_s := s |}, e + 1)).
    { intros r s. unfold shr_fexp. cbn [Zdigits2]. rewrite Hdig.
      replace (fexp prec emax (54 + e) - e) with 1 by (unfold fexp, emin, prec, emax; lia).
      cbn [shr SpecFloat.iter_pos]. destruct r, s; reflexivity. }
    assert (Hl : exists r s, l = loc_of_shr_record {| shr_m := Z.pos p; shr_r := r; shr_s := s |}).
    { destruct l as [|[]]; [exists false, false|exists true, false|exists false, true
                              |exists true, true]; reflexivity. }
    destruct Hl as (r & s & ->).
    set (half := Z.pos p / 2).
    assert (Hhalf : 2 ^ 52 <= half < 2 ^ 53).
    { unfold half. split.
      - apply Z.div_le_lower_bound; lia.
      - apply Z.div_lt_upper_bound; lia. }
    assert (Hrec : exists r' s',
               shr_1 {| shr_m := Z.pos p; shr_r := r; shr_s := s |}
               = {| shr_m := half; shr_r := r'; shr_s := s' |}
               /\ (r' = true -> Z.odd (Z.pos p) = true)).
    { unfold half. destruct p as [p'|p'|]; [| |lia].
      - exists true, (r || s)%bool. split; [|reflexivity]. cbn [shr_1]. f_equal.
        apply (Z.div_unique _ _ _ 1); lia.
      - exists false, (r || s)%bool. split; [|discriminate]. cbn [shr_1]. f_equal.
        apply (Z.div_unique _ _ _ 0); lia. }
    destruct Hrec as (r' & s' & Hrec & Hodd).
    exists 1, (round_nearest_even half (loc_of_shr_record
                                          {| shr_m := half; shr_r := r'; shr_s := s' |})).
    split; [now right|]. change (2 ^ 1) with 2. fold half.
    split.
    { destruct (round_nearest_even_cases half
                  (loc_of_shr_record {| shr_m := half; shr_r := r'; shr_s := s' |}))
        as [H|[H Hloc]]; [now left|].
      right. split; [exact H|]. right. split; [reflexivity|]. apply Hodd.
      destruct r'; [reflexivity|]. destruct s'; cbn in Hloc; destruct Hloc; discriminate. }
    unfold binary_round_aux. rewrite Hshift, Hrec. cbn [shr_m].
    apply round_finish; [|lia].
    destruct (round_nearest_even_cases half
                (loc_of_shr_record {| shr_m := half; shr_r := r'; shr_s := s' |}))
      as [->|[-> _]]; lia.
Qed.

Lemma new_location_half (d r : Z) :
  new_location d r = loc_Inexact Eq \/ new_location d r = loc_Inexact Gt -> d <= 2 * r.
Proof.
  unfold new_location, new_location_even, new_location_odd.
  destruct (Z.even d); destruct (Z.eqb_spec r 0) as [->|Hr];
    try (intros [E|E]; discriminate).
  - destruct (Z.compare_spec (2 * r) d); intros [E|E]; try discriminate; lia.
  - destruct (Z.compare_spec (2 * r + 1) d); intros [E|E]; try discriminate; lia.
Qed.

(** Dividing a double below 2^53 that is at least 1 by an integer
    constant: rounding the quotient to the nearest double never reaches
    the next integer, so its integer part is the integer part of the
    exact quotient. *)
Lemma div_floor_normal (mx my : positive) (a t C : Z) :
  Z.pos (digits2_pos mx) = 53 -> Z.pos (digits2_pos my) = 53 ->
  0 <= a <= 52 -> 0 <= t <= 50 -> Z.pos my = C * 2 ^ t ->
  Math_floor (div (S754_finite false mx (- a)) (S754_finite false my (- t)))
  = Int (Z.pos mx / (C * 2 ^ a)).
Proof.
  intros Hx Hy Ha Ht HC.
  pose proof (digits2_pos_bounds mx) as Bx. rewrite Hx in Bx.
  pose proof (digits2_pos_bounds my) as By. rewrite Hy in By.
  change (2 ^ (53 - 1)) with (2 ^ 52) in Bx, By.
  unfold div, SFdiv. rewrite div_core_normal by lia. cbn [xorb].
  set (N := Z.pos mx * 2 ^ 53).
  set (q := N / Z.pos my). set (r := N mod Z.pos my).
  assert (Hq : 2 ^ 52 <= q < 2 ^ 54).
  { unfold q, N. split; [apply Z.div_le_lower_bound | apply Z.div_lt_upper_bound]; lia. }
  destruct (round_aux_normal q (- a - - t - 53) (new_location (Z.pos my) r) Hq ltac:(lia))
    as (n1 & m1 & Hn1 & Hm1 & ->).
  f_equal.
  set (j := - (- a - - t - 53 + n1)).
  assert (Hj : j = a + 53 - t - n1) by (unfold j; lia).
  assert (Hj2 : 2 <= j) by lia.
  assert (HA : 0 < 2 ^ a) by (apply Z.pow_pos_nonneg; lia).
  assert (HT : 0 < 2 ^ t) by (apply Z.pow_pos_nonneg; lia).
  assert (HJ : 0 < 2 ^ j) by (apply Z.pow_pos_nonneg; lia).
  assert (HN1 : 0 < 2 ^ n1) by (apply Z.pow_pos_nonneg; lia).
  assert (HCpos : 0 < C) by nia.
  assert (Hexp : 2 ^ t * (2 ^ n1 * 2 ^ j) = 2 ^ a * 2 ^ 53).
  { rewrite <- !Z.pow_add_r by lia. f_equal. lia. }
  assert (HW : Z.pos my * (2 ^ n1 * 2 ^ j) = C * 2 ^ a * 2 ^ 53).
  { rewrite HC, <- !Z.mul_assoc, Hexp. reflexivity. }
  assert (Hbase : q / 2 ^ n1 / 2 ^ j = Z.pos mx / (C * 2 ^ a)).
  { rewrite Z.div_div by lia. unfold q. rewrite Z.div_div by lia.
    rewrite HW. unfold N. apply Z.div_mul_cancel_r; lia. }
  destruct Hm1 as [->|[-> Hup]]; [exact Hbase|].
  rewrite <- Hbase.
  set (ma := q / 2 ^ n1) in *.
  set (F := ma / 2 ^ j) in *.
  pose proof (Z.div_mod ma (2 ^ j) ltac:(lia)) as Hdm. fold F in Hdm.
  pose proof (Z.mod_pos_bound ma (2 ^ j) HJ) as Hmod.
  symmetry. apply (Z.div_unique _ _ _ (ma mod 2 ^ j + 1)); [|lia].
  left. split; [lia|].
  destruct (Z_lt_dec (ma mod 2 ^ j + 1) (2 ^ j)) as [|Hfull]; [assumption | exfalso].
  assert (Hma : ma + 1 = (F + 1) * 2 ^ j) by lia.
  (* rounding up happens from the half on *)
  assert (Hhalf : (2 * ma + 1) * (Z.pos my * 2 ^ n1) <= 2 * N).
  { pose proof (Z.div_mod N (Z.pos my) ltac:(lia)) as HNdm. fold q r in HNdm.
    pose proof (Z.mod_pos_bound N (Z.pos my) ltac:(lia)) as Hr. fold r in Hr.
    destruct Hup as [[-> Hl]|[-> Hodd]].
    - apply new_location_half in Hl. unfold ma. rewrite Z.pow_0_r, Z.div_1_r. nia.
    - change (2 ^ 1) with 2 in *. apply Z.odd_spec in Hodd. destruct Hodd as [h Hh].
      assert (ma = h) by (unfold ma; rewrite Hh; symmetry; apply (Z.div_unique _ _ _ 1); lia).
      nia. }
  (* the exact quotient stays below the next integer by a full unit of the dividend *)
  assert (HF : Z.pos mx < (F + 1) * (C * 2 ^ a)).
  { rewrite Hbase.
    pose proof (Z.div_mod (Z.pos mx) (C * 2 ^ a) ltac:(nia)) as Hd.
    pose proof (Z.mod_pos_bound (Z.pos mx) (C * 2 ^ a) ltac:(nia)). nia. }
  assert (Hscaled : (2 * ma + 1) * (C * 2 ^ a * 2 ^ 53) <= 2 * N * 2 ^ j).
  { rewrite <- HW. nia. }
  assert (Hstep : (2 * ma + 1) * (C * 2 ^ a) <= 2 * Z.pos mx * 2 ^ j).
  { unfold N in Hscaled. nia. }
  assert (Hgap : 2 * 2 ^ j <= C * 2 ^ a) by nia.
  assert (Hbig : 2 ^ a * 2 ^ 53 <= 2 * 2 ^ j * 2 ^ t).
  { rewrite <- Hexp. destruct Hn1 as [->| ->]; [rewrite Z.pow_0_r | change (2 ^ 1) with 2]; nia. }
  nia.
Qed.

Lemma shr_1_m (mrs : shr_record) :
  0 <= shr_m mrs -> shr_m (shr_1 mrs) = shr_m mrs / 2.
Proof.
  destruct mrs as [m r s]. cbn [shr_m]. intros Hm.
  destruct m as [|[p|p|]|p]; try lia; cbn [shr_1 shr_m].
  - reflexivity.
  - apply (Z.div_unique _ _ _ 1); lia.
  - apply (Z.div_unique _ _ _ 0); lia.
  - reflexivity.
Qed.

Lemma shr_iterated_m (p : positive) (mrs : shr_record) :
  0 <= shr_m mrs ->
  shr_m (SpecFloat.iter_pos shr_1 p mrs) = shr_m mrs / 2 ^ Z.pos p.
Proof.
  revert mrs. induction p as [p IH | p IH |]; intros mrs Hm; cbn [SpecFloat.iter_pos].
  - assert (H1 : 0 <= shr_m (shr_1 mrs)) by (rewrite shr_1_m by lia; apply Z.div_pos; lia).
    assert (H2 : 0 <= shr_m (SpecFloat.iter_pos shr_1 p (shr_1 mrs)))
      by (rewrite IH by lia; apply Z.div_pos; [lia | apply Z.pow_pos_nonneg; lia]).
    assert (0 < 2 ^ Z.pos p) by (apply Z.pow_pos_nonneg; lia).
    rewrite IH, IH, shr_1_m by lia.
    rewrite !Z.div_div by lia. f_equal.
    replace (Z.pos p~1) with (1 + Z.pos p + Z.pos p) by lia.
    rewrite !Z.pow_add_r by lia. change (2 ^ 1) with 2. lia.
  - assert (H2 : 0 <= shr_m (SpecFloat.iter_pos shr_1 p mrs))
      by (rewrite IH by lia; apply Z.div_pos; [lia | apply Z.pow_pos_nonneg; lia]).
    assert (0 < 2 ^ Z.pos p) by (apply Z.pow_pos_nonneg; lia).
    rewrite IH, IH by lia. rewrite Z.div_div by lia. f_equal.
    replace (Z.pos p~0) with (Z.pos p + Z.pos p) by lia.
    rewrite Z.pow_add_r by lia. lia.
  - rewrite shr_1_m by lia. reflexivity.
Qed.

Lemma Zdigits2_bound (m : Z) : 0 <= m -> m < 2 ^ Zdigits2 m.
Proof.
  intros Hm. destruct m as [|p|p]; try lia; cbn [Zdigits2]; [cbn; lia|].
  apply digits2_pos_bounds.
Qed.

Lemma Zdigits2_nonneg (m : Z) : 0 <= Zdigits2 m.
Proof. destruct m; cbn [Zdigits2]; lia. Qed.

(** What [shr_fexp] leaves of a mantissa: it is below 2^53, and it is
    zero or keeps a negative exponent negative. *)
Lemma shr_fexp_m (m e : Z) (l : location) :
  0 <= m ->
  exists mrs e1,
    shr_fexp prec emax m e l = (mrs, e1) /\
    e1 = Z.max e (fexp prec emax (Zdigits2 m + e)) /\
    0 <= shr_m mrs < 2 ^ 53.
Proof.
  intros Hm. unfold shr_fexp.
  pose proof (Zdigits2_bound m Hm) as Hd. pose proof (Zdigits2_nonneg m) as Hd0.
  set (f := fexp prec emax (Zdigits2 m + e)).
  assert (Hf : Zdigits2 m + e - 53 <= f) by (unfold f, fexp, prec; lia).
  destruct (f - e) as [|p|p] eqn:Ep; cbn [shr].
  - eexists _, _. split; [reflexivity|]. split; [lia|]. rewrite shr_m_record.
    split; [lia|]. apply Z.lt_le_trans with (2 ^ Zdigits2 m); [assumption|].
    apply Z.pow_le_mono_r; lia.
  - eexists _, _. split; [reflexivity|]. split; [lia|].
    rewrite shr_iterated_m, shr_m_record by (rewrite shr_m_record; lia).
    assert (0 < 2 ^ Z.pos p) by (apply Z.pow_pos_nonneg; lia).
    split; [apply Z.div_pos; lia|].
    apply Z.div_lt_upper_bound; [lia|].
    rewrite <- Z.pow_add_r by lia.
    apply Z.lt_le_trans with (2 ^ Zdigits2 m); [assumption|].
    apply Z.pow_le_mono_r; lia.
  - eexists _, _. split; [reflexivity|]. split; [lia|]. rewrite shr_m_record.
    split; [lia|]. apply Z.lt_le_trans with (2 ^ Zdigits2 m); [assumption|].
    apply Z.pow_le_mono_r; lia.
Qed.

(** A quotient below one half, rounded, is below one. *)
Lemma round_aux_small (q e : Z) (l : location) :
  0 <= q -> e <= -54 -> q < 2 ^ (- e - 1) ->
  Math_floor (binary_round_aux prec emax false q e l) = Int 0.
Proof.
  intros Hq He Hsmall. unfold binary_round_aux.
  destruct (shr_fexp_m q e l Hq) as (mrs1 & e1 & -> & He1 & Hm1).
  assert (Hdq : Zdigits2 q + e <= -1).
  { destruct q as [|p|p]; try lia; cbn [Zdigits2]; [lia|].
    pose proof (digits2_pos_bounds p) as [Hlo _].
    destruct (Z_le_dec (Z.pos (digits2_pos p) + e) (-1)); [assumption|].
    assert (2 ^ (- e - 1) <= 2 ^ (Z.pos (digits2_pos p) - 1))
      by (apply Z.pow_le_mono_r; lia). lia. }
  assert (He1' : e1 <= -54) by (subst e1; unfold fexp, emin, prec, emax; lia).
  set (m1 := round_nearest_even (shr_m mrs1) (loc_of_shr_record mrs1)).
  assert (Hm1' : 0 <= m1 <= 2 ^ 53).
  { unfold m1. destruct (round_nearest_even_cases (shr_m mrs1) (loc_of_shr_record mrs1))
      as [->|[-> _]]; lia. }
  destruct (shr_fexp_m m1 e1 loc_Exact ltac:(lia)) as (mrs2 & e2 & -> & He2 & Hm2).
  assert (Hd1 : Zdigits2 m1 <= 54).
  { destruct m1 as [|p|p]; try lia; cbn [Zdigits2]; [lia|].
    pose proof (digits2_pos_bounds p) as [Hlo _].
    destruct (Z_le_dec (Z.pos (digits2_pos p)) 54); [assumption|].
    assert (2 ^ 54 <= 2 ^ (Z.pos (digits2_pos p) - 1)) by (apply Z.pow_le_mono_r; lia).
    lia. }
  assert (He2' : e2 <= -53) by (subst e2; unfold fexp, emin, prec, emax; lia).
  destruct (shr_m mrs2) as [|m|m] eqn:Em; [reflexivity| |lia].
  destruct (Z.leb_spec e2 (emax - prec)) as [_|Hbad]; [|unfold emax, prec in Hbad; lia].
  rewrite Math_floor_neg by lia. f_equal. apply Z.div_small. split; [lia|].
  apply Z.lt_le_trans with (2 ^ 53); [lia|]. apply Z.pow_le_mono_r; lia.
Qed.

(** Dividing a double below 1 by a constant from 2 on. *)
Lemma div_floor_small (mx my : positive) (a t : Z) :
  0 <= a -> Z.pos mx < 2 ^ a ->
  Z.pos (digits2_pos my) = 53 -> 0 <= t <= 50 -> 2 * 2 ^ t <= Z.pos my ->
  Math_floor (div (S754_finite false mx (- a)) (S754_finite false my (- t))) = Int 0.
Proof.
  intros Ha Hx Hy Ht Hmy.
  unfold div, SFdiv. cbn [xorb].
  unfold SFdiv_core_binary. cbn [Zdigits2]. rewrite Hy.
  pose proof (digits2_pos_bounds mx) as [Hlo Hhi].
  set (dx := Z.pos (digits2_pos mx)) in *.
  assert (Hdx : dx - a <= 0).
  { destruct (Z_le_dec (dx - a) 0); [assumption|].
    assert (2 ^ a <= 2 ^ (dx - 1)) by (apply Z.pow_le_mono_r; lia). lia. }
  set (e' := Z.min (fexp prec emax (dx + - a - (53 + - t))) (- a - - t)).
  assert (He' : e' <= -54) by (unfold e', fexp, emin, prec, emax; lia).
  set (s := - a - - t - e').
  assert (Hs : 0 <= s) by (unfold s, e'; lia).
  assert (Hm' : match s with
                | 0 => Z.pos mx
                | Z.pos _ => Z.shiftl (Z.pos mx) s
                | Z.neg _ => 0
                end = Z.pos mx * 2 ^ s).
  { destruct s as [|p|p] eqn:Es; [lia | now rewrite Z.shiftl_mul_pow2 by lia | lia]. }
  rewrite Hm'.
  pose proof (Z.div_mod (Z.pos mx * 2 ^ s) (Z.pos my) ltac:(lia)) as Hdm.
  pose proof (Z.mod_pos_bound (Z.pos mx * 2 ^ s) (Z.pos my) ltac:(lia)) as Hmod.
  unfold Z.div, Z.modulo in Hdm, Hmod.
  destruct (Z.div_eucl (Z.pos mx * 2 ^ s) (Z.pos my)) as [q r].
  assert (HS : 0 < 2 ^ s) by (apply Z.pow_pos_nonneg; lia).
  assert (Hq0 : 0 <= q) by nia.
  apply round_aux_small; [assumption | assumption |].
  (* q * my <= mx * 2^s < 2^a * 2^s, and 2 * 2^t <= my *)
  assert (HA : 0 < 2 ^ a) by (apply Z.pow_pos_nonneg; lia).
  assert (HT : 0 < 2 ^ t) by (apply Z.pow_pos_nonneg; lia).
  assert (Hexp : 2 ^ a * 2 ^ s = 2 ^ t * 2 ^ (- e')).
  { rewrite <- !Z.pow_add_r by lia. f_equal. unfold s. lia. }
  assert (HE : 2 ^ (- e') = 2 * 2 ^ (- e' - 1)).
  { replace (- e') with (Z.succ (- e' - 1)) at 1 by lia. apply Z.pow_succ_r. lia. }
  assert (0 < 2 ^ (- e' - 1)) by (apply Z.pow_pos_nonneg; lia).
  nia.
Qed.

End Ieee.

(** ** Elapsed-time formatting *)

Module FmtFacts.
Import Fmt.

Lemma length_app (s1 s2 : string) :
  String.length (s1 +:+ s2) = (String.length s1 + String.length s2)%nat.
Proof. induction s1 as [|c s1 IH]; simpl; [reflexivity | now rewrite IH]. Qed.

Lemma decimal_acc_app (s1 s2 : string) (acc : Z) :
  decimal_acc (s1 +:+ s2) acc =
  match decimal_acc s1 acc with
  | Some a => decimal_acc s2 a
  | None => None
  end.
Proof.
  revert acc. induction s1 as [|c s1 IH]; intros acc; simpl; [reflexivity|].
  destruct (digit_value c); [apply IH | reflexivity].
Qed.

(** The ten digits read back as themselves. *)
Lemma digit_value_char (d : Z) : 0 <= d < 10 -> digit_value (digit_char d) = Some d.
Proof.
  intros Hd.
  assert (Hc : d = 0 \/ d = 1 \/ d = 2 \/ d = 3 \/ d = 4 \/ d = 5 \/ d = 6
               \/ d = 7 \/ d = 8 \/ d = 9) by lia.
  repeat (destruct Hc as [-> | Hc]; [reflexivity|]). now subst.
Qed.

(** Well-founded induction on a non-negative integer through its
    decimal prefix. *)
Lemma decimal_ind (P : Z -> Prop) :
  (forall n, 0 <= n < 10 -> P n) ->
  (forall n, 10 <= n -> P (n / 10) -> P n) ->
  forall n, 0 <= n -> P n.
Proof.
  intros Hsmall Hbig n Hn. pattern n.
  apply (Z_lt_induction (fun n => 0 <= n -> P n)); [|lia|assumption].
  clear n Hn. intros n IH Hn.
  destruct (Z_lt_dec n 10) as [Hlt | Hge]; [apply Hsmall; lia|].
  apply Hbig; [lia|]. apply IH; [|apply Z.div_pos; lia].
  split; [apply Z.div_pos; lia | apply Z.div_lt; lia].
Qed.

(** The digits do not depend on the number of steps allowed, once it
    is enough. *)
Lemma digits_upto_stable (k k' : nat) (n : Z) :
  n < 10 ^ Z.of_nat (S k) -> n < 10 ^ Z.of_nat (S k') ->
  digits_upto k n = digits_upto k' n.
Proof.
  revert k' n. induction k as [|k IH]; intros k' n Hk Hk'.
  - change (10 ^ Z.of_nat 1) with 10 in Hk. destruct k' as [|k']; [reflexivity|].
    cbn [digits_upto]. destruct (Z.ltb_spec n 10); [reflexivity | lia].
  - cbn [digits_upto]. destruct (Z.ltb_spec n 10) as [Hs|Hb].
    + destruct k' as [|k']; cbn [digits_upto]; [reflexivity|].
      destruct (Z.ltb_spec n 10); [reflexivity | lia].
    + destruct k' as [|k'].
      * change (10 ^ Z.of_nat 1) with 10 in Hk'. lia.
      * cbn [digits_upto]. destruct (Z.ltb_spec n 10); [lia|].
        f_equal. rewrite Nat2Z.inj_succ, Z.pow_succ_r in Hk, Hk' by lia.
        apply IH; apply Z.div_lt_upper_bound; lia.
Qed.

Lemma below_power_of_log2 (n : Z) : n < 10 ^ Z.of_nat (S (Z.to_nat (Z.log2 n))).
Proof.
  rewrite Nat2Z.inj_succ, Z2Nat.id by apply Z.log2_nonneg.
  destruct (Z_le_dec n 0) as [Hn|Hn].
  - apply Z.le_lt_trans with 0; [assumption|]. apply Z.pow_pos_nonneg; [lia|].
    pose proof (Z.log2_nonneg n). lia.
  - pose proof (Z.log2_spec n ltac:(lia)) as [_ Hhi].
    apply Z.lt_le_trans with (2 ^ Z.succ (Z.log2 n)); [assumption|].
    apply Z.pow_le_mono_l. lia.
Qed.

Lemma digits_of_small (n : Z) :
  n < 10 -> digits_of n = String (digit_char n) EmptyString.
Proof.
  intros H. unfold digits_of.
  destruct (Z.to_nat (Z.log2 n)); cbn [digits_upto]; [reflexivity|].
  destruct (Z.ltb_spec n 10); [reflexivity | lia].
Qed.

Lemma digits_of_big (n : Z) :
  10 <= n ->
  digits_of n = digits_of (n / 10) +:+ String (digit_char (n mod 10)) EmptyString.
Proof.
  intros H. unfold digits_of.
  pose proof (below_power_of_log2 n) as Hn.
  destruct (Z.to_nat (Z.log2 n)) as [|k] eqn:Ek.
  - change (10 ^ Z.of_nat 1) with 10 in Hn. lia.
  - cbn [digits_upto]. destruct (Z.ltb_spec n 10); [lia|]. f_equal.
    apply digits_upto_stable; [|apply below_power_of_log2].
    rewrite Nat2Z.inj_succ, Z.pow_succ_r in Hn by lia.
    apply Z.div_lt_upper_bound; lia.
Qed.

Lemma decimal_acc_digits_of (n : Z) :
  0 <= n -> decimal_acc (digits_of n) 0 = Some n.
Proof.
  intros Hn. pattern n. apply decimal_ind; [| |assumption]; clear n Hn.
  - intros n Hn. rewrite digits_of_small by lia. cbn [decimal_acc].
    rewrite digit_value_char by lia. reflexivity.
  - intros n Hn IH. rewrite digits_of_big, decimal_acc_app, IH by lia.
    cbn [decimal_acc]. rewrite digit_value_char by (apply Z.mod_pos_bound; lia).
    f_equal. rewrite (Z.div_mod n 10) at 3 by lia. lia.
Qed.

(** The width of the digits: as many as the number needs, no more. *)
Lemma digits_of_width (n : Z) :
  0 <= n ->
  (1 <= String.length (digits_of n))%nat /\
  n < 10 ^ Z.of_nat (String.length (digits_of n)) /\
  (10 <= n -> 10 ^ (Z.of_nat (String.length (digits_of n)) - 1) <= n).
Proof.
  intros Hn. pattern n. apply decimal_ind; [| |assumption]; clear n Hn.
  - intros n Hn. rewrite digits_of_small by lia. cbn [String.length].
    repeat split; lia.
  - intros n Hn (Hlen & Hub & Hlb). rewrite digits_of_big, length_app by lia.
    cbn [String.length].
    set (k := String.length (digits_of (n / 10))) in *.
    replace (Z.of_nat (k + 1)) with (Z.succ (Z.of_nat k)) by lia.
    rewrite Z.pow_succ_r by lia.
    replace (Z.succ (Z.of_nat k) - 1) with (Z.succ (Z.of_nat k - 1)) by lia.
    rewrite Z.pow_succ_r by lia.
    pose proof (Z.div_mod n 10 ltac:(lia)) as Hdm.
    pose proof (Z.mod_pos_bound n 10 ltac:(lia)) as Hmod.
    repeat split; [lia | lia |]. intros _.
    destruct (Z_lt_dec (n / 10) 10) as [Hs | Hb].
    + assert (Hk : k = 1%nat).
      { unfold k. rewrite digits_of_small by lia. reflexivity. }
      rewrite Hk. simpl. lia.
    + specialize (Hlb ltac:(lia)). lia.
Qed.

Lemma decimal_value_digits_of (n : Z) :
  0 <= n -> decimal_value (digits_of n) = Some n.
Proof.
  intros Hn. unfold decimal_value.
  pose proof (digits_of_width n Hn) as (Hlen & _).
  destruct (digits_of n) eqn:E; [simpl in Hlen; lia|].
  rewrite <- E. now apply decimal_acc_digits_of.
Qed.

(** [String(n)] on an integer from 0 up to 2^53 is its digits. *)
Lemma String_of_small_integer (n : Z) :
  0 <= n < 2 ^ 53 -> String_of_number (Int n) = digits_of n.
Proof.
  intros Hn. unfold String_of_number, integer_text.
  destruct (Z.ltb_spec n 0); [lia|]. destruct (Z.ltb_spec n (2 ^ 53)); [reflexivity | lia].
Qed.

(** [pad] on a number below ten puts one zero in front. *)
Lemma pad_small (n : Z) :
  0 <= n < 10 -> pad (Int n) = String "0"%char (String (digit_char n) EmptyString).
Proof.
  intros Hn. unfold pad, padStart0. rewrite String_of_small_integer by lia.
  rewrite digits_of_small by lia. reflexivity.
Qed.

(** [pad] on a number from ten on leaves [String(n)] as it is. *)
Lemma pad_big (n : Z) : 10 <= n < 2 ^ 53 -> pad (Int n) = digits_of n.
Proof.
  intros Hn. unfold pad, padStart0. rewrite String_of_small_integer by lia.
  pose proof (digits_of_width n ltac:(lia)) as (_ & Hub & _).
  assert (2 <= String.length (digits_of n))%nat as Hlen.
  { destruct (String.length (digits_of n)) as [|[|k]]; simpl in Hub; lia. }
  replace (2 - String.length (digits_of n))%nat with 0%nat by lia. reflexivity.
Qed.

Lemma pad_value (n : Z) : 0 <= n < 2 ^ 53 -> decimal_value (pad (Int n)) = Some n.
Proof.
  intros Hn. destruct (Z_lt_dec n 10).
  - rewrite pad_small by lia. cbn [decimal_value decimal_acc].
    change (digit_value "0") with (Some 0). cbn iota.
    rewrite digit_value_char by lia. f_equal.
  - rewrite pad_big by lia. apply decimal_value_digits_of. lia.
Qed.

Lemma pad_two_digits (n : Z) : 0 <= n < 100 -> String.length (pad (Int n)) = 2%nat.
Proof.
  intros Hn. destruct (Z_lt_dec n 10).
  - rewrite pad_small by lia. reflexivity.
  - rewrite pad_big, digits_of_big, digits_of_small by (try apply Z.div_lt_upper_bound; lia).
    reflexivity.
Qed.

Lemma pad_width (n : Z) :
  0 <= n < 2 ^ 53 ->
  (n < 100 /\ String.length (pad (Int n)) = 2%nat) \/
  (100 <= n /\ (2 < String.length (pad (Int n)))%nat
   /\ 10 ^ (Z.of_nat (String.length (pad (Int n))) - 1) <= n).
Proof.
  intros Hn. destruct (Z_lt_dec n 100); [left | right].
  - split; [lia | apply pad_two_digits; lia].
  - rewrite pad_big by lia.
    pose proof (digits_of_width n ltac:(lia)) as (_ & Hub & Hlb).
    split; [lia|]. split; [|apply Hlb; lia].
    destruct (String.length (digits_of n)) as [|[|[|k]]]; simpl in Hub; lia.
Qed.

(** A non-negative double below 2^53 has an exponent that is not
    positive, and 53 digits unless it is subnormal. *)
Lemma below_2_53_exponent (m : positive) (e : Z) :
  is_double (S754_finite false m e) -> below_2_53 (S754_finite false m e) ->
  e <= 0 /\ (Z.pos (digits2_pos m) = 53 \/ (e = -1074 /\ Z.pos (digits2_pos m) <= 53)).
Proof.
  unfold is_double, below_2_53, valid_binary, bounded, canonical_mantissa.
  intros Hv Hb. specialize (Hb eq_refl).
  apply andb_prop in Hv as [Hc _]. apply Z.eqb_eq in Hc.
  unfold fexp, emin, prec, emax in Hc.
  change (number (2 ^ 53)) with (S754_finite false 4503599627370496 1) in Hb.
  unfold SFltb, SFcompare in Hb.
  destruct (Z.compare_spec e 1) as [He|He|He]; try discriminate.
  - subst e. exfalso.
    assert (Hd : Z.pos (digits2_pos m) = 53) by lia.
    pose proof (Ieee.digits2_pos_bounds m) as [Hlo _]. rewrite Hd in Hlo.
    change (2 ^ (53 - 1)) with (Z.pos 4503599627370496) in Hlo.
    cbv iota beta in Hb. rewrite Pos.compare_cont_spec in Hb.
    destruct (Pos.compare_spec m 4503599627370496) as [E|E|E];
      cbn [Pos.switch_Eq] in Hb; try discriminate.
    apply Pos2Z.pos_lt_pos in E. apply (Z.lt_irrefl (Z.pos m)).
    exact (Z.lt_le_trans _ _ _ E Hlo).
  - split; lia.
Qed.

(** The whole seconds [formatHMS] computes are the exact ones. *)
Lemma total_exact (d : double) :
  is_double d -> below_2_53 d ->
  Math_floor (div (clamp_ms d) (number 1000)) = Int (whole_seconds d) /\
  0 <= whole_seconds d < 2 ^ 53.
Proof.
  intros Hv Hb.
  destruct d as [[]|[]| |[] m e];
    try (split; [reflexivity | cbn [whole_seconds]; lia]).
  destruct (below_2_53_exponent m e Hv Hb) as [He Hdig].
  change (clamp_ms (S754_finite false m e)) with (S754_finite false m e).
  change (number 1000) with (S754_finite false 8796093022208000 (- (43))).
  pose proof (Ieee.digits2_pos_bounds m) as [Hlo Hhi].
  assert (Hm53 : Z.pos m < 2 ^ 53).
  { apply Z.lt_le_trans with (2 ^ Z.pos (digits2_pos m)); [assumption|].
    apply Z.pow_le_mono_r; lia. }
  assert (Hws : whole_seconds (S754_finite false m e) = Z.pos m / (1000 * 2 ^ (- e))).
  { destruct e as [|p|p]; try lia; cbn [whole_seconds]; [|reflexivity].
    now rewrite Z.pow_0_r, Z.mul_1_r. }
  assert (HE : 0 < 2 ^ (- e)) by (apply Z.pow_pos_nonneg; lia).
  rewrite Hws. split.
  - replace e with (- (- e)) at 1 by lia.
    destruct (Z_lt_dec (Z.pos m) (2 ^ (- e))) as [Hsmall|Hnormal].
    + rewrite Ieee.div_floor_small; try lia; [|reflexivity].
      f_equal. symmetry. apply Z.div_small. lia.
    + assert (Ha : - e <= 52).
      { destruct (Z_le_dec (- e) 52); [assumption|].
        assert (2 ^ 53 <= 2 ^ (- e)) by (apply Z.pow_le_mono_r; lia). lia. }
      apply Ieee.div_floor_normal; try lia; reflexivity.
  - split; [apply Z.div_pos; lia|].
    apply Z.div_lt_upper_bound; [lia|]. nia.
Qed.

(** The same for an integer below 2^53 and an integer constant. *)
Lemma div_floor_integer (z C t : Z) (my : positive) :
  0 <= z < 2 ^ 53 ->
  number C = S754_finite false my (- t) ->
  Z.pos (digits2_pos my) = 53 -> 0 <= t <= 50 -> Z.pos my = C * 2 ^ t -> 2 <= C ->
  Math_floor (div (number z) (number C)) = Int (z / C).
Proof.
  intros Hz HC Hdig Ht Hmy HC2. rewrite HC.
  destruct (Z.eq_dec z 0) as [->|Hnz]; [reflexivity|].
  destruct (Ieee.number_small z ltac:(lia)) as (m & a & -> & Ha & Hm & Hd).
  rewrite (Ieee.div_floor_normal m my a t C) by (assumption || lia).
  f_equal. rewrite Hm. apply Z.div_mul_cancel_r; [lia|].
  apply Z.pow_nonzero; lia.
Qed.

(** Below 2^53 the three fields are those of the exact whole seconds. *)
Lemma formatHMS_fields (d : double) :
  is_double d -> below_2_53 d ->
  formatHMS d
  = pad (Int (whole_seconds d / 3600)) +:+ ":"
    +:+ pad (Int ((whole_seconds d mod 3600) / 60)) +:+ ":"
    +:+ pad (Int (whole_seconds d mod 60)).
Proof.
  intros Hv Hb. destruct (total_exact d Hv Hb) as [Ht Hrange].
  unfold formatHMS. rewrite Ht. cbn [to_double rem].
  rewrite !Z.rem_mod_nonneg by lia.
  pose proof (Z.mod_pos_bound (whole_seconds d) 3600 ltac:(lia)).
  rewrite (div_floor_integer (whole_seconds d) 3600 41 7916483719987200)
    by (reflexivity || lia).
  rewrite (div_floor_integer (whole_seconds d mod 3600) 60 47 8444249301319680)
    by (reflexivity || lia).
  reflexivity.
Qed.

End FmtFacts.

(** C4, as the code has it.  For every number [d] below 2^53, and for
    every number that is not finite, [formatHMS d] is [H:M:S] where the
    three fields are decimal strings of the hours, minutes and seconds
    of [max(d,0)/1000] truncated to whole seconds; the minutes and the
    seconds have exactly two digits, the hours have two digits below
    one hundred and otherwise exactly the digits they need (no clamp,
    no leading zero).  A negative or non-finite input counts as zero:
    [formatHMS(-5) = formatHMS(0) = formatHMS(NaN) = "00:00:00"], and
    [formatHMS(3661000) = "01:01:01"]. *)
Theorem formatHMS_zero_padded_components :
  (forall d : Fmt.double,
     is_double d -> below_2_53 d ->
     let total := whole_seconds d in
     exists (H M S : string) (h m s : Z),
       Fmt.formatHMS d = H +:+ ":" +:+ M +:+ ":" +:+ S /\
       3600 * h + 60 * m + s = total /\ 0 <= h /\ 0 <= m < 60 /\ 0 <= s < 60 /\
       Fmt.decimal_value H = Some h /\
       Fmt.decimal_value M = Some m /\
       Fmt.decimal_value S = Some s /\
       String.length M = 2%nat /\
       String.length S = 2%nat /\
       ((h < 100 /\ String.length H = 2%nat) \/
        (100 <= h /\ (2 < String.length H)%nat
         /\ 10 ^ (Z.of_nat (String.length H) - 1) <= h))) /\
  Fmt.formatHMS (Fmt.number (-5)) = "00:00:00" /\
  Fmt.formatHMS (Fmt.number 0) = "00:00:00" /\
  Fmt.formatHMS S754_nan = "00:00:00" /\
  Fmt.formatHMS (S754_infinity false) = "00:00:00" /\
  Fmt.formatHMS (S754_infinity true) = "00:00:00" /\
  Fmt.formatHMS (Fmt.number 3661000) = "01:01:01".
Proof.
  split; [|repeat split; vm_compute; reflexivity].
  intros d Hv Hb total.
  destruct (FmtFacts.total_exact d Hv Hb) as [_ Hrange]. fold total in Hrange.
  pose proof (Z.div_mod total 3600 ltac:(lia)) as Hh.
  pose proof (Z.mod_pos_bound total 3600 ltac:(lia)) as Hr.
  pose proof (Z.div_mod (total mod 3600) 60 ltac:(lia)) as Hm.
  pose proof (Z.mod_pos_bound (total mod 3600) 60 ltac:(lia)) as Hs.
  assert (Hsec : (total mod 3600) mod 60 = total mod 60).
  { apply Z.mod_mod_divide. exists 60. reflexivity. }
  assert (Hmin : 0 <= (total mod 3600) / 60 < 60).
  { split; [apply Z.div_pos; lia | apply Z.div_lt_upper_bound; lia]. }
  assert (Hhour : 0 <= total / 3600 < 2 ^ 53).
  { split; [apply Z.div_pos; lia | apply Z.div_lt_upper_bound; lia]. }
  pose proof (Z.mod_pos_bound total 60 ltac:(lia)) as Hs60.
  exists (Fmt.pad (Int (total / 3600))), (Fmt.pad (Int ((total mod 3600) / 60))),
         (Fmt.pad (Int (total mod 60))),
         (total / 3600), ((total mod 3600) / 60), (total mod 60).
  split. { now apply FmtFacts.formatHMS_fields. }
  split; [lia|]. split; [lia|]. split; [lia|]. split; [lia|].
  split; [apply FmtFacts.pad_value; lia|].
  split; [apply FmtFacts.pad_value; lia|].
  split; [apply FmtFacts.pad_value; lia|].
  split; [apply FmtFacts.pad_two_digits; lia|].
  split; [apply FmtFacts.pad_two_digits; lia|].
  apply FmtFacts.pad_width; lia.
Qed.

Lemma formatHMS_zero_padded_components_witness :
  is_double (Fmt.number 86399999) /\ below_2_53 (Fmt.number 86399999) /\
  exists (H M S : string) (h m s : Z),
    Fmt.formatHMS (Fmt.number 86399999) = H +:+ ":" +:+ M +:+ ":" +:+ S /\
    3600 * h + 60 * m + s = whole_seconds (Fmt.number 86399999) /\
    0 <= h /\ 0 <= m < 60 /\ 0 <= s < 60 /\
    Fmt.decimal_value H = Some h /\
    Fmt.decimal_value M = Some m /\
    Fmt.decimal_value S = Some s /\
    String.length M = 2%nat /\
    String.length S = 2%nat /\
    ((h < 100 /\ String.length H = 2%nat) \/
     (100 <= h /\ (2 < String.length H)%nat
      /\ 10 ^ (Z.of_nat (String.length H) - 1) <= h)).
Proof.
  assert (Hv : is_double (Fmt.number 86399999)) by reflexivity.
  assert (Hb : below_2_53 (Fmt.number 86399999)) by (intros _; reflexivity).
  split; [exact Hv|]. split; [exact Hb|].
  exact (proj1 formatHMS_zero_padded_components (Fmt.number 86399999) Hv Hb).
Defined.

(** C4 as stated fails from 2^53 on.  At 2^60 milliseconds the quotient
    by 1000 is rounded up to the next whole second: the code shows 07
    seconds where the truncated seconds are 6.  At 10^30 milliseconds
    the hours are a number [String] writes with an exponent. *)
Lemma formatHMS_large_counterexample :
  (is_double (Fmt.number (2 ^ 60)) /\
   Fmt.formatHMS (Fmt.number (2 ^ 60)) = "320255973501:54:07" /\
   whole_seconds (Fmt.number (2 ^ 60)) = 1152921504606846 /\
   whole_seconds (Fmt.number (2 ^ 60)) mod 60 = 6) /\
  (is_double (Fmt.number (10 ^ 30)) /\
   Fmt.formatHMS (Fmt.number (10 ^ 30)) = "2.7777777777777777e+23:17:52").
Proof. repeat split; vm_compute; reflexivity. Qed.

(** ** The scene registry *)

Module RegistryFacts.
Import Registry.

Lemma get_own_elem (k : string) (l : list (string * Scene)) :
  is_Some (get_own k l) <-> k ∈ l.*1.
Proof.
  induction l as [|[k' v'] l IH]; cbn [get_own fmap list_fmap fst].
  - split; [intros [? ?]; discriminate | intros H; inversion H].
  - rewrite elem_of_cons. destruct (String.eqb_spec k' k) as [->|Hne].
    + split; [now left | now eexists].
    + rewrite IH. split; [now right | intros [E|H]; [congruence | exact H]].
Qed.

Lemma get_own_None (k : string) (l : list (string * Scene)) :
  get_own k l = None <-> k ∉ l.*1.
Proof. rewrite <- get_own_elem, eq_None_not_Some. reflexivity. Qed.

Lemma get_own_replace (k k' : string) (v : Scene) (l : list (string * Scene)) :
  is_Some (get_own k l) ->
  get_own k' (replace k v l) = if decide (k = k') then Some v else get_own k' l.
Proof.
  induction l as [|[k0 v0] l IH]; cbn [get_own replace].
  - intros [? ?]. discriminate.
  - destruct (String.eqb_spec k0 k) as [->|Hne]; intros Hk; cbn [get_own].
    + destruct (String.eqb_spec k k') as [->|Hne'].
      * now rewrite decide_True.
      * now rewrite decide_False.
    + destruct (String.eqb_spec k0 k') as [->|Hne'].
      * now rewrite decide_False by congruence.
      * now apply IH.
Qed.

Lemma get_own_insert_index (n : Z) (k k' : string) (v : Scene)
      (l : list (string * Scene)) :
  get_own k l = None ->
  get_own k' (insert_index n k v l) = if decide (k = k') then Some v else get_own k' l.
Proof.
  induction l as [|[k0 v0] l IH]; cbn [get_own insert_index].
  - intros _. destruct (String.eqb_spec k k') as [->|Hne];
      [now rewrite decide_True | now rewrite decide_False].
  - destruct (String.eqb_spec k0 k) as [->|Hne]; [discriminate|]. intros Hk.
    assert (Hhead : get_own k' ((k, v) :: (k0, v0) :: l)
                    = if decide (k = k') then Some v else get_own k' ((k0, v0) :: l)).
    { cbn [get_own]. destruct (String.eqb_spec k k') as [->|Hne'];
        [now rewrite decide_True | now rewrite decide_False]. }
    destruct (array_index k0) as [n0|]; [|exact Hhead].
    destruct (n0 <? n); [|exact Hhead].
    cbn [get_own]. destruct (String.eqb_spec k0 k') as [->|Hne'].
    + now rewrite decide_False by congruence.
    + now apply IH.
Qed.

Lemma get_own_snoc (k k' : string) (v : Scene) (l : list (string * Scene)) :
  get_own k l = None ->
  get_own k' (l ++ [(k, v)]) = if decide (k = k') then Some v else get_own k' l.
Proof.
  induction l as [|[k0 v0] l IH]; cbn [get_own app].
  - intros _. destruct (String.eqb_spec k k') as [->|Hne];
      [now rewrite decide_True | now rewrite decide_False].
  - destruct (String.eqb_spec k0 k) as [->|Hne]; [discriminate|]. intros Hk.
    destruct (String.eqb_spec k0 k') as [->|Hne'].
    + now rewrite decide_False by congruence.
    + now apply IH.
Qed.

(** An own property reads back what was put under its key, and the
    other keys are not touched. *)
Lemma get_own_put (k k' : string) (v : Scene) (l : list (string * Scene)) :
  get_own k' (put k v l) = if decide (k = k') then Some v else get_own k' l.
Proof.
  unfold put. destruct (get_own k l) as [v0|] eqn:Hk.
  - apply get_own_replace. now rewrite Hk.
  - destruct (array_index k); [now apply get_own_insert_index | now apply get_own_snoc].
Qed.

Lemma put_keys (k k' : string) (v : Scene) (l : list (string * Scene)) :
  k' ∈ (put k v l).*1 <-> k' = k \/ k' ∈ l.*1.
Proof.
  rewrite <- !get_own_elem, get_own_put. destruct (decide (k = k')) as [->|Hne].
  - split; [now left | now eexists].
  - split; [now right | intros [E|H]; [congruence | exact H]].
Qed.

Lemma replace_keys (k : string) (v : Scene) (l : list (string * Scene)) :
  (replace k v l).*1 = l.*1.
Proof.
  induction l as [|[k0 v0] l IH]; cbn [replace fmap list_fmap fst]; [reflexivity|].
  destruct (String.eqb_spec k0 k) as [->|Hne]; cbn [fmap list_fmap fst]; [reflexivity|].
  f_equal. exact IH.
Qed.

Lemma insert_index_keys (n : Z) (k : string) (v : Scene) (l : list (string * Scene)) :
  (insert_index n k v l).*1 ≡ₚ k :: l.*1.
Proof.
  induction l as [|[k0 v0] l IH]; cbn [insert_index fmap list_fmap fst]; [reflexivity|].
  destruct (array_index k0) as [n0|]; [|reflexivity].
  destruct (n0 <? n); [|reflexivity].
  cbn [fmap list_fmap fst]. rewrite IH. apply Permutation_swap.
Qed.

(** No key is an own property twice. *)
Lemma put_NoDup (k : string) (v : Scene) (l : list (string * Scene)) :
  NoDup l.*1 -> NoDup (put k v l).*1.
Proof.
  intros Hnd. unfold put. destruct (get_own k l) as [v0|] eqn:Hk.
  - now rewrite replace_keys.
  - apply get_own_None in Hk. destruct (array_index k) as [n|].
    + rewrite insert_index_keys. now constructor.
    + rewrite fmap_app. cbn [fmap list_fmap fst]. apply NoDup_app.
      split; [assumption|]. split; [|apply NoDup_singleton].
      intros x Hx Hx'. apply list_elem_of_singleton in Hx'. congruence.
Qed.

Lemma lookup_assign (k sid : string) (v : Scene) (o : t) :
  assign k v o !! sid
  = if decide (k = "__proto__") then o !! sid
    else if decide (k = sid) then Some v else o !! sid.
Proof.
  unfold lookup, registry_lookup, assign.
  destruct (String.eqb_spec k "__proto__") as [->|Hne].
  - now rewrite decide_True.
  - rewrite decide_False by assumption. cbn [own]. apply get_own_put.
Qed.

Lemma assign_NoDup (k : string) (v : Scene) (o : t) :
  NoDup (own o).*1 -> NoDup (own (assign k v o)).*1.
Proof.
  unfold assign. destruct (String.eqb k "__proto__"); cbn [own]; [tauto|].
  apply put_NoDup.
Qed.

Lemma lookup_is_Some (sid : string) (o : t) :
  is_Some (o !! sid) <-> sid ∈ (own o).*1.
Proof. apply get_own_elem. Qed.

End RegistryFacts.

Module SceneFacts.
Import Pattern.

(** The own entries the loop of [_ingestScenes] leaves, over any
    starting object: the identifiers of the input other than
    ["__proto__"]. *)
Lemma ingest_from_keys (l : list RawScene) (o : Registry.t) (sid : string) :
  is_Some (ingest_from o l !! sid)
  <-> is_Some (o !! sid) \/ (sid ∈ raw_id <$> l /\ sid <> "__proto__").
Proof.
  revert o. induction l as [|sc l IH]; intros o; cbn [ingest_from foldl fmap list_fmap].
  - split; [now left | intros [H|[H _]]; [exact H | inversion H]].
  - fold (ingest_from (Registry.assign (raw_id sc) (entry_of sc) o) l).
    rewrite IH, RegistryFacts.lookup_assign, elem_of_cons.
    destruct (decide (raw_id sc = "__proto__")) as [Hp|Hp].
    + split; [intros [H|[H1 H2]]; [now left | right; split; [now right | exact H2]]|].
      intros [H|[[E|H1] H2]]; [now left | congruence | right; now split].
    + destruct (decide (raw_id sc = sid)) as [E|Hne].
      * split; [intros _; right; split; [now left | congruence]|].
        intros _. left. now eexists.
      * split; [intros [H|[H1 H2]]; [now left | right; split; [now right | exact H2]]|].
        intros [H|[[E|H1] H2]]; [now left | congruence | right; now split].
Qed.

Lemma ingest_loop_keys (l : list RawScene) (sid : string) :
  is_Some (ingest_loop l !! sid) <-> sid ∈ raw_id <$> l /\ sid <> "__proto__".
Proof.
  unfold ingest_loop. rewrite ingest_from_keys. split; [|now right].
  intros [[? H]|H]; [discriminate | exact H].
Qed.

Lemma ingest_from_NoDup (l : list RawScene) (o : Registry.t) :
  NoDup (Registry.own o).*1 -> NoDup (Registry.own (ingest_from o l)).*1.
Proof.
  revert o. induction l as [|sc l IH]; intros o Ho; cbn [ingest_from foldl]; [assumption|].
  apply IH. now apply RegistryFacts.assign_NoDup.
Qed.

Lemma ingest_loop_NoDup (l : list RawScene) : NoDup (Registry.own (ingest_loop l)).*1.
Proof. unfold ingest_loop. apply ingest_from_NoDup. constructor. Qed.

(** Every entry the loop leaves was written from an element of the
    input, under that element's identifier. *)
Lemma ingest_from_lookup (l : list RawScene) (o : Registry.t) sid sc :
  ingest_from o l !! sid = Some sc ->
  o !! sid = Some sc \/
  exists raw, raw ∈ l /\ raw_id raw = sid /\ sc = {| id := sid; name := cleanName raw |}.
Proof.
  revert o. induction l as [|r l IH]; intros o H; cbn [ingest_from foldl] in H; [now left|].
  apply IH in H as [H | (raw & Hin & Hid & Hsc)].
  - rewrite RegistryFacts.lookup_assign in H.
    destruct (decide (raw_id r = "__proto__")); [now left|].
    destruct (decide (raw_id r = sid)) as [<- | Hne]; [|now left].
    injection H as <-. right. exists r. split; [left | split; reflexivity].
  - right. exists raw. split; [now right | now split].
Qed.

Lemma ingest_loop_lookup (l : list RawScene) sid sc :
  ingest_loop l !! sid = Some sc ->
  exists raw, raw ∈ l /\ raw_id raw = sid /\ sc = {| id := sid; name := cleanName raw |}.
Proof.
  unfold ingest_loop. intros H.
  apply ingest_from_lookup in H as [H | H]; [|assumption]. discriminate.
Qed.

(** [_ingestScenes] writes the registry from its argument alone. *)
Lemma scenes_ingestScenes (a : option (list RawScene)) (w : World) :
  scenes (inst (_ingestScenes a w)) = ingest_loop (default [] a).
Proof. reflexivity. Qed.

(** *** The pattern as a set of strings *)

Lemma spaces_to_end_all (s : string) : spaces_to_end s = all_chars is_space s.
Proof. induction s as [|c s IH]; simpl; [reflexivity | now rewrite IH]. Qed.

Lemma body_close_end_spec (r : string) :
  body_close_end r = true <->
  exists body sp2,
    r = body +:+ ")" +:+ sp2 /\
    all_chars (fun c => negb (is_line_terminator c)) body = true /\
    all_chars is_space sp2 = true.
Proof.
  induction r as [|c r IH].
  - split; [discriminate|]. intros (body & sp2 & E & _). destruct body; discriminate.
  - cbn [body_close_end]. rewrite orb_true_iff, !andb_true_iff, IH. split.
    + intros [[Hc Hsp] | [Hc (body & sp2 & -> & Hb & Hs)]].
      * apply Ascii.eqb_eq in Hc as ->. exists EmptyString, r.
        rewrite <- spaces_to_end_all. now repeat split.
      * exists (String c body), sp2. cbn [all_chars]. rewrite Hc, Hb. now repeat split.
    + intros (body & sp2 & E & Hb & Hs). destruct body as [|c' body].
      * left. injection E as Ec Er. subst c r. rewrite spaces_to_end_all. now split.
      * right. injection E as Ec Er. subst c' r. cbn [all_chars] in Hb.
        apply andb_true_iff in Hb as [Hc Hb]. split; [assumption|].
        now exists body, sp2.
Qed.

Lemma match_here_spec (t : string) : match_here t = true <-> group_to_end t.
Proof.
  induction t as [|c t IH].
  - split; [discriminate|]. intros (sp1 & body & sp2 & E & _). destruct sp1; discriminate.
  - cbn [match_here]. destruct (is_space c) eqn:Hc.
    + rewrite IH. split.
      * intros (sp1 & body & sp2 & -> & H1 & H2 & H3).
        exists (String c sp1), body, sp2. cbn [all_chars]. rewrite Hc, H1. now repeat split.
      * intros (sp1 & body & sp2 & E & H1 & H2 & H3). destruct sp1 as [|c' sp1].
        -- injection E as Ec _. subst c. discriminate Hc.
        -- injection E as Ec Et. subst c' t. cbn [all_chars] in H1.
           apply andb_true_iff in H1 as [_ H1]. now exists sp1, body, sp2.
    + rewrite andb_true_iff, body_close_end_spec. split.
      * intros [Hp (body & sp2 & -> & H2 & H3)]. apply Ascii.eqb_eq in Hp as ->.
        now exists EmptyString, body, sp2.
      * intros (sp1 & body & sp2 & E & H1 & H2 & H3). destruct sp1 as [|c' sp1].
        -- injection E as Ec Et. subst c t. split; [reflexivity | now exists body, sp2].
        -- injection E as Ec Et. subst c'. cbn [all_chars] in H1. rewrite Hc in H1.
           discriminate.
Qed.

Lemma strip_eq (s : string) :
  strip s = if match_here s then EmptyString
            else match s with
                 | EmptyString => EmptyString
                 | String c r => String c (strip r)
                 end.
Proof. destruct s; reflexivity. Qed.

(** [strip] cuts at the leftmost position from which the pattern
    matches, and leaves a string without such a position alone. *)
Lemma strip_spec (s : string) :
  exists t,
    s = strip s +:+ t /\
    (t = EmptyString \/ group_to_end t) /\
    (forall p' t', s = p' +:+ t' -> group_to_end t' ->
                   (String.length (strip s) <= String.length p')%nat).
Proof.
  induction s as [|c s (t & E & Ht & Hmin)].
  - exists EmptyString. split; [reflexivity|]. split; [now left|].
    intros p' t' _ _. cbn. lia.
  - rewrite strip_eq. destruct (match_here (String c s)) eqn:Hm.
    + exists (String c s). split; [reflexivity|]. split.
      * right. now apply match_here_spec.
      * intros p' t' _ _. cbn. lia.
    + exists t. split.
      { change (String c s = String c (strip s +:+ t)). now f_equal. } split; [assumption|].
      intros p' t' E' Hg. destruct p' as [|c' p'].
      * change (String c s = t') in E'. subst t'. apply match_here_spec in Hg. congruence.
      * injection E' as Ec E'. cbn [String.length]. apply le_n_S. now apply (Hmin p' t').
Qed.

End SceneFacts.




(** C6, as the code has it.  Every entry of the registry sits under the
    identifier of the input scene it was written from, unchanged, and
    its display name is that scene's text (the name, or the identifier
    when the name is missing or empty) cut at the leftmost position from
    which the rest of the text is white space, an opening parenthesis,
    characters without a line break, a closing parenthesis and white
    space up to the end; a text without such a position is kept.
    ["Main (Program)"] gives ["Main"], ["Lower Thirds"] is unchanged, an
    empty name with identifier ["s1"] gives ["s1"]. *)
Theorem ingested_display_name :
  (forall (scenesArray : option (list RawScene)) (w : World) (sid : string) (sc : Scene),
     scenes (inst (_ingestScenes scenesArray w)) !! sid = Some sc ->
     id sc = sid /\
     exists raw, raw ∈ default [] scenesArray /\ raw_id raw = sid
                 /\ name sc = cleanName raw) /\
  (forall raw : RawScene,
     let text := match raw_name raw with
                 | Some n => if decide (n = "") then raw_id raw else n
                 | None => raw_id raw
                 end in
     exists t,
       text = cleanName raw +:+ t /\
       (t = "" \/ group_to_end t) /\
       (forall p' t', text = p' +:+ t' -> group_to_end t' ->
                      (String.length (cleanName raw) <= String.length p')%nat)) /\
  cleanName {| raw_id := "1"; raw_name := Some "Main (Program)" |} = "Main" /\
  cleanName {| raw_id := "2"; raw_name := Some "Lower Thirds" |} = "Lower Thirds" /\
  cleanName {| raw_id := "s1"; raw_name := Some "" |} = "s1" /\
  cleanName {| raw_id := "s1"; raw_name := None |} = "s1".
Proof.
  split; [|split; [|repeat split; reflexivity]].
  - intros scenesArray w sid sc H. rewrite SceneFacts.scenes_ingestScenes in H.
    apply SceneFacts.ingest_loop_lookup in H as (raw & Hin & Hid & ->).
    split; [reflexivity|]. now exists raw.
  - intros raw text.
    assert (Htext : text = name_or_id (raw_name raw) (raw_id raw)).
    { unfold text, name_or_id. destruct (raw_name raw) as [n|]; [|reflexivity].
      destruct (decide (n = "")) as [-> | Hne]; [reflexivity|].
      apply String.eqb_neq in Hne. now rewrite Hne. }
    rewrite Htext. apply SceneFacts.strip_spec.
Qed.

Lemma ingested_display_name_witness :
  scenes (inst (_ingestScenes
                  (Some [{| raw_id := "1"; raw_name := Some "Main (Program)" |}])
                  (constructed 1000))) !! "1"
    = Some {| id := "1"; name := "Main" |} /\
  id {| id := "1"; name := "Main" |} = "1".
Proof.
  assert (H : scenes (inst (_ingestScenes
                  (Some [{| raw_id := "1"; raw_name := Some "Main (Program)" |}])
                  (constructed 1000))) !! "1"
              = Some {| id := "1"; name := "Main" |})
    by (vm_compute; reflexivity).
  split; [exact H|].
  exact (proj1 (proj1 ingested_display_name _ (constructed 1000) "1" _ H)).
Defined.

(** C6 as stated fails twice.  A name with two groups loses both, where
    stripping one trailing group would keep the first; and an
    identifier that stands in for a missing name is cut like a name, so
    the display name is not the raw identifier. *)
Lemma display_name_counterexample :
  (name <$> scenes (inst two_names_world) !! "7" = Some "Cam" /\
   Spec.strip_one_trailing_group "Cam (A) (B)" = "Cam (A)") /\
  (name <$> scenes (inst two_names_world) !! "s1 (x)" = Some "s1" /\
   name <$> scenes (inst two_names_world) !! "s1 (x)" <> Some "s1 (x)").
Proof. vm_compute. repeat split. discriminate. Qed.

(** ** Timers *)

Module TimerFacts.

Lemma filter_none {A} (P : A -> Prop) `{forall x, Decision (P x)} (l : list A) :
  (forall x, x ∈ l -> ~ P x) -> filter P l = [].
Proof.
  induction l as [|x l IH]; intros Hl; [reflexivity|].
  rewrite filter_cons_False by (apply Hl; left).
  apply IH. intros y Hy. apply Hl. now right.
Qed.

Lemma ticks_owned_spec (w : World) :
  ticks_owned w <->
  forall iv, iv ∈ intervals (env w) -> owner (interval_kind iv) w = Some (interval_id iv).
Proof. apply Forall_forall. Qed.

Lemma ticks_owned_view (w1 w2 : World) :
  tick_view w2 = tick_view w1 -> ticks_owned w1 -> ticks_owned w2.
Proof.
  rewrite !ticks_owned_spec. unfold tick_view. intros E H iv Hin.
  injection E as Ei Er Es. rewrite Ei in Hin. specialize (H iv Hin).
  destruct (interval_kind iv); simpl in *; congruence.
Qed.

(** Clearing the timer of a kind removes every tick source of that
    kind, since they all are the one the field refers to. *)
Lemma stopTimer_owned (k : TickKind) (w : World) :
  ticks_owned w ->
  ticks_owned (stopTimer k w) /\
  ticking k (stopTimer k w) = [] /\
  owner k (stopTimer k w) = None.
Proof.
  rewrite !ticks_owned_spec. intros Hown.
  assert (Hcase : owner k w = None /\ stopTimer k w = w \/
                  exists i, owner k w = Some i /\
                    intervals (env (stopTimer k w))
                      = filter (fun iv => interval_id iv <> i) (intervals (env w)) /\
                    owner k (stopTimer k w) = None /\
                    forall k', k' <> k -> owner k' (stopTimer k w) = owner k' w).
  { destruct k; simpl; unfold _stopRecordTimer, _stopStreamTimer.
    - destruct (recordTimer (inst w)) as [i|] eqn:E; [right | now left].
      exists i. repeat split. intros [] Hk; [congruence | reflexivity].
    - destruct (streamTimer (inst w)) as [i|] eqn:E; [right | now left].
      exists i. repeat split. intros [] Hk; [reflexivity | congruence]. }
  destruct Hcase as [[Hnone ->] | (i & Hi & Hint & Hnone & Hother)].
  - split; [assumption|]. split; [|assumption].
    apply filter_none. intros iv Hin Hk. specialize (Hown iv Hin). congruence.
  - assert (Hleft : forall iv, iv ∈ intervals (env (stopTimer k w)) ->
                               iv ∈ intervals (env w) /\ interval_kind iv <> k).
    { intros iv. rewrite Hint, list_elem_of_filter. intros [Hne Hin]. split; [assumption|].
      intros Hk. specialize (Hown iv Hin). rewrite Hk, Hi in Hown. congruence. }
    split; [|split; [|assumption]].
    + intros iv Hin. apply Hleft in Hin as [Hin Hk]. rewrite Hother by assumption.
      now apply Hown.
    + apply filter_none. intros iv Hin. now apply Hleft in Hin as [_ Hk].
Qed.

(** Starting leaves one tick source of the kind, the new one, and reads
    the clock. *)
Lemma start_owned (k : TickKind) (w : World) :
  ticks_owned w ->
  ticks_owned (start k w) /\
  ticking k (start k w)
    = [{| interval_id := next_timer (env w); interval_kind := k;
          interval_period := 1000 |}] /\
  owner k (start k w) = Some (next_timer (env w)) /\
  start_of k (start k w) = Some (Date_now w) /\
  active k (start k w) = true.
Proof.
  intros Hown.
  set (w0 := match k with
             | RecordTick =>
                 on_inst (set_recordStart (Some (Date_now w)))
                         (on_inst (set_isRecording true) w)
             | StreamTick =>
                 on_inst (set_streamStart (Some (Date_now w)))
                         (on_inst (set_isStreaming true) w)
             end).
  assert (Hown0 : ticks_owned w0).
  { apply (ticks_owned_view w); [|assumption]. unfold w0. now destruct k. }
  destruct (stopTimer_owned k w0 Hown0) as (Hown1 & Hnone & _).
  assert (Hnext : next_timer (env (stopTimer k w0)) = next_timer (env w)).
  { unfold w0. destruct k; simpl; unfold _stopRecordTimer, _stopStreamTimer; simpl.
    - now destruct (recordTimer (inst w)).
    - now destruct (streamTimer (inst w)). }
  assert (Hshape :
    intervals (env (start k w))
      = intervals (env (stopTimer k w0))
        ++ [{| interval_id := next_timer (env w); interval_kind := k;
               interval_period := 1000 |}] /\
    owner k (start k w) = Some (next_timer (env w)) /\
    (forall k', k' <> k -> owner k' (start k w) = owner k' (stopTimer k w0)) /\
    start_of k (start k w) = Some (Date_now w) /\
    active k (start k w) = true).
  { rewrite <- Hnext. unfold w0.
    destruct k; simpl; unfold _startRecording, _startStreaming, _stopRecordTimer,
      _stopStreamTimer; simpl.
    - destruct (recordTimer (inst w)); simpl; repeat split;
        intros [] Hk; try reflexivity; congruence.
    - destruct (streamTimer (inst w)); simpl; repeat split;
        intros [] Hk; try reflexivity; congruence. }
  destruct Hshape as (Hint & Hnew & Hother & Hstart & Hact).
  split; [|split; [|now repeat split]].
  - apply ticks_owned_spec. rewrite ticks_owned_spec in Hown1.
    intros iv. rewrite Hint, elem_of_app, list_elem_of_singleton. intros [Hin | ->].
    + assert (Hk : interval_kind iv <> k).
      { intros Hk. unfold ticking in Hnone.
        exact (filter_nil_not_elem_of _ _ iv Hnone Hk Hin). }
      rewrite Hother by assumption. now apply Hown1.
    + exact Hnew.
  - unfold ticking at 1. rewrite Hint, filter_app. fold (ticking k (stopTimer k w0)).
    rewrite Hnone, filter_cons_True by reflexivity. reflexivity.
Qed.

End TimerFacts.

(** ** Actions *)

Module ActionFacts.

Lemma on_env_id (w : World) :
  on_env (fun e => set_remote_calls (remote_calls e ++ []) e) w = w.
Proof.
  destruct w as [i e]. destruct e. unfold on_env, set_remote_calls. simpl.
  now rewrite app_nil_r.
Qed.

Lemma has_method_decide (p : Proxy) (m : string) :
  has_method p m = if decide (m ∈ methods p) then true else false.
Proof.
  unfold has_method.
  now destruct (decide (m ∈ methods p));
    [rewrite bool_decide_eq_true_2 | rewrite bool_decide_eq_false_2].
Qed.

(** An action callback is its remote half, one call of the first
    candidate the proxy has, followed by its local half. *)
Lemma run_callback_split (cb : Callback) (w : World) :
  run_callback cb w
  = local_entry cb
      (on_env (fun e =>
         set_remote_calls (remote_calls e ++ calls_of cb (qweb (inst w))) e) w).
Proof.
  unfold calls_of, first_available.
  destruct cb; cbn [candidates arguments local_entry run_callback];
    (destruct (qweb (inst w)) as [p|];
     [ rewrite ?filter_cons, ?filter_nil, ?has_method_decide;
       repeat (destruct (decide (_ ∈ methods p))); cbn [head]
     | ]);
    rewrite ?on_env_id; try reflexivity;
    unfold _onStreamingStateChange, _onRecordingStateChange;
    cbn [on_env inst env invoke isStreaming isRecording];
    try (destruct (isStreaming (inst w))); try (destruct (isRecording (inst w)));
    reflexivity.
Qed.

End ActionFacts.

(** ** The timers of a reachable world *)

Module Reach.
Import TimerFacts.

(** Closes a goal [ticks_owned (f w)] for an [f] that leaves the
    intervals and the two timer fields alone. *)
Ltac same_ticks :=
  match goal with
  | H : ticks_owned ?w |- ticks_owned _ =>
      apply (ticks_owned_view w); [reflexivity | exact H]
  end.

Lemma constructed_owned (t0 : Z) : ticks_owned (constructed t0).
Proof. apply Forall_nil_2. Qed.

Lemma stop_owned (k : TickKind) (w : World) : ticks_owned w -> ticks_owned (stop k w).
Proof.
  intros H. destruct k; cbn [stop]; unfold _stopRecording, _stopStreaming.
  - assert (H0 : ticks_owned (on_inst (set_isRecording false) w)) by same_ticks.
    apply (stopTimer_owned RecordTick) in H0 as (H0 & _). same_ticks.
  - assert (H0 : ticks_owned (on_inst (set_isStreaming false) w)) by same_ticks.
    apply (stopTimer_owned StreamTick) in H0 as (H0 & _). same_ticks.
Qed.

Lemma onStateChange_owned (k : TickKind) (b : bool) (w : World) :
  ticks_owned w -> ticks_owned (onStateChange k b w).
Proof.
  intros H.
  destruct k; cbn [onStateChange];
    unfold _onRecordingStateChange, _onStreamingStateChange;
    repeat match goal with |- context [if ?c then _ else _] => destruct c end;
    try assumption.
  - now apply (start_owned RecordTick).
  - now apply (stop_owned RecordTick).
  - now apply (start_owned StreamTick).
  - now apply (stop_owned StreamTick).
Qed.

Lemma run_callback_owned (cb : Callback) (w : World) :
  ticks_owned w -> ticks_owned (run_callback cb w).
Proof.
  intros H. rewrite ActionFacts.run_callback_split.
  set (calls := calls_of cb (qweb (inst w))).
  assert (H0 : ticks_owned
                 (on_env (fun e => set_remote_calls (remote_calls e ++ calls) e) w))
    by same_ticks.
  destruct cb; cbn [local_entry]; try assumption;
    first [ now apply (onStateChange_owned StreamTick)
          | now apply (onStateChange_owned RecordTick) ].
Qed.

Lemma ingestScenes_owned (a : option (list RawScene)) (w : World) :
  ticks_owned w -> ticks_owned (_ingestScenes a w).
Proof. intros H. same_ticks. Qed.

Lemma refreshScenes_owned (w : World) : ticks_owned w -> ticks_owned (_refreshScenes w).
Proof.
  intros H. unfold _refreshScenes.
  destruct (qweb (inst w)) as [p|]; [|assumption].
  destruct (has_method p "getScenes"); [same_ticks|].
  destruct (session_items p); same_ticks.
Qed.

Lemma connect_owned (o : Construction) (w : World) :
  ticks_owned w -> ticks_owned (_connect o w).
Proof.
  intros H. unfold _connect. destruct (ws (inst w)); destruct o; same_ticks.
Qed.

Lemma on_channel_owned (meld : option Proxy) (w : World) :
  ticks_owned w -> ticks_owned (on_channel meld w).
Proof.
  intros H. unfold on_channel. apply refreshScenes_owned.
  destruct meld as [p|]; cbn [fmap option_fmap option_map]; [|same_ticks].
  destruct (p_isRecording p), (p_isStreaming p);
    repeat first [ apply (onStateChange_owned StreamTick)
                 | apply (onStateChange_owned RecordTick) ];
    same_ticks.
Qed.

Lemma on_close_owned (w : World) : ticks_owned w -> ticks_owned (on_close w).
Proof.
  intros H. unfold on_close.
  assert (H0 : ticks_owned (updateStatus disconnected w)) by same_ticks.
  apply (stopTimer_owned RecordTick) in H0 as (H0 & _).
  apply (stopTimer_owned StreamTick) in H0 as (H0 & _).
  cbn [stopTimer] in H0. same_ticks.
Qed.

Lemma destroy_owned (w : World) : ticks_owned w -> ticks_owned (destroy w).
Proof.
  intros H. unfold destroy.
  apply (stopTimer_owned RecordTick) in H as (H & _).
  apply (stopTimer_owned StreamTick) in H as (H & _).
  cbn [stopTimer] in H.
  destruct (ws (inst (_stopStreamTimer (_stopRecordTimer w)))); [same_ticks | assumption].
Qed.

Section Steps.

Variable StringToNumber : string -> JsNumber.
Variable ObjectToNumber : nat -> JsNumber.

Lemma step_owned (ev : Event) (w w' : World) :
  step StringToNumber ObjectToNumber ev w = Some w' -> ticks_owned w -> ticks_owned w'.
Proof.
  intros Hstep H. destruct ev; cbn [step] in Hstep.
  - injection Hstep as <-. unfold init. apply connect_owned. same_ticks.
  - injection Hstep as <-. unfold configUpdated. apply connect_owned. same_ticks.
  - injection Hstep as <-. now apply destroy_owned.
  - destruct (socket_state k w) as [[]|]; try discriminate.
    injection Hstep as <-. unfold on_open. destruct o; same_ticks.
  - destruct (sockets (env w) !! k) as [s|]; [|discriminate].
    destruct (sock_state s), (sock_channel s); try discriminate.
    injection Hstep as <-. apply on_channel_owned. same_ticks.
  - destruct (socket_state k w) as [[]|]; try discriminate;
      injection Hstep as <-; apply on_close_owned; same_ticks.
  - destruct (socket_state k w); [|discriminate].
    injection Hstep as <-. same_ticks.
  - destruct (filter _ (timeouts (env w))) as [|t ?]; [discriminate|].
    destruct (due t w); [|discriminate].
    injection Hstep as <-. apply connect_owned. same_ticks.
  - destruct (filter _ (intervals (env w))) as [|iv ?]; [discriminate|].
    injection Hstep as <-. destruct (interval_kind iv); same_ticks.
  - destruct (sub_sceneChanged (env w)); [|discriminate].
    injection Hstep as <-. same_ticks.
  - destruct (sub_isRecordingChanged (env w)); [|discriminate].
    injection Hstep as <-. unfold on_isRecordingChanged.
    match goal with |- ticks_owned (match qweb (inst ?w0) with _ => _ end) =>
      assert (H0 : ticks_owned w0) by same_ticks; destruct (qweb (inst w0))
    end; [|assumption].
    now apply (onStateChange_owned RecordTick).
  - destruct (sub_isStreamingChanged (env w)); [|discriminate].
    injection Hstep as <-. unfold on_isStreamingChanged.
    match goal with |- ticks_owned (match qweb (inst ?w0) with _ => _ end) =>
      assert (H0 : ticks_owned w0) by same_ticks; destruct (qweb (inst w0))
    end; [|assumption].
    now apply (onStateChange_owned StreamTick).
  - destruct (pending_getScenes (env w)); [discriminate|].
    injection Hstep as <-. apply ingestScenes_owned. same_ticks.
  - destruct (actions (env w) !! key); [|discriminate].
    injection Hstep as <-. now apply run_callback_owned.
  - destruct (0 <=? dt); [|discriminate].
    injection Hstep as <-. same_ticks.
Qed.

Lemma run_owned (evs : list Event) (w w' : World) :
  run StringToNumber ObjectToNumber evs w = Some w' -> ticks_owned w -> ticks_owned w'.
Proof.
  revert w. induction evs as [|ev evs IH]; intros w Hrun H; cbn [run] in Hrun.
  - now injection Hrun as <-.
  - destruct (step StringToNumber ObjectToNumber ev w) as [w1|] eqn:E; [|discriminate].
    apply (IH w1); [assumption|]. now apply (step_owned ev w).
Qed.

(** In a reachable world every active interval is the one its timer
    field refers to: at most one per kind. *)
Lemma reachable_owned (w : World) :
  reachable StringToNumber ObjectToNumber w -> ticks_owned w.
Proof.
  intros (t0 & evs & Hrun). apply (run_owned evs (constructed t0)); [assumption|].
  apply constructed_owned.
Qed.

End Steps.

End Reach.

(** ** Starting twice *)

Lemma onStateChange_redundant (k : TickKind) (w : World) :
  active k w = true -> onStateChange k true w = w.
Proof.
  destruct k; cbn [active onStateChange];
    unfold _onRecordingStateChange, _onStreamingStateChange; now intros ->.
Qed.

Lemma start_keeps_clock (k : TickKind) (w : World) : Date_now (start k w) = Date_now w.
Proof.
  destruct k; cbn [start]; unfold _startRecording, _startStreaming, _stopRecordTimer,
    _stopStreamTimer; cbn.
  - now destruct (recordTimer (inst w)).
  - now destruct (streamTimer (inst w)).
Qed.

(** C3, as the code has it.  In a world whose intervals are the ones
    the timer fields refer to, a second call of the start operation
    without a stop in between leaves exactly one tick source of its
    kind, and the start timestamp is the clock reading of the second
    call.  The callers guard the operation: a redundant state change
    notification and the start action while already active do not call
    it, and there the timestamp and the tick source of the first start
    stay. *)
Theorem start_twice_one_tick_source (k : TickKind) (w : World) (dt : Z) :
  ticks_owned w ->
  let once := elapse dt (start k w) in
  let twice := start k once in
  length (ticking k once) = 1%nat /\
  length (ticking k twice) = 1%nat /\
  start_of k once = Some (Date_now w) /\
  start_of k twice = Some (Date_now w + dt) /\
  onStateChange k true once = once /\
  start_of k (run_callback (start_action k) once) = Some (Date_now w) /\
  ticking k (run_callback (start_action k) once) = ticking k once.
Proof.
  intros Hown once twice.
  destruct (TimerFacts.start_owned k w Hown) as (Hown1 & Htick1 & _ & Hstart1 & Hact1).
  assert (Hown_once : ticks_owned once).
  { apply (TimerFacts.ticks_owned_view (start k w)); [reflexivity | assumption]. }
  destruct (TimerFacts.start_owned k once Hown_once) as (_ & Htick2 & _ & Hstart2 & _).
  assert (Hact_once : active k once = true) by (rewrite <- Hact1; now destruct k).
  assert (Hredundant : onStateChange k true once = once)
    by now apply onStateChange_redundant.
  split. { change (ticking k once) with (ticking k (start k w)). now rewrite Htick1. }
  split. { unfold twice. now rewrite Htick2. }
  split. { rewrite <- Hstart1. now destruct k. }
  split.
  { unfold twice. rewrite Hstart2. f_equal.
    change (Date_now once) with (Date_now (start k w) + dt).
    now rewrite start_keeps_clock. }
  split; [assumption|].
  rewrite ActionFacts.run_callback_split.
  assert (Hlocal : forall w0, local_entry (start_action k) w0 = onStateChange k true w0)
    by now destruct k.
  rewrite Hlocal.
  set (w0 := on_env _ once).
  assert (Hact0 : active k w0 = true) by (rewrite <- Hact_once; now destruct k).
  rewrite (onStateChange_redundant k w0 Hact0).
  split; [|reflexivity].
  rewrite <- Hstart1. now destruct k.
Qed.

Lemma start_twice_one_tick_source_witness :
  ticks_owned (constructed 1000) /\
  length (ticking RecordTick (_startRecording started_once)) = 1%nat /\
  recordStart (inst (_startRecording started_once)) = Some (1000 + 4000).
Proof.
  assert (Hown : ticks_owned (constructed 1000))
    by (apply (bool_decide_unpack (ticks_owned (constructed 1000))); vm_compute; exact I).
  pose proof (start_twice_one_tick_source RecordTick (constructed 1000) 4000 Hown) as H.
  split; [exact Hown|].
  split; [exact (proj1 (proj2 H)) | exact (proj1 (proj2 (proj2 (proj2 H))))].
Defined.

(** C3 as stated fails: the second call takes a new timestamp, and the
    next tick publishes the time since the second call where a single
    start would publish the time since the first. *)
Lemma start_twice_resets_timestamp :
  recordStart (inst started_once) = Some 1000 /\
  recordStart (inst (_startRecording started_once)) = Some 5000 /\
  variables (env (tick RecordTick (elapse 1000 started_once))) !! "recording_timecode"
    = Some "00:00:05" /\
  variables (env (tick RecordTick (elapse 1000 (_startRecording started_once))))
    !! "recording_timecode"
    = Some "00:00:01".
Proof. by_evaluation. Qed.

(** ** The close event *)

Module CloseFacts.

Lemma stopTimer_sub (k : TickKind) (w : World) (iv : Interval) :
  iv ∈ intervals (env (stopTimer k w)) -> iv ∈ intervals (env w).
Proof.
  destruct k; cbn [stopTimer]; unfold _stopRecordTimer, _stopStreamTimer.
  - destruct (recordTimer (inst w)); [|trivial]. cbn.
    rewrite list_elem_of_filter. tauto.
  - destruct (streamTimer (inst w)); [|trivial]. cbn.
    rewrite list_elem_of_filter. tauto.
Qed.

(** What the close handler changes, field by field. *)
Lemma on_close_frame (w : World) :
  status (env (on_close w)) = Some disconnected /\
  recordTimer (inst (on_close w)) = None /\
  streamTimer (inst (on_close w)) = None /\
  variables (env (on_close w)) = variables (env w) /\
  qweb (inst (on_close w)) = qweb (inst w) /\
  remote_calls (env (on_close w)) = remote_calls (env w) /\
  timeouts (env (on_close w))
    = timeouts (env w)
      ++ [{| timeout_id := next_timer (env w); timeout_set_at := Date_now w;
             timeout_delay := 3000 |}].
Proof.
  destruct w as [[? ? ? ? ? ? ? ? ? rt st] e].
  unfold on_close, _stopRecordTimer, _stopStreamTimer.
  destruct rt, st; cbn; repeat split; reflexivity.
Qed.

Lemma on_close_no_ticks (w : World) :
  ticks_owned w -> intervals (env (on_close w)) = [].
Proof.
  intros Hown.
  assert (H0 : ticks_owned (updateStatus disconnected w)).
  { apply (TimerFacts.ticks_owned_view w); [reflexivity | assumption]. }
  destruct (TimerFacts.stopTimer_owned RecordTick _ H0) as (H1 & Hrec & _).
  destruct (TimerFacts.stopTimer_owned StreamTick _ H1) as (_ & Hstr & _).
  cbn [stopTimer] in *.
  change (intervals (env (on_close w)))
    with (intervals (env (_stopStreamTimer (_stopRecordTimer (updateStatus disconnected w))))).
  destruct (intervals (env (_stopStreamTimer _))) as [|iv l] eqn:E; [reflexivity|].
  exfalso.
  assert (Hin : iv ∈ intervals
                  (env (_stopStreamTimer (_stopRecordTimer (updateStatus disconnected w)))))
    by (rewrite E; left).
  destruct (interval_kind iv) eqn:Hk.
  - apply (stopTimer_sub StreamTick) in Hin.
    exact (filter_nil_not_elem_of _ _ iv Hrec Hk Hin).
  - exact (filter_nil_not_elem_of _ _ iv Hstr Hk Hin).
Qed.

Lemma step_close (S2N : string -> JsNumber) (O2N : nat -> JsNumber)
      (k : nat) (w w' : World) :
  step S2N O2N (EvClose k) w = Some w' ->
  w' = on_close (set_socket_state k CLOSED w).
Proof.
  cbn [step]. destruct (socket_state k w) as [[]|]; intros H; now inversion H.
Qed.

End CloseFacts.

(** C9.  When the close event of a socket fires in a reachable world,
    the status becomes [disconnected], no periodic tick is left active
    and both timer fields are cleared, while every published variable,
    [recording_timecode] and [streaming_timecode] among them, keeps its
    value; an explicit stop of a timer does publish ["00:00:00"]. *)
Theorem close_stops_ticks_keeps_timecodes
        (S2N : string -> JsNumber) (O2N : nat -> JsNumber)
        (k : nat) (w w' : World) :
  reachable S2N O2N w ->
  step S2N O2N (EvClose k) w = Some w' ->
  status (env w') = Some disconnected /\
  intervals (env w') = [] /\
  recordTimer (inst w') = None /\
  streamTimer (inst w') = None /\
  variables (env w') = variables (env w) /\
  variables (env (_stopRecording w)) !! "recording_timecode" = Some "00:00:00" /\
  variables (env (_stopStreaming w)) !! "streaming_timecode" = Some "00:00:00".
Proof.
  intros Hreach Hstep. apply CloseFacts.step_close in Hstep as ->.
  apply Reach.reachable_owned in Hreach.
  assert (Hown : ticks_owned (set_socket_state k CLOSED w)).
  { apply (TimerFacts.ticks_owned_view w); [reflexivity | assumption]. }
  destruct (CloseFacts.on_close_frame (set_socket_state k CLOSED w))
    as (Hst & Hrec & Hstr & Hvars & _).
  split; [assumption|]. split; [now apply CloseFacts.on_close_no_ticks|].
  split; [assumption|]. split; [assumption|]. split; [exact Hvars|].
  split.
  - unfold _stopRecording, setVariableValues. cbn. apply lookup_insert_eq.
  - unfold _stopStreaming, setVariableValues. cbn. apply lookup_insert_eq.
Qed.

Lemma close_stops_ticks_keeps_timecodes_witness :
  variables (env recording_world) !! "recording_timecode" = Some "00:00:05" /\
  length (intervals (env recording_world)) = 1%nat /\
  intervals (env (on_close (set_socket_state 0 CLOSED recording_world))) = [] /\
  variables (env (on_close (set_socket_state 0 CLOSED recording_world)))
    = variables (env recording_world).
Proof.
  assert (Hreach : reachable StringToNumber_digits ObjectToNumber_plain recording_world).
  { exists 1000, recording_run. vm_compute. reflexivity. }
  assert (Hstep : step StringToNumber_digits ObjectToNumber_plain (EvClose 0)
                       recording_world
                  = Some (on_close (set_socket_state 0 CLOSED recording_world))).
  { vm_compute. reflexivity. }
  pose proof (close_stops_ticks_keeps_timecodes _ _ 0 _ _ Hreach Hstep) as H.
  split; [vm_compute; reflexivity|]. split; [vm_compute; reflexivity|].
  split; [exact (proj1 (proj2 H)) | exact (proj1 (proj2 (proj2 (proj2 (proj2 H)))))].
Defined.

(** ** Reconnect scheduling *)

Module ReconnectFacts.

Section Closes.

Variable StringToNumber : string -> JsNumber.
Variable ObjectToNumber : nat -> JsNumber.

Lemma step_close_timeouts (k : nat) (w w' : World) :
  step StringToNumber ObjectToNumber (EvClose k) w = Some w' ->
  timeouts (env w')
  = timeouts (env w)
    ++ [{| timeout_id := next_timer (env w); timeout_set_at := Date_now w;
           timeout_delay := 3000 |}].
Proof.
  intros H. apply CloseFacts.step_close in H as ->.
  now destruct (CloseFacts.on_close_frame (set_socket_state k CLOSED w))
    as (_ & _ & _ & _ & _ & _ & ->).
Qed.

(** Close events one after the other, nothing in between: each adds a
    pending reconnect. *)
Lemma closes_accumulate (ks : list nat) (w w' : World) :
  run StringToNumber ObjectToNumber (EvClose <$> ks) w = Some w' ->
  length (timeouts (env w')) = (length (timeouts (env w)) + length ks)%nat.
Proof.
  revert w. induction ks as [|k ks IH]; intros w Hrun.
  - injection Hrun as <-. cbn. lia.
  - cbn [fmap list_fmap run] in Hrun.
    destruct (step StringToNumber ObjectToNumber (EvClose k) w) as [w1|] eqn:E;
      [|discriminate].
    apply IH in Hrun. apply step_close_timeouts in E.
    rewrite Hrun, E, length_app. cbn. lia.
Qed.

End Closes.

End ReconnectFacts.

(** C1, as the code has it.  A close event schedules exactly one
    reconnect, due 3000 ms after the event, and keeps the reconnects
    that are pending: the handler has no handle on them.  So every
    further close event before a reconnect fires adds one more, and a
    sequence of [n] close events leaves [n] more reconnects outstanding
    than before. *)
Theorem close_schedules_one_more_reconnect
        (S2N : string -> JsNumber) (O2N : nat -> JsNumber)
        (k : nat) (ks : list nat) (w w1 w' : World) :
  step S2N O2N (EvClose k) w = Some w1 ->
  run S2N O2N (EvClose <$> ks) w1 = Some w' ->
  let t := {| timeout_id := next_timer (env w); timeout_set_at := Date_now w;
              timeout_delay := 3000 |} in
  timeouts (env w1) = timeouts (env w) ++ [t] /\
  (forall later : World, due t later = true <-> Date_now w + 3000 <= Date_now later) /\
  length (timeouts (env w')) = (length (timeouts (env w)) + 1 + length ks)%nat.
Proof.
  intros Hstep Hrun t.
  pose proof (ReconnectFacts.step_close_timeouts S2N O2N k w w1 Hstep) as H1.
  split; [exact H1|]. split.
  - intros later. unfold due, t. cbn. apply Z.leb_le.
  - rewrite (ReconnectFacts.closes_accumulate S2N O2N ks w1 w' Hrun), H1, length_app.
    reflexivity.
Qed.

Lemma close_schedules_one_more_reconnect_witness :
  timeouts (env (on_close (set_socket_state 0 CLOSED open_world)))
  = [{| timeout_id := 0; timeout_set_at := 1000; timeout_delay := 3000 |}].
Proof.
  assert (Hstep : step StringToNumber_digits ObjectToNumber_plain (EvClose 0) open_world
                  = Some (on_close (set_socket_state 0 CLOSED open_world)))
    by (vm_compute; reflexivity).
  assert (Hrun : run StringToNumber_digits ObjectToNumber_plain (EvClose <$> [])
                     (on_close (set_socket_state 0 CLOSED open_world))
                 = Some (on_close (set_socket_state 0 CLOSED open_world)))
    by reflexivity.
  exact (proj1 (close_schedules_one_more_reconnect _ _ 0 [] _ _ _ Hstep Hrun)).
Defined.

(** C1 as stated fails: after the second close event, one second after
    the first, two reconnects are outstanding, neither of them due. *)
Lemma two_reconnects_outstanding :
  run StringToNumber_digits ObjectToNumber_plain two_closes_run (constructed 1000)
    = Some two_closes_world /\
  timeouts (env two_closes_world)
    = [ {| timeout_id := 0; timeout_set_at := 1000; timeout_delay := 3000 |};
        {| timeout_id := 1; timeout_set_at := 2000; timeout_delay := 3000 |} ] /\
  Date_now two_closes_world = 2000 /\
  forallb (fun t => negb (due t two_closes_world)) (timeouts (env two_closes_world))
    = true.
Proof. by_evaluation. Qed.

(** ** The proxy reference after a disconnect *)

Lemma destroy_keeps_proxy (w : World) :
  qweb (inst (destroy w)) = qweb (inst w) /\
  remote_calls (env (destroy w)) = remote_calls (env w).
Proof.
  destruct w as [[s ? ? ? ? ? ? ? ? rt st] e].
  unfold destroy, _stopRecordTimer, _stopStreamTimer.
  destruct rt, st, s; cbn; split; reflexivity.
Qed.

Lemma run_callback_calls (cb : Callback) (w : World) :
  remote_calls (env (run_callback cb w))
  = remote_calls (env w) ++ calls_of cb (qweb (inst w)).
Proof.
  rewrite ActionFacts.run_callback_split.
  set (w0 := on_env _ w).
  change (remote_calls (env w) ++ calls_of cb (qweb (inst w)))
    with (remote_calls (env w0)).
  destruct cb; cbn [local_entry]; try reflexivity;
    unfold _onStreamingStateChange, _onRecordingStateChange;
    repeat match goal with |- context [if ?c then _ else _] => destruct c end;
    try reflexivity;
    unfold _startStreaming, _stopStreaming, _startRecording, _stopRecording,
      _stopRecordTimer, _stopStreamTimer; cbn;
    try (destruct (recordTimer (inst w))); try (destruct (streamTimer (inst w)));
    reflexivity.
Qed.

(** C2, as the code has it.  Neither the close handler nor teardown
    touches the reference to the remote root proxy: after a disconnect
    it is what it was before, absent only if no proxy had been bound.
    An action callback that fires afterwards sends exactly the calls it
    would have sent before the disconnect: none when it finds no proxy,
    and otherwise the call on the proxy that is still referenced. *)
Theorem disconnect_keeps_proxy_reference
        (S2N : string -> JsNumber) (O2N : nat -> JsNumber)
        (k : nat) (w w' : World) (cb : Callback) :
  step S2N O2N (EvClose k) w = Some w' ->
  qweb (inst w') = qweb (inst w) /\
  qweb (inst (destroy w)) = qweb (inst w) /\
  remote_calls (env (run_callback cb w'))
    = remote_calls (env w) ++ calls_of cb (qweb (inst w)) /\
  remote_calls (env (run_callback cb (destroy w)))
    = remote_calls (env w) ++ calls_of cb (qweb (inst w)) /\
  calls_of cb None = [].
Proof.
  intros Hstep. apply CloseFacts.step_close in Hstep as ->.
  destruct (CloseFacts.on_close_frame (set_socket_state k CLOSED w))
    as (_ & _ & _ & _ & Hq & Hcalls & _).
  destruct (destroy_keeps_proxy w) as (Hq' & Hcalls').
  split; [exact Hq|]. split; [exact Hq'|].
  rewrite !run_callback_calls, Hq, Hcalls, Hq', Hcalls'. repeat split.
Qed.

Lemma disconnect_keeps_proxy_reference_witness :
  qweb (inst (on_close (set_socket_state 0 CLOSED bound_world))) = qweb (inst bound_world).
Proof.
  assert (Hstep : step StringToNumber_digits ObjectToNumber_plain (EvClose 0) bound_world
                  = Some (on_close (set_socket_state 0 CLOSED bound_world)))
    by (vm_compute; reflexivity).
  exact (proj1 (disconnect_keeps_proxy_reference _ _ 0 _ _ CbToggleRecord Hstep)).
Defined.

(** C2 as stated fails: after the close event, and after teardown, the
    reference still holds the proxy, and the toggle action invokes
    [toggleRecord] on it. *)
Lemma stale_proxy_still_called :
  run StringToNumber_digits ObjectToNumber_plain pressed_after_close_run (constructed 1000)
    = Some (run_from 1000 pressed_after_close_run) /\
  run StringToNumber_digits ObjectToNumber_plain pressed_after_destroy_run
      (constructed 1000)
    = Some (run_from 1000 pressed_after_destroy_run) /\
  methods <$> qweb (inst closed_world) = Some {["toggleRecord"]} /\
  methods <$> qweb (inst torn_down_world) = Some {["toggleRecord"]} /\
  remote_calls (env closed_world) = [] /\
  remote_calls (env torn_down_world) = [] /\
  remote_calls (env (run_from 1000 pressed_after_close_run))
    = [{| call_method := "toggleRecord"; call_args := [] |}] /\
  remote_calls (env (run_from 1000 pressed_after_destroy_run))
    = [{| call_method := "toggleRecord"; call_args := [] |}].
Proof. by_evaluation. Qed.

(** ** Record and stream actions *)

Lemma onStateChange_active (k : TickKind) (b : bool) (w : World) :
  active k (onStateChange k b w) = b.
Proof.
  destruct w as [[? ? ? ? ? r s ? ? rt st] e].
  destruct k, b; cbn [onStateChange active];
    unfold _onRecordingStateChange, _onStreamingStateChange; cbn [inst isRecording isStreaming].
  - destruct r; [reflexivity|]. unfold _startRecording, _stopRecordTimer.
    destruct rt; reflexivity.
  - destruct r; [|reflexivity]. unfold _stopRecording, _stopRecordTimer.
    destruct rt; reflexivity.
  - destruct s; [reflexivity|]. unfold _startStreaming, _stopStreamTimer.
    destruct st; reflexivity.
  - destruct s; [|reflexivity]. unfold _stopStreaming, _stopStreamTimer.
    destruct st; reflexivity.
Qed.

(** C7, as the code has it.  Every action callback is a remote half
    followed by a local half.  The remote half sends one call of the
    first method the bound proxy has among the names the action tries:
    two names for the toggles ([toggleStream] then [toggleStreaming],
    [toggleRecord] then [toggleRecording]), a single name without
    fallback for start and stop; nothing is sent without a proxy or
    without such a method.  The local half does not depend on the
    remote half: it is the state change handler the remote signals use,
    called with the state the action asks for, so a toggle always flips
    the local state, while start does nothing locally when already
    active and stop nothing when already inactive. *)
Theorem action_remote_then_local (cb : Callback) (w : World) :
  run_callback cb w
    = local_entry cb
        (on_env (fun e =>
           set_remote_calls (remote_calls e ++ calls_of cb (qweb (inst w))) e) w) /\
  remote_calls (env (run_callback cb w))
    = remote_calls (env w) ++ calls_of cb (qweb (inst w)) /\
  calls_of cb None = [] /\
  candidates CbToggleStream = ["toggleStream"; "toggleStreaming"] /\
  candidates CbToggleRecord = ["toggleRecord"; "toggleRecording"] /\
  candidates CbStartStream = ["startStream"] /\
  candidates CbStopStream = ["stopStream"] /\
  candidates CbStartRecord = ["startRecord"] /\
  candidates CbStopRecord = ["stopRecord"] /\
  isStreaming (inst (run_callback CbToggleStream w)) = negb (isStreaming (inst w)) /\
  isStreaming (inst (run_callback CbStartStream w)) = true /\
  isStreaming (inst (run_callback CbStopStream w)) = false /\
  isRecording (inst (run_callback CbToggleRecord w)) = negb (isRecording (inst w)) /\
  isRecording (inst (run_callback CbStartRecord w)) = true /\
  isRecording (inst (run_callback CbStopRecord w)) = false.
Proof.
  split; [apply ActionFacts.run_callback_split|].
  split; [apply run_callback_calls|].
  do 7 (split; [reflexivity|]).
  rewrite !ActionFacts.run_callback_split. cbn [local_entry].
  repeat split.
  - apply (onStateChange_active StreamTick).
  - apply (onStateChange_active StreamTick).
  - apply (onStateChange_active StreamTick).
  - apply (onStateChange_active RecordTick).
  - apply (onStateChange_active RecordTick).
  - apply (onStateChange_active RecordTick).
Qed.

(** C7 as stated fails.  With a proxy that has [startRecording] and
    [stopRecording] but not [startRecord] and [stopRecord], the start
    and stop actions send nothing: they have no alternate name.  And
    the start action while recording does not go through the start
    operation, which would take a new timestamp. *)
Lemma start_stop_have_no_fallback :
  remote_calls (env (run_callback CbStartRecord long_names_world)) = [] /\
  remote_calls (env (run_callback CbStopRecord
                       (elapse 4000 (_startRecording long_names_world)))) = [] /\
  remote_calls (env (run_callback CbToggleRecord long_names_world))
    = [{| call_method := "toggleRecord"; call_args := [] |}] /\
  recordStart (inst (run_callback CbStartRecord started_once)) = Some 1000 /\
  recordStart (inst (_startRecording started_once)) = Some 5000.
Proof. by_evaluation. Qed.

(** ** Scene discovery *)

(** C8, as the code has it.  When the refresh runs against a bound
    proxy that has neither [getScenes] nor [session.items], the only
    effect is one warning in the log: the scene set is left as it was
    (empty only if it was empty), nothing else changes and nothing is
    thrown. *)
Theorem refreshScenes_without_discovery (w : World) (p : Proxy) :
  qweb (inst w) = Some p ->
  "getScenes" ∉ methods p ->
  session_items p = None ->
  _refreshScenes w = log_message warn MsgNoSceneDiscovery w /\
  scenes (inst (_refreshScenes w)) = scenes (inst w) /\
  inst (_refreshScenes w) = inst w /\
  log (env (_refreshScenes w)) = log (env w) ++ [(warn, MsgNoSceneDiscovery)].
Proof.
  intros Hq Hm Hs.
  assert (E : _refreshScenes w = log_message warn MsgNoSceneDiscovery w).
  { unfold _refreshScenes. rewrite Hq. unfold has_method.
    rewrite bool_decide_eq_false_2 by assumption. now rewrite Hs. }
  rewrite E. repeat split.
Qed.

Lemma refreshScenes_without_discovery_witness :
  scenes (inst (_refreshScenes rediscovery_world)) = scenes (inst rediscovery_world).
Proof.
  assert (Hq : qweb (inst rediscovery_world) = Some (proxy_with [] (JBool false)))
    by (vm_compute; reflexivity).
  assert (Hm : "getScenes" ∉ methods (proxy_with [] (JBool false))).
  { cbn. apply not_elem_of_empty. }
  exact (proj1 (proj2 (refreshScenes_without_discovery _ _ Hq Hm eq_refl))).
Defined.

(** C8 as stated fails: the scene of the first connection is still in
    the registry after the refresh that could not discover anything. *)
Lemma undiscovered_scenes_stay :
  run StringToNumber_digits ObjectToNumber_plain rediscovery_run (constructed 1000)
    = Some rediscovery_world /\
  scenes (inst rediscovery_world) !! "A" = Some {| id := "A"; name := "Cam" |} /\
  last (log (env rediscovery_world)) = Some (warn, MsgNoSceneDiscovery).
Proof. by_evaluation. Qed.

(** ** Configuration *)

(** C10, as the code has it.  [init] and [configUpdated] store the same
    effective configuration.  Its host is the given host when that
    value is truthy, and ["127.0.0.1"] otherwise: a non-empty string is
    kept and a missing host or an empty string gives the default, but a
    truthy value that is not a string (a non-zero number, [true], an
    object) is kept as it is.  Its port is [Number(port)] when that
    number is neither zero nor NaN, whatever its range, and 13376
    otherwise. *)
Theorem effective_config_defaults
        (S2N : string -> JsNumber) (O2N : nat -> JsNumber)
        (c : option ConfigInput) (o : Construction) (w : World) :
  let given_host := match c with Some c => in_host c | None => JUndefined end in
  let given_port := match c with Some c => in_port c | None => JUndefined end in
  let cfg := effective_config S2N O2N c in
  config (inst (init S2N O2N c o w)) = cfg /\
  config (inst (configUpdated S2N O2N c o w)) = cfg /\
  host cfg = match given_host with
             | JStr s => if decide (s = "") then JStr "127.0.0.1" else JStr s
             | JUndefined | JNull | JBool false | JNum NaN => JStr "127.0.0.1"
             | JNum (Int z) => if decide (z = 0) then JStr "127.0.0.1" else JNum (Int z)
             | other => other
             end /\
  port cfg = match ToNumber S2N O2N given_port with
             | NaN => Int 13376
             | Int z => if decide (z = 0) then Int 13376 else Int z
             | infinite => infinite
             end /\
  ToNumber S2N O2N JUndefined = NaN.
Proof.
  intros given_host given_port cfg.
  assert (Hinit : config (inst (init S2N O2N c o w)) = cfg).
  { unfold init, _connect. cbn. destruct (ws (inst w)), o; reflexivity. }
  assert (Hupd : config (inst (configUpdated S2N O2N c o w)) = cfg).
  { unfold configUpdated, _connect. cbn. destruct (ws (inst w)), o; reflexivity. }
  split; [exact Hinit|]. split; [exact Hupd|]. split; [|split; [|reflexivity]].
  - unfold cfg, effective_config. cbn [host].
    change (from_option in_host JUndefined c) with given_host.
    destruct given_host as [| |[]|[| | |z]|s|h]; cbn; try reflexivity.
    + destruct (decide (z = 0)) as [-> | Hz]; [reflexivity|].
      apply Z.eqb_neq in Hz. now rewrite Hz.
    + destruct (decide (s = "")) as [-> | Hs]; [reflexivity|].
      apply String.eqb_neq in Hs. now rewrite Hs.
  - unfold cfg, effective_config. cbn [port].
    change (from_option in_port JUndefined c) with given_port.
    destruct (ToNumber S2N O2N given_port) as [| | |z]; cbn; try reflexivity.
    destruct (decide (z = 0)) as [-> | Hz]; [reflexivity|].
    apply Z.eqb_neq in Hz. now rewrite Hz.
Qed.

(** C10 as stated fails for a host that is truthy and not a string: it
    is kept, where the claim puts the default. *)
Lemma numeric_host_is_kept :
  config (inst (init StringToNumber_digits ObjectToNumber_plain numeric_host Built
                     (constructed 1000)))
    = {| host := JNum (Int 42); port := Int 13376 |} /\
  host (config (inst (init StringToNumber_digits ObjectToNumber_plain numeric_host Built
                           (constructed 1000))))
    <> JStr "127.0.0.1".
Proof. split; [vm_compute; reflexivity|]. vm_compute. discriminate. Qed.

(** * Further properties *)

(** ** The timer engine *)

Module TimerMore.
Import TimerFacts.

Lemma onStateChange_redundant_false (k : TickKind) (w : World) :
  active k w = false -> onStateChange k false w = w.
Proof.
  destruct k; cbn [active onStateChange];
    unfold _onRecordingStateChange, _onStreamingStateChange; now intros ->.
Qed.

Lemma ticking_sub (k k' : TickKind) (w : World) :
  (length (ticking k' (stopTimer k w)) <= length (ticking k' w))%nat.
Proof.
  assert (H : intervals (env (stopTimer k w)) = intervals (env w) \/
              exists i, intervals (env (stopTimer k w))
                        = filter (fun iv => interval_id iv <> i) (intervals (env w))).
  { destruct k; cbn [stopTimer]; unfold _stopRecordTimer, _stopStreamTimer.
    - destruct (recordTimer (inst w)) as [i|]; [right; now exists i | now left].
    - destruct (streamTimer (inst w)) as [i|]; [right; now exists i | now left]. }
  unfold ticking. destruct H as [-> | (i & ->)]; [reflexivity|].
  rewrite list_filter_filter.
  rewrite (list_filter_iff _ (fun iv => interval_id iv <> i /\ interval_kind iv = k')) by tauto.
  rewrite <- list_filter_filter. apply length_filter.
Qed.

Lemma stopTimer_flags (k k' : TickKind) (w : World) :
  active k' (stopTimer k w) = active k' w /\
  (k' <> k -> owner k' (stopTimer k w) = owner k' w) /\
  start_of k' (stopTimer k w) = start_of k' w /\
  variables (env (stopTimer k w)) = variables (env w) /\
  Date_now (stopTimer k w) = Date_now w.
Proof.
  destruct w as [[? ? ? ? ? ? ? ? ? rt st] e].
  destruct k, k'; cbn [stopTimer]; unfold _stopRecordTimer, _stopStreamTimer; cbn;
    destruct rt, st; cbn; repeat split; first [reflexivity | intros H; now destruct H].
Qed.

Lemma stopTimer_periods (k : TickKind) (w : World) :
  Forall (fun iv => interval_period iv = 1000) (intervals (env w)) ->
  Forall (fun iv => interval_period iv = 1000) (intervals (env (stopTimer k w))).
Proof.
  rewrite !Forall_forall. intros H iv Hin. apply H.
  now apply (CloseFacts.stopTimer_sub k).
Qed.

Lemma timers_tidy_view (w1 w2 : World) :
  timer_view w2 = timer_view w1 -> timers_tidy w1 -> timers_tidy w2.
Proof.
  unfold timer_view. intros E (Hown & Hper & Hk).
  injection E as Ei Er Es Ea Eb.
  split; [|split].
  - apply (ticks_owned_view w1); [|assumption]. unfold tick_view. congruence.
  - now rewrite Ei.
  - intros k. destruct (Hk k) as [Hlen Hoff]. unfold ticking. rewrite Ei.
    split; [exact Hlen|].
    destruct k; cbn [active owner] in *; rewrite ?Er, ?Es, ?Ea, ?Eb; exact Hoff.
Qed.

Lemma stopTimer_tidy (k : TickKind) (w : World) :
  timers_tidy w -> timers_tidy (stopTimer k w).
Proof.
  intros (Hown & Hper & Hk).
  destruct (stopTimer_owned k w Hown) as (Hown' & Hnone & Hoff).
  split; [assumption|]. split; [now apply stopTimer_periods|].
  intros k'. destruct (Hk k') as [Hlen Hinactive]. split.
  - pose proof (ticking_sub k k' w). lia.
  - destruct (stopTimer_flags k k' w) as (Ha & Ho & _). rewrite Ha. intros Hf.
    destruct (decide (k' = k)) as [-> | Hne]; [assumption|].
    rewrite Ho by assumption. now apply Hinactive.
Qed.

Lemma start_tidy (k : TickKind) (w : World) : timers_tidy w -> timers_tidy (start k w).
Proof.
  intros (Hown & Hper & Hk).
  destruct (start_owned k w Hown) as (Hown' & Htick & Hnew & _ & Hact).
  set (w0 := match k with
             | RecordTick =>
                 on_inst (set_recordStart (Some (Date_now w)))
                         (on_inst (set_isRecording true) w)
             | StreamTick =>
                 on_inst (set_streamStart (Some (Date_now w)))
                         (on_inst (set_isStreaming true) w)
             end).
  assert (Hshape :
    exists n,
      intervals (env (start k w))
        = intervals (env (stopTimer k w0))
          ++ [{| interval_id := n; interval_kind := k; interval_period := 1000 |}] /\
      forall k', k' <> k ->
        owner k' (start k w) = owner k' (stopTimer k w0) /\
        active k' (start k w) = active k' (stopTimer k w0)).
  { exists (next_timer (env (stopTimer k w0))). unfold w0.
    destruct k; cbn [start stopTimer];
      unfold _startRecording, _startStreaming, _stopRecordTimer, _stopStreamTimer; cbn.
    - destruct (recordTimer (inst w)); cbn; split; try reflexivity;
        intros [] Hk'; try congruence; now split.
    - destruct (streamTimer (inst w)); cbn; split; try reflexivity;
        intros [] Hk'; try congruence; now split. }
  destruct Hshape as (n & Hint & Hother).
  assert (Htidy0 : timers_tidy (stopTimer k w0)).
  { apply stopTimer_tidy. split; [|split].
    - apply (ticks_owned_view w); [unfold w0; now destruct k | assumption].
    - unfold w0. now destruct k.
    - intros k'. destruct (Hk k') as [Hlen Hoff]. split.
      + unfold w0. now destruct k.
      + unfold w0. destruct k, k'; cbn; try discriminate; exact Hoff. }
  destruct Htidy0 as (_ & Hper0 & Hk0).
  split; [assumption|]. split.
  - rewrite Hint. apply Forall_app. split; [assumption|]. now repeat constructor.
  - intros k'. destruct (decide (k' = k)) as [-> | Hne].
    + rewrite Htick, Hact. split; [cbn; lia | discriminate].
    + destruct (Hother k' Hne) as [Ho Ha]. destruct (Hk0 k') as [Hlen Hoff].
      rewrite Ho, Ha. split; [|assumption].
      unfold ticking. rewrite Hint, filter_app, filter_cons_False, filter_nil, app_nil_r
        by (cbn; congruence).
      exact Hlen.
Qed.

Lemma stop_tidy (k : TickKind) (w : World) : timers_tidy w -> timers_tidy (stop k w).
Proof.
  intros H. destruct k; cbn [stop]; unfold _stopRecording, _stopStreaming.
  - apply (timers_tidy_view (_stopRecordTimer (on_inst (set_isRecording false) w)));
      [reflexivity|].
    destruct H as (Hown & Hper & Hk).
    assert (Hown0 : ticks_owned (on_inst (set_isRecording false) w))
      by (apply (ticks_owned_view w); [reflexivity | assumption]).
    destruct (stopTimer_owned RecordTick _ Hown0) as (Hown1 & Hnone & Hoff).
    split; [assumption|].
    split; [apply (stopTimer_periods RecordTick); exact Hper|].
    intros k'. split.
    + pose proof (ticking_sub RecordTick k' (on_inst (set_isRecording false) w)) as Hs.
      destruct (Hk k') as [Hlen _]. unfold ticking in *. cbn in *. lia.
    + destruct (stopTimer_flags RecordTick k' (on_inst (set_isRecording false) w))
        as (Ha & Ho & _).
      cbn [stopTimer] in Ha, Ho. rewrite Ha. destruct k'; [intros _; exact Hoff|].
      rewrite Ho by discriminate. exact (proj2 (Hk StreamTick)).
  - apply (timers_tidy_view (_stopStreamTimer (on_inst (set_isStreaming false) w)));
      [reflexivity|].
    destruct H as (Hown & Hper & Hk).
    assert (Hown0 : ticks_owned (on_inst (set_isStreaming false) w))
      by (apply (ticks_owned_view w); [reflexivity | assumption]).
    destruct (stopTimer_owned StreamTick _ Hown0) as (Hown1 & Hnone & Hoff).
    split; [assumption|].
    split; [apply (stopTimer_periods StreamTick); exact Hper|].
    intros k'. split.
    + pose proof (ticking_sub StreamTick k' (on_inst (set_isStreaming false) w)) as Hs.
      destruct (Hk k') as [Hlen _]. unfold ticking in *. cbn in *. lia.
    + destruct (stopTimer_flags StreamTick k' (on_inst (set_isStreaming false) w))
        as (Ha & Ho & _).
      cbn [stopTimer] in Ha, Ho. rewrite Ha. destruct k'; [|intros _; exact Hoff].
      rewrite Ho by discriminate. exact (proj2 (Hk RecordTick)).
Qed.

End TimerMore.

Module TidyReach.
Import TimerMore.

(** Closes a goal [timers_tidy (f w)] for an [f] that leaves the
    intervals, the timer fields and the flags alone. *)
Ltac same_timers :=
  match goal with
  | H : timers_tidy ?w |- timers_tidy _ =>
      apply (timers_tidy_view w); [reflexivity | exact H]
  end.

Lemma constructed_tidy (t0 : Z) : timers_tidy (constructed t0).
Proof.
  split; [apply Forall_nil_2|]. split; [apply Forall_nil_2|].
  intros k. split; [cbn; lia | now destruct k].
Qed.

Lemma onStateChange_tidy (k : TickKind) (b : bool) (w : World) :
  timers_tidy w -> timers_tidy (onStateChange k b w).
Proof.
  intros H.
  destruct k; cbn [onStateChange];
    unfold _onRecordingStateChange, _onStreamingStateChange;
    repeat match goal with |- context [if ?c then _ else _] => destruct c end;
    try assumption.
  - now apply (start_tidy RecordTick).
  - now apply (stop_tidy RecordTick).
  - now apply (start_tidy StreamTick).
  - now apply (stop_tidy StreamTick).
Qed.

Lemma run_callback_tidy (cb : Callback) (w : World) :
  timers_tidy w -> timers_tidy (run_callback cb w).
Proof.
  intros H. rewrite ActionFacts.run_callback_split.
  set (calls := calls_of cb (qweb (inst w))).
  assert (H0 : timers_tidy
                 (on_env (fun e => set_remote_calls (remote_calls e ++ calls) e) w))
    by same_timers.
  destruct cb; cbn [local_entry]; try assumption;
    first [ now apply (onStateChange_tidy StreamTick)
          | now apply (onStateChange_tidy RecordTick) ].
Qed.

Lemma refreshScenes_tidy (w : World) : timers_tidy w -> timers_tidy (_refreshScenes w).
Proof.
  intros H. unfold _refreshScenes.
  destruct (qweb (inst w)) as [p|]; [|assumption].
  destruct (has_method p "getScenes"); [same_timers|].
  destruct (session_items p); same_timers.
Qed.

Lemma connect_tidy (o : Construction) (w : World) :
  timers_tidy w -> timers_tidy (_connect o w).
Proof. intros H. unfold _connect. destruct (ws (inst w)); destruct o; same_timers. Qed.

Lemma on_channel_tidy (meld : option Proxy) (w : World) :
  timers_tidy w -> timers_tidy (on_channel meld w).
Proof.
  intros H. unfold on_channel. apply refreshScenes_tidy.
  destruct meld as [p|]; cbn [fmap option_fmap option_map]; [|same_timers].
  destruct (p_isRecording p), (p_isStreaming p);
    repeat first [ apply (onStateChange_tidy StreamTick)
                 | apply (onStateChange_tidy RecordTick) ];
    same_timers.
Qed.

Lemma on_close_tidy (w : World) : timers_tidy w -> timers_tidy (on_close w).
Proof.
  intros H. unfold on_close.
  assert (H0 : timers_tidy (updateStatus disconnected w)) by same_timers.
  apply (stopTimer_tidy RecordTick) in H0. apply (stopTimer_tidy StreamTick) in H0.
  cbn [stopTimer] in H0. same_timers.
Qed.

Lemma destroy_tidy (w : World) : timers_tidy w -> timers_tidy (destroy w).
Proof.
  intros H. unfold destroy.
  apply (stopTimer_tidy RecordTick) in H. apply (stopTimer_tidy StreamTick) in H.
  cbn [stopTimer] in H.
  destruct (ws (inst (_stopStreamTimer (_stopRecordTimer w)))); [same_timers | assumption].
Qed.

Section Steps.

Variable StringToNumber : string -> JsNumber.
Variable ObjectToNumber : nat -> JsNumber.

Lemma step_tidy (ev : Event) (w w' : World) :
  step StringToNumber ObjectToNumber ev w = Some w' -> timers_tidy w -> timers_tidy w'.
Proof.
  intros Hstep H. destruct ev; cbn [step] in Hstep.
  - injection Hstep as <-. unfold init. apply connect_tidy. same_timers.
  - injection Hstep as <-. unfold configUpdated. apply connect_tidy. same_timers.
  - injection Hstep as <-. now apply destroy_tidy.
  - destruct (socket_state k w) as [[]|]; try discriminate.
    injection Hstep as <-. unfold on_open. destruct o; same_timers.
  - destruct (sockets (env w) !! k) as [s|]; [|discriminate].
    destruct (sock_state s), (sock_channel s); try discriminate.
    injection Hstep as <-. apply on_channel_tidy. same_timers.
  - destruct (socket_state k w) as [[]|]; try discriminate;
      injection Hstep as <-; apply on_close_tidy; same_timers.
  - destruct (socket_state k w); [|discriminate].
    injection Hstep as <-. same_timers.
  - destruct (filter _ (timeouts (env w))) as [|t ?]; [discriminate|].
    destruct (due t w); [|discriminate].
    injection Hstep as <-. apply connect_tidy. same_timers.
  - destruct (filter _ (intervals (env w))) as [|iv ?]; [discriminate|].
    injection Hstep as <-. destruct (interval_kind iv); same_timers.
  - destruct (sub_sceneChanged (env w)); [|discriminate].
    injection Hstep as <-. same_timers.
  - destruct (sub_isRecordingChanged (env w)); [|discriminate].
    injection Hstep as <-. unfold on_isRecordingChanged.
    match goal with |- timers_tidy (match qweb (inst ?w0) with _ => _ end) =>
      assert (H0 : timers_tidy w0) by same_timers; destruct (qweb (inst w0))
    end; [|assumption].
    now apply (onStateChange_tidy RecordTick).
  - destruct (sub_isStreamingChanged (env w)); [|discriminate].
    injection Hstep as <-. unfold on_isStreamingChanged.
    match goal with |- timers_tidy (match qweb (inst ?w0) with _ => _ end) =>
      assert (H0 : timers_tidy w0) by same_timers; destruct (qweb (inst w0))
    end; [|assumption].
    now apply (onStateChange_tidy StreamTick).
  - destruct (pending_getScenes (env w)); [discriminate|].
    injection Hstep as <-. same_timers.
  - destruct (actions (env w) !! key); [|discriminate].
    injection Hstep as <-. now apply run_callback_tidy.
  - destruct (0 <=? dt); [|discriminate].
    injection Hstep as <-. same_timers.
Qed.

Lemma run_tidy (evs : list Event) (w w' : World) :
  run StringToNumber ObjectToNumber evs w = Some w' -> timers_tidy w -> timers_tidy w'.
Proof.
  revert w. induction evs as [|ev evs IH]; intros w Hrun H; cbn [run] in Hrun.
  - now injection Hrun as <-.
  - destruct (step StringToNumber ObjectToNumber ev w) as [w1|] eqn:E; [|discriminate].
    apply (IH w1); [assumption|]. now apply (step_tidy ev w).
Qed.

End Steps.

End TidyReach.

(** X1.  In every world a run can reach, each timer kind has at most
    one active interval; every active interval ticks once per second and
    is the one the instance's timer field refers to; and a kind whose
    flag is off has no timer at all. *)
Theorem reachable_timers_tidy
        (S2N : string -> JsNumber) (O2N : nat -> JsNumber) (w : World) (k : TickKind) :
  reachable S2N O2N w ->
  (length (ticking k w) <= 1)%nat /\
  (forall iv, iv ∈ intervals (env w) ->
     interval_period iv = 1000 /\ owner (interval_kind iv) w = Some (interval_id iv)) /\
  (active k w = false -> owner k w = None /\ ticking k w = []).
Proof.
  intros (t0 & evs & Hrun).
  pose proof (TidyReach.run_tidy S2N O2N evs _ _ Hrun (TidyReach.constructed_tidy t0))
    as (Hown & Hper & Hk).
  destruct (Hk k) as [Hlen Hoff]. split; [exact Hlen|]. split.
  - intros iv Hin. split.
    + rewrite Forall_forall in Hper. now apply Hper.
    + exact (proj1 (TimerFacts.ticks_owned_spec w) Hown iv Hin).
  - intros Hf. specialize (Hoff Hf). split; [exact Hoff|].
    apply TimerFacts.filter_none. intros iv Hin Hkind.
    pose proof (proj1 (TimerFacts.ticks_owned_spec w) Hown iv Hin) as Hiv.
    rewrite Hkind, Hoff in Hiv. discriminate.
Qed.

Lemma reachable_timers_tidy_witness :
  length (ticking RecordTick recording_world) = 1%nat /\
  (length (ticking RecordTick recording_world) <= 1)%nat /\
  ticking StreamTick recording_world = [].
Proof.
  assert (Hreach : reachable StringToNumber_digits ObjectToNumber_plain recording_world).
  { exists 1000, recording_run. vm_compute. reflexivity. }
  pose proof (reachable_timers_tidy _ _ recording_world RecordTick Hreach) as Hr.
  pose proof (reachable_timers_tidy _ _ recording_world StreamTick Hreach) as Hs.
  split; [vm_compute; reflexivity|]. split; [exact (proj1 Hr)|].
  exact (proj2 (proj2 (proj2 Hs) eq_refl)).
Defined.

(** X2.  A state change notification is idempotent: after it the flag
    of the kind has the notified value, and the same notification again
    changes nothing (no new timestamp, no new interval, no new value
    published). *)
Theorem onStateChange_idempotent (k : TickKind) (b : bool) (w : World) :
  active k (onStateChange k b w) = b /\
  onStateChange k b (onStateChange k b w) = onStateChange k b w.
Proof.
  pose proof (onStateChange_active k b w) as Ha. split; [exact Ha|].
  destruct b.
  - now apply onStateChange_redundant.
  - now apply TimerMore.onStateChange_redundant_false.
Qed.

(** X3.  Stopping a timer kind clears its flag and its timer field,
    removes its tick source, and publishes ["00:00:00"] under its
    variable; every other variable keeps its value, the other kind's
    flag and start timestamp are untouched, and the start timestamp of
    the stopped kind is kept, not cleared. *)
Theorem stop_resets_timecode (k : TickKind) (w : World) :
  ticks_owned w ->
  active k (stop k w) = false /\
  owner k (stop k w) = None /\
  ticking k (stop k w) = [] /\
  variables (env (stop k w)) !! timecode k = Some "00:00:00" /\
  (forall key, key <> timecode k ->
     variables (env (stop k w)) !! key = variables (env w) !! key) /\
  (forall k', start_of k' (stop k w) = start_of k' w) /\
  (forall k', k' <> k -> active k' (stop k w) = active k' w).
Proof.
  intros Hown.
  set (w0 := match k with
             | RecordTick => on_inst (set_isRecording false) w
             | StreamTick => on_inst (set_isStreaming false) w
             end).
  assert (Hown0 : ticks_owned w0).
  { apply (TimerFacts.ticks_owned_view w); [unfold w0; now destruct k | assumption]. }
  destruct (TimerFacts.stopTimer_owned k w0 Hown0) as (_ & Hnone & Hoff).
  assert (Hstop : stop k w
                  = setVariableValues [(timecode k, "00:00:00")] (stopTimer k w0)).
  { unfold w0. now destruct k. }
  assert (Hflags : forall k',
            active k' (stopTimer k w0) = active k' w0 /\
            start_of k' (stopTimer k w0) = start_of k' w0 /\
            variables (env (stopTimer k w0)) = variables (env w0)).
  { intros k'. destruct (TimerMore.stopTimer_flags k k' w0) as (Ha & _ & Hs & Hv & _).
    now repeat split. }
  rewrite Hstop.
  split. { change (active k (stopTimer k w0) = false).
           rewrite (proj1 (Hflags k)). unfold w0. now destruct k. }
  split. { exact Hoff. }
  split. { exact Hnone. }
  split. { unfold setVariableValues. cbn. apply lookup_insert_eq. }
  split. { intros key Hkey. unfold setVariableValues. cbn.
           rewrite lookup_insert_ne by congruence.
           rewrite (proj2 (proj2 (Hflags k))). unfold w0. now destruct k. }
  split. { intros k'. change (start_of k' (stopTimer k w0) = start_of k' w).
           rewrite (proj1 (proj2 (Hflags k'))). unfold w0. now destruct k. }
  intros k' Hne. change (active k' (stopTimer k w0) = active k' w).
  rewrite (proj1 (Hflags k')). unfold w0. destruct k, k'; try reflexivity; congruence.
Qed.

Lemma stop_resets_timecode_witness :
  ticks_owned started_once /\
  variables (env (_stopRecording started_once)) !! "recording_timecode"
    = Some "00:00:00" /\
  recordStart (inst (_stopRecording started_once)) = recordStart (inst started_once).
Proof.
  assert (Hown : ticks_owned started_once)
    by (apply (bool_decide_unpack (ticks_owned started_once)); vm_compute; exact I).
  pose proof (stop_resets_timecode RecordTick started_once Hown) as H.
  split; [exact Hown|]. split.
  - exact (proj1 (proj2 (proj2 (proj2 H)))).
  - exact (proj1 (proj2 (proj2 (proj2 (proj2 (proj2 H))))) RecordTick).
Defined.

(** X4.  The tick of a kind publishes, under the kind's variable, the
    formatted time between the start and the tick; negative differences
    show as zero.  A start timestamp of 0 is falsy and counts as no
    timestamp: then every tick publishes ["00:00:00"].  A tick leaves
    every other variable and the whole instance as they are. *)
Theorem tick_publishes_elapsed (k : TickKind) (w : World) (d : Z) :
  variables (env (tick k (elapse d (start k w)))) !! timecode k
    = Some (Fmt.formatHMS (Fmt.number (if Date_now w =? 0 then 0 else d))) /\
  Fmt.formatHMS (Fmt.number 0) = "00:00:00" /\
  (forall w1 : World,
     inst (tick k w1) = inst w1 /\
     intervals (env (tick k w1)) = intervals (env w1) /\
     forall key, key <> timecode k ->
       variables (env (tick k w1)) !! key = variables (env w1) !! key).
Proof.
  split; [|split; [vm_compute; reflexivity|]].
  - pose proof (start_keeps_clock k w) as Hclock.
    assert (Hstart : start_of k (start k w) = Some (Date_now w)).
    { destruct w as [[? ? ? ? ? ? ? ? ? rt st] e].
      destruct k; cbn [start]; unfold _startRecording, _startStreaming,
        _stopRecordTimer, _stopStreamTimer; cbn; [destruct rt | destruct st]; reflexivity. }
    assert (Htick : variables (env (tick k (elapse d (start k w)))) !! timecode k
                    = Some (Fmt.formatHMS
                              (Fmt.number (Date_now (start k w) + d
                                    - start_or_now (start_of k (start k w))
                                                   (Date_now (start k w) + d))))).
    { destruct k; cbn [tick timecode]; unfold setVariableValues; cbn;
        apply lookup_insert_eq. }
    rewrite Htick, Hstart, Hclock. do 3 f_equal. unfold start_or_now.
    destruct (Z.eqb_spec (Date_now w) 0); lia.
  - intros w1. destruct k; cbn [tick timecode]; unfold setVariableValues; cbn;
      (split; [reflexivity|]); (split; [reflexivity|]);
      intros key Hkey; now rewrite lookup_insert_ne by congruence.
Qed.

(** ** Timecodes read back *)

Module FmtMore.
Import Fmt.

Lemma split_after_digits (s rest : string) (acc v : Z) :
  decimal_acc s acc = Some v ->
  split_at_colon (s +:+ ":" +:+ rest) = Some (s, rest).
Proof.
  revert acc. induction s as [|c s IH]; intros acc H.
  - reflexivity.
  - cbn [decimal_acc] in H. destruct (digit_value c) as [dv|] eqn:Hc; [|discriminate].
    change (String c s +:+ ":" +:+ rest) with (String c (s +:+ ":" +:+ rest)).
    cbn [split_at_colon]. rewrite (IH _ H).
    destruct (Ascii.eqb_spec c ":") as [-> | _]; [discriminate Hc | reflexivity].
Qed.

Lemma pad_digits (n : Z) : 0 <= n < 2 ^ 53 -> decimal_acc (pad (Int n)) 0 = Some n.
Proof.
  intros Hn. pose proof (FmtFacts.pad_value n Hn) as H. unfold decimal_value in H.
  now destruct (pad (Int n)).
Qed.

Lemma read_hms_format (h m s : Z) :
  0 <= h < 2 ^ 53 -> 0 <= m < 2 ^ 53 -> 0 <= s < 2 ^ 53 ->
  read_hms (pad (Int h) +:+ ":" +:+ pad (Int m) +:+ ":" +:+ pad (Int s))
  = Some (3600 * h + 60 * m + s).
Proof.
  intros Hh Hm Hs. unfold read_hms.
  rewrite (split_after_digits (pad (Int h)) _ 0 h (pad_digits h Hh)).
  rewrite (split_after_digits (pad (Int m)) _ 0 m (pad_digits m Hm)).
  now rewrite !FmtFacts.pad_value by assumption.
Qed.

Lemma formatHMS_whole_seconds (d : double) :
  is_double d -> below_2_53 d ->
  exists h m s,
    formatHMS d = pad (Int h) +:+ ":" +:+ pad (Int m) +:+ ":" +:+ pad (Int s) /\
    0 <= h < 2 ^ 53 /\ 0 <= m < 60 /\ 0 <= s < 60 /\
    3600 * h + 60 * m + s = whole_seconds d.
Proof.
  intros Hv Hb. destruct (FmtFacts.total_exact d Hv Hb) as [_ Hrange].
  rewrite (FmtFacts.formatHMS_fields d Hv Hb).
  set (total := whole_seconds d) in *.
  exists (total / 3600), ((total mod 3600) / 60), (total mod 60).
  pose proof (Z.div_mod total 3600 ltac:(lia)) as Hh.
  pose proof (Z.mod_pos_bound total 3600 ltac:(lia)) as Hr.
  pose proof (Z.div_mod (total mod 3600) 60 ltac:(lia)) as Hm.
  pose proof (Z.mod_pos_bound (total mod 3600) 60 ltac:(lia)) as Hs.
  assert (Hsec : (total mod 3600) mod 60 = total mod 60).
  { apply Z.mod_mod_divide. exists 60. reflexivity. }
  split; [reflexivity|].
  split; [split; [apply Z.div_pos; lia | apply Z.div_lt_upper_bound; lia]|].
  split; [split; [apply Z.div_pos; lia | apply Z.div_lt_upper_bound; lia]|].
  split; [apply Z.mod_pos_bound; lia|]. lia.
Qed.

End FmtMore.

(** X5.  Below 2^53 the text [formatHMS] produces can be read back to
    the whole seconds it was made from.  So two such numbers give the
    same text exactly when they have the same whole seconds (the
    display changes with every second and with nothing less), and the
    text is exactly eight characters wide exactly below one hundred
    hours. *)
Theorem formatHMS_reads_back (a b : Fmt.double) :
  is_double a -> below_2_53 a -> is_double b -> below_2_53 b ->
  read_hms (Fmt.formatHMS a) = Some (whole_seconds a) /\
  (Fmt.formatHMS a = Fmt.formatHMS b <-> whole_seconds a = whole_seconds b) /\
  (whole_seconds a < 360000 <-> String.length (Fmt.formatHMS a) = 8%nat).
Proof.
  intros Ha Hba Hb Hbb.
  assert (Hread : forall d, is_double d -> below_2_53 d ->
                            read_hms (Fmt.formatHMS d) = Some (whole_seconds d)).
  { intros d Hd Hbd. destruct (FmtMore.formatHMS_whole_seconds d Hd Hbd)
      as (h & m & s & -> & Hh & Hm & Hs & <-).
    apply FmtMore.read_hms_format; lia. }
  split; [now apply Hread|]. split; [split|].
  - intros E. pose proof (Hread a Ha Hba) as Hra. rewrite E, Hread in Hra by assumption.
    congruence.
  - intros E. rewrite (FmtFacts.formatHMS_fields a), (FmtFacts.formatHMS_fields b), E
      by assumption. reflexivity.
  - destruct (FmtMore.formatHMS_whole_seconds a Ha Hba)
      as (h & m & s & -> & Hh & Hm & Hs & <-).
    rewrite !FmtFacts.length_app, (FmtFacts.pad_two_digits m), (FmtFacts.pad_two_digits s)
      by lia.
    cbn [String.length].
    destruct (FmtFacts.pad_width h Hh) as [[Hlt ->] | (Hge & Hlen & _)]; lia.
Qed.

Lemma formatHMS_reads_back_witness :
  read_hms (Fmt.formatHMS (Fmt.number 3661000)) = Some 3661 /\
  Fmt.formatHMS (Fmt.number 3661000) = Fmt.formatHMS (Fmt.number 3661999) /\
  String.length (Fmt.formatHMS (Fmt.number 3661000)) = 8%nat.
Proof.
  assert (Ha : is_double (Fmt.number 3661000)) by reflexivity.
  assert (Hba : below_2_53 (Fmt.number 3661000)) by (intros _; reflexivity).
  assert (Hb : is_double (Fmt.number 3661999)) by reflexivity.
  assert (Hbb : below_2_53 (Fmt.number 3661999)) by (intros _; reflexivity).
  destruct (formatHMS_reads_back (Fmt.number 3661000) (Fmt.number 3661999) Ha Hba Hb Hbb)
    as (Hread & Hsame & Hwide).
  split; [exact Hread|]. split.
  - apply Hsame. vm_compute. reflexivity.
  - apply Hwide. vm_compute. reflexivity.
Defined.

(** ** Scene names and the registry *)

Module SceneMore.
Import Pattern.

Lemma string_app_assoc (s1 s2 s3 : string) : (s1 +:+ s2) +:+ s3 = s1 +:+ (s2 +:+ s3).
Proof.
  induction s1 as [|c s1 IH]; [reflexivity|].
  change (String c ((s1 +:+ s2) +:+ s3) = String c (s1 +:+ (s2 +:+ s3))). now f_equal.
Qed.

Lemma string_app_nil_r (s : string) : s +:+ "" = s.
Proof.
  induction s as [|c s IH]; [reflexivity|].
  change (String c (s +:+ "") = String c s). now f_equal.
Qed.

Lemma all_chars_app (P : ascii -> bool) (s1 s2 : string) :
  all_chars P (s1 +:+ s2) = all_chars P s1 && all_chars P s2.
Proof.
  induction s1 as [|c s1 IH]; [reflexivity|].
  change (P c && all_chars P (s1 +:+ s2) = P c && all_chars P s1 && all_chars P s2).
  rewrite IH. now destruct (P c).
Qed.

(** A group needs an opening parenthesis. *)
Lemma group_has_open_paren (t : string) : group_to_end t -> no_open_paren t = false.
Proof.
  intros (sp1 & body & sp2 & -> & _). unfold no_open_paren.
  rewrite all_chars_app.
  change ("(" +:+ body +:+ ")" +:+ sp2) with (String "(" (body +:+ ")" +:+ sp2)).
  cbn [all_chars]. change (Ascii.eqb "(" "(") with true. cbn. apply andb_false_r.
Qed.

Lemma last_char_app (p : string) (c : ascii) : last_char (p +:+ String c "") = Some c.
Proof.
  induction p as [|c' p IH]; [reflexivity|].
  change (last_char (String c' (p +:+ String c "")) = Some c).
  cbn [last_char]. rewrite IH. now destruct (p +:+ String c "") eqn:E; [destruct p|].
Qed.

Lemma last_char_split (s : string) (c : ascii) :
  last_char s = Some c -> exists p, s = p +:+ String c "".
Proof.
  induction s as [|c' s IH]; [discriminate|]. cbn [last_char].
  destruct s as [|c'' s].
  - intros [= ->]. now exists "".
  - intros H. destruct (IH H) as (p & Hp). exists (String c' p).
    change (String c' (String c'' s) = String c' (p +:+ String c "")). now f_equal.
Qed.

Lemma group_prepend_space (c : ascii) (t : string) :
  is_space c = true -> group_to_end t -> group_to_end (String c t).
Proof.
  intros Hc (sp1 & body & sp2 & -> & H1 & H2 & H3).
  exists (String c sp1), body, sp2. cbn [all_chars]. rewrite Hc, H1. now repeat split.
Qed.

(** The loop of [_ingestScenes], one element further. *)
Lemma ingest_loop_snoc (l : list RawScene) (scene : RawScene) :
  ingest_loop (l ++ [scene])
  = Registry.assign (raw_id scene) (entry_of scene) (ingest_loop l).
Proof. unfold ingest_loop, ingest_from. now rewrite foldl_app. Qed.

Lemma ingest_loop_last (l : list RawScene) (sid : string) :
  sid <> "__proto__" ->
  ingest_loop l !! sid
  = (fun raw => {| id := sid; name := cleanName raw |})
      <$> last (filter (fun raw => raw_id raw = sid) l).
Proof.
  intros Hsid. induction l as [|scene l IH] using rev_ind; [reflexivity|].
  rewrite ingest_loop_snoc, filter_app, RegistryFacts.lookup_assign.
  destruct (decide (raw_id scene = sid)) as [<- | Hne].
  - rewrite decide_False, filter_cons_True, filter_nil, last_snoc by assumption || reflexivity.
    reflexivity.
  - rewrite filter_cons_False, filter_nil, app_nil_r by assumption.
    destruct (decide (raw_id scene = "__proto__")); exact IH.
Qed.

Lemma ingest_loop_proto (l : list RawScene) :
  Registry.proto (ingest_loop l)
  = entry_of <$> last (filter (fun raw => raw_id raw = "__proto__") l).
Proof.
  induction l as [|scene l IH] using rev_ind; [reflexivity|].
  rewrite ingest_loop_snoc, filter_app. unfold Registry.assign.
  destruct (String.eqb_spec (raw_id scene) "__proto__") as [E|Hne].
  - rewrite filter_cons_True, filter_nil, last_snoc by assumption. reflexivity.
  - rewrite filter_cons_False, filter_nil, app_nil_r by assumption. exact IH.
Qed.

End SceneMore.

(** X6.  The cleaned text is always a beginning of the original text.  A
    text without an opening parenthesis is kept as it is, trailing
    white space included; and when something is cut off, what is kept
    does not end in white space (it may be empty). *)
Theorem strip_keeps_a_clean_prefix (s : string) :
  (exists t, s = Pattern.strip s +:+ t) /\
  (no_open_paren s = true -> Pattern.strip s = s) /\
  (Pattern.strip s <> s ->
   forall c, last_char (Pattern.strip s) = Some c -> Pattern.is_space c = false).
Proof.
  destruct (SceneFacts.strip_spec s) as (t & E & Ht & Hmin).
  split; [now exists t|]. split.
  - intros Hno. destruct Ht as [-> | Hg].
    + now rewrite SceneMore.string_app_nil_r in E.
    + exfalso. apply SceneMore.group_has_open_paren in Hg.
      unfold no_open_paren in *. rewrite E, SceneMore.all_chars_app, Hg in Hno.
      now rewrite andb_false_r in Hno.
  - intros Hne c Hlast. destruct Ht as [-> | Hg].
    + rewrite SceneMore.string_app_nil_r in E. congruence.
    + destruct (Pattern.is_space c) eqn:Hc; [exfalso | reflexivity].
      destruct (SceneMore.last_char_split _ _ Hlast) as (p & Hp).
      assert (E' : s = p +:+ String c t).
      { rewrite E at 1. rewrite Hp, SceneMore.string_app_assoc. reflexivity. }
      pose proof (Hmin p (String c t) E' (SceneMore.group_prepend_space c t Hc Hg)) as Hle.
      rewrite Hp, FmtFacts.length_app in Hle. cbn in Hle. lia.
Qed.

Lemma strip_keeps_a_clean_prefix_witness :
  Pattern.strip "Lower Thirds  " = "Lower Thirds  " /\
  (forall c, last_char (Pattern.strip "Main   (Program) ") = Some c ->
             Pattern.is_space c = false).
Proof.
  split.
  - exact (proj1 (proj2 (strip_keeps_a_clean_prefix "Lower Thirds  ")) eq_refl).
  - apply (proj2 (proj2 (strip_keeps_a_clean_prefix "Main   (Program) "))).
    vm_compute. discriminate.
Defined.

(** X7.  Looking an identifier other than ["__proto__"] up after an
    ingest gives the entry written from the last scene of the input
    that has this identifier, under the unchanged identifier and with
    that scene's cleaned name; nothing when no scene of the input has
    it.  Earlier scenes with the same identifier are overwritten.
    Under ["__proto__"] there is never an entry: the last scene with
    that identifier is the prototype of the registry instead. *)
Theorem ingestScenes_last_scene_wins
        (scenesArray : list RawScene) (w : World) (sid : string) :
  (sid <> "__proto__" ->
   scenes (inst (_ingestScenes (Some scenesArray) w)) !! sid
   = (fun raw => {| id := sid; name := cleanName raw |})
       <$> last (filter (fun raw => raw_id raw = sid) scenesArray)) /\
  scenes (inst (_ingestScenes (Some scenesArray) w)) !! "__proto__" = None /\
  Registry.proto (scenes (inst (_ingestScenes (Some scenesArray) w)))
  = entry_of <$> last (filter (fun raw => raw_id raw = "__proto__") scenesArray).
Proof.
  rewrite SceneFacts.scenes_ingestScenes. cbn [default].
  split; [apply SceneMore.ingest_loop_last|]. split; [|apply SceneMore.ingest_loop_proto].
  apply eq_None_not_Some. rewrite SceneFacts.ingest_loop_keys. now intros [_ H].
Qed.

Lemma ingestScenes_last_scene_wins_witness :
  scenes (inst (_ingestScenes
                  (Some [ {| raw_id := "7"; raw_name := Some "Old" |};
                          {| raw_id := "7"; raw_name := Some "Cam (A)" |} ])
                  (constructed 1000))) !! "7"
  = Some {| id := "7"; name := "Cam" |}.
Proof.
  assert (Hne : "7" <> "__proto__") by discriminate.
  exact (proj1 (ingestScenes_last_scene_wins
                  [ {| raw_id := "7"; raw_name := Some "Old" |};
                    {| raw_id := "7"; raw_name := Some "Cam (A)" |} ]
                  (constructed 1000) "7") Hne).
Defined.

(** X8.  When the bound proxy has no [getScenes] but has
    [session.items], the refresh rebuilds the registry from the items:
    an identifier is in the registry exactly when an item of type
    ["scene"] has it and it is not ["__proto__"], its display name is
    the cleaned item name, or the cleaned identifier when the item has
    no name, and neither a remote call nor a log entry is made. *)
Theorem refreshScenes_from_session_items
        (w : World) (p : Proxy) (items : list (string * Item)) :
  qweb (inst w) = Some p ->
  "getScenes" ∉ methods p ->
  session_items p = Some items ->
  (forall sid, is_Some (scenes (inst (_refreshScenes w)) !! sid) <->
               sid <> "__proto__" /\
               exists it, (sid, it) ∈ items /\ item_type it = Some "scene") /\
  (forall sid sc, scenes (inst (_refreshScenes w)) !! sid = Some sc ->
     id sc = sid /\
     exists it, (sid, it) ∈ items /\ item_type it = Some "scene" /\
                name sc = Pattern.strip (name_or_id (item_name it) sid)) /\
  remote_calls (env (_refreshScenes w)) = remote_calls (env w) /\
  log (env (_refreshScenes w)) = log (env w).
Proof.
  intros Hq Hm Hs.
  assert (E : _refreshScenes w = _ingestScenes (Some (scenes_of_items items)) w).
  { unfold _refreshScenes. rewrite Hq. unfold has_method.
    rewrite bool_decide_eq_false_2 by assumption. now rewrite Hs. }
  rewrite E, SceneFacts.scenes_ingestScenes. cbn [default].
  assert (Hin : forall raw, raw ∈ scenes_of_items items <->
            exists it, (raw_id raw, it) ∈ items /\ item_type it = Some "scene" /\
                       raw_name raw = Some (name_or_id (item_name it) (raw_id raw))).
  { intros raw. unfold scenes_of_items. rewrite list_elem_of_fmap. split.
    - intros ([sid it] & -> & Hit). apply list_elem_of_filter in Hit as [Ht Hit].
      exists it. now repeat split.
    - intros (it & Hit & Ht & Hn). exists (raw_id raw, it). split.
      + destruct raw as [i n]. cbn in *. now rewrite Hn.
      + apply list_elem_of_filter. now split. }
  split; [|split; [|split; reflexivity]].
  - intros sid. rewrite SceneFacts.ingest_loop_keys, list_elem_of_fmap. split.
    + intros [(raw & -> & Hraw) Hp]. split; [exact Hp|].
      apply Hin in Hraw as (it & Hit & Ht & _). now exists it.
    + intros [Hp (it & Hit & Ht)]. split; [|exact Hp].
      exists {| raw_id := sid; raw_name := Some (name_or_id (item_name it) sid) |}.
      split; [reflexivity|]. apply Hin. now exists it.
  - intros sid sc Hsc. apply SceneFacts.ingest_loop_lookup in Hsc as (raw & Hraw & <- & ->).
    split; [reflexivity|]. apply Hin in Hraw as (it & Hit & Ht & Hn).
    exists it. split; [assumption|]. split; [assumption|].
    cbn [name]. unfold cleanName. rewrite Hn. f_equal.
    unfold name_or_id at 1.
    destruct (String.eqb_spec (name_or_id (item_name it) (raw_id raw)) "") as [E0|];
      [|reflexivity].
    rewrite E0. unfold name_or_id in E0. destruct (item_name it) as [n|]; [|assumption].
    destruct (String.eqb_spec n ""); [assumption | contradiction].
Qed.

Lemma refreshScenes_from_session_items_witness :
  scenes (inst (_refreshScenes session_world)) !! "1" = Some {| id := "1"; name := "Cam" |} /\
  id {| id := "1"; name := "Cam" |} = "1" /\
  remote_calls (env (_refreshScenes session_world)) = remote_calls (env session_world).
Proof.
  assert (Hm : "getScenes" ∉ methods session_proxy) by (cbn; apply not_elem_of_empty).
  pose proof (refreshScenes_from_session_items session_world session_proxy _
                eq_refl Hm eq_refl) as H.
  assert (H1 : scenes (inst (_refreshScenes session_world)) !! "1"
               = Some {| id := "1"; name := "Cam" |}) by (vm_compute; reflexivity).
  split; [exact H1|].
  split; [exact (proj1 (proj1 (proj2 H) "1" _ H1)) | exact (proj1 (proj2 (proj2 H)))].
Defined.

(** ** Actions, feedback choices and presets *)

Module DefsMore.

(** A fold of inserts reads back as the last pair written under the
    key, or the starting map when no pair was. *)
Lemma foldl_insert_last {A B} (f : A -> string) (g : A -> B)
      (l : list A) (acc : gmap string B) (key : string) :
  foldl (fun m x => <[f x := g x]> m) acc l !! key
  = match last (filter (fun x => f x = key) l) with
    | Some x => Some (g x)
    | None => acc !! key
    end.
Proof.
  induction l as [|x l IH] using rev_ind; [reflexivity|].
  rewrite foldl_app, filter_app. cbn [foldl].
  destruct (decide (f x = key)) as [<- | Hne].
  - now rewrite lookup_insert_eq, filter_cons_True, filter_nil, last_snoc.
  - now rewrite lookup_insert_ne, filter_cons_False, filter_nil, app_nil_r.
Qed.

(** With distinct keys, every pair of the list is read back. *)
Lemma foldl_insert_elem {A B} (f : A -> string) (g : A -> B)
      (l : list A) (acc : gmap string B) (x : A) :
  NoDup (f <$> l) -> x ∈ l ->
  foldl (fun m x => <[f x := g x]> m) acc l !! f x = Some (g x).
Proof.
  intros Hnd Hx. rewrite foldl_insert_last.
  destruct (last (filter (fun y => f y = f x) l)) as [y|] eqn:Hl.
  - apply last_Some_elem_of, list_elem_of_filter in Hl as [Hf Hy].
    f_equal. f_equal. revert Hnd Hx Hy Hf. clear. induction l as [|z l IH]; intros Hnd Hx Hy Hf.
    + inversion Hx.
    + cbn [fmap list_fmap] in Hnd. apply NoDup_cons in Hnd as [Hz Hnd].
      apply elem_of_cons in Hx as [->|Hx]; apply elem_of_cons in Hy as [->|Hy];
        try reflexivity.
      * exfalso. apply Hz. rewrite <- Hf. now apply list_elem_of_fmap_2.
      * exfalso. apply Hz. rewrite Hf. now apply list_elem_of_fmap_2.
      * now apply IH.
  - apply last_None in Hl. exfalso.
    assert (Hin : x ∈ filter (fun y => f y = f x) l) by (apply list_elem_of_filter; now split).
    rewrite Hl in Hin. inversion Hin.
Qed.

Lemma prefix_inj (a b : string) : "show_scene_" +:+ a = "show_scene_" +:+ b -> a = b.
Proof. intros H. now injection H. Qed.

Lemma get_own_pair (k : string) (v : Scene) (l : list (string * Scene)) :
  Registry.get_own k l = Some v -> (k, v) ∈ l.
Proof.
  induction l as [|[k0 v0] l IH]; cbn [Registry.get_own]; [discriminate|].
  destruct (String.eqb_spec k0 k) as [->|Hne].
  - intros [= ->]. now left.
  - intros H. right. now apply IH.
Qed.

Lemma get_own_of_pair (k : string) (v : Scene) (l : list (string * Scene)) :
  NoDup l.*1 -> (k, v) ∈ l -> Registry.get_own k l = Some v.
Proof.
  induction l as [|[k0 v0] l IH]; cbn [Registry.get_own fmap list_fmap fst].
  - intros _ H. inversion H.
  - intros Hnd Hin. apply NoDup_cons in Hnd as [Hk0 Hnd].
    apply elem_of_cons in Hin as [[= -> ->]|Hin].
    + now rewrite String.eqb_refl.
    + destruct (String.eqb_spec k0 k) as [->|Hne]; [|now apply IH].
      exfalso. apply Hk0, list_elem_of_fmap. now exists (k, v).
Qed.

(** What the [for ... in] loop visits: the own entries with their
    names, and the two properties of a prototype entry that no own key
    hides. *)
Lemma for_in_elem (o : Registry.t) (sid : string) (nm : option string) :
  (sid, nm) ∈ Registry.for_in o <->
  (exists sc, (sid, sc) ∈ Registry.own o /\ nm = Some (name sc)) \/
  (nm = None /\ is_Some (Registry.proto o) /\ sid ∈ ["id"; "name"]
   /\ o !! sid = None).
Proof.
  unfold Registry.for_in. rewrite elem_of_app, list_elem_of_fmap. split.
  - intros [([k sc] & E & Hin) | Hin].
    + injection E as -> ->. left. now exists sc.
    + right. destruct (Registry.proto o) as [p|]; [|inversion Hin].
      apply list_elem_of_fmap in Hin as (k & E & Hk). injection E as -> ->.
      apply list_elem_of_filter in Hk as [Hnone Hk]. split; [reflexivity|].
      split; [now eexists|]. now split.
  - intros [(sc & Hin & ->) | (-> & [p Hp] & Hk & Hnone)].
    + left. now exists (sid, sc).
    + right. rewrite Hp. apply list_elem_of_fmap. exists sid. split; [reflexivity|].
      apply list_elem_of_filter. now split.
Qed.

Lemma for_in_keys (o : Registry.t) :
  (Registry.for_in o).*1
  = (Registry.own o).*1
    ++ match Registry.proto o with
       | Some _ => filter (fun k => Registry.get_own k (Registry.own o) = None) ["id"; "name"]
       | None => []
       end.
Proof.
  unfold Registry.for_in. rewrite fmap_app, <- !list_fmap_compose. f_equal.
  destruct (Registry.proto o); [|reflexivity].
  rewrite <- list_fmap_compose. apply list_fmap_id.
Qed.

(** The loop visits no name twice. *)
Lemma for_in_NoDup (o : Registry.t) :
  NoDup (Registry.own o).*1 -> NoDup (Registry.for_in o).*1.
Proof.
  intros Hnd. rewrite for_in_keys. apply NoDup_app. split; [assumption|]. split.
  - intros k Hk Hk'. destruct (Registry.proto o); [|inversion Hk'].
    apply list_elem_of_filter in Hk' as [Hnone _].
    apply RegistryFacts.get_own_None in Hnone. contradiction.
  - destruct (Registry.proto o); [|constructor].
    apply NoDup_filter. repeat constructor; [|inversion 1].
    rewrite list_elem_of_singleton. discriminate.
Qed.

(** The scene part of the action definitions. *)
Lemma per_scene_lookup (l : list (string * option string)) (key : string) :
  foldl (fun (acc : gmap string ActionDef) (kn : string * option string) =>
           <["show_scene_" +:+ kn.1 :=
               {| action_name := "Show Scene: " +:+ template_text kn.2;
                  action_callback := CbShowScene kn.1 |}]> acc)
        ∅ l !! key
  = match last (filter (fun kn : string * option string => "show_scene_" +:+ kn.1 = key)
                       l) with
    | Some kn => Some (scene_action kn.1 kn.2)
    | None => None
    end.
Proof.
  rewrite (foldl_insert_last (fun kn : string * option string => "show_scene_" +:+ kn.1)
             (fun kn => scene_action kn.1 kn.2)).
  now rewrite lookup_empty.
Qed.

Lemma per_scene_elem (l : list (string * option string))
      (sid : string) (nm : option string) :
  NoDup l.*1 -> (sid, nm) ∈ l ->
  foldl (fun (acc : gmap string ActionDef) (kn : string * option string) =>
           <["show_scene_" +:+ kn.1 :=
               {| action_name := "Show Scene: " +:+ template_text kn.2;
                  action_callback := CbShowScene kn.1 |}]> acc)
        ∅ l !! ("show_scene_" +:+ sid)
  = Some (scene_action sid nm).
Proof.
  intros Hnd Hin.
  apply (foldl_insert_elem (fun kn : string * option string => "show_scene_" +:+ kn.1)
           (fun kn => scene_action kn.1 kn.2) l ∅ (sid, nm)); [|assumption].
  replace ((fun kn : string * option string => "show_scene_" +:+ kn.1) <$> l)
    with ((fun k : string => "show_scene_" +:+ k) <$> l.*1)
    by (rewrite <- list_fmap_compose; reflexivity).
  apply NoDup_fmap_2; [|assumption]. intros a b. apply prefix_inj.
Qed.

Lemma defineActions_name (w : World) (sid : string) (nm : option string) :
  NoDup (Registry.own (scenes (inst w))).*1 ->
  (sid, nm) ∈ Registry.for_in (scenes (inst w)) ->
  actions (env (_defineActions w)) !! ("show_scene_" +:+ sid) = Some (scene_action sid nm).
Proof.
  intros Hnd Hin. unfold _defineActions. cbn [on_env env actions set_actions].
  unfold fixed_actions. cbn [foldl fst snd].
  rewrite !lookup_insert_ne by discriminate.
  apply per_scene_elem; [now apply for_in_NoDup | assumption].
Qed.

Lemma defineActions_fixed (w : World) (key : string) (d : ActionDef) :
  (key, d) ∈ fixed_actions -> actions (env (_defineActions w)) !! key = Some d.
Proof.
  unfold _defineActions. cbn [on_env env actions set_actions].
  unfold fixed_actions. cbn [foldl fst snd]. rewrite !elem_of_cons, elem_of_nil.
  intros [E | [E | [E | [E | [E | [E | []]]]]]]; injection E as -> ->;
    repeat first [ rewrite lookup_insert_eq | rewrite lookup_insert_ne by discriminate ];
    reflexivity.
Qed.

Lemma defineActions_only (w : World) (key : string) (d : ActionDef) :
  actions (env (_defineActions w)) !! key = Some d ->
  (key, d) ∈ fixed_actions \/
  exists sid nm, key = "show_scene_" +:+ sid /\ (sid, nm) ∈ Registry.for_in (scenes (inst w))
                 /\ d = scene_action sid nm.
Proof.
  destruct (decide (key ∈ fixed_actions.*1)) as [Hin | Hout].
  - apply list_elem_of_fmap in Hin as ([k d'] & -> & Hin). cbn [fst].
    rewrite (defineActions_fixed w k d' Hin). intros [= <-]. now left.
  - unfold _defineActions. cbn [on_env env actions set_actions].
    unfold fixed_actions in *. cbn [foldl fst snd].
    cbn in Hout. rewrite !not_elem_of_cons in Hout.
    destruct Hout as (H1 & H2 & H3 & H4 & H5 & H6 & _).
    rewrite !lookup_insert_ne by congruence. rewrite per_scene_lookup.
    destruct (last _) as [[sid nm]|] eqn:Hl; [|discriminate].
    intros [= <-]. right. exists sid, nm.
    apply last_Some_elem_of, list_elem_of_filter in Hl as [Hk Hin].
    now repeat split.
Qed.

End DefsMore.

(** X9.  The action definitions handed to the host are exactly: for
    every entry of the registry one action [show_scene_<id>], named
    after the scene and switching to it; when a scene with the
    identifier ["__proto__"] has become the prototype of the registry,
    also [show_scene_id] and [show_scene_name], named ["Show Scene:
    undefined"], unless an entry has that identifier; and the six
    record and stream controls.  No other key is defined, whatever was
    defined before. *)
Theorem defineActions_one_per_scene (w : World) :
  NoDup (Registry.own (scenes (inst w))).*1 ->
  (forall sid sc,
     scenes (inst w) !! sid = Some sc ->
     actions (env (_defineActions w)) !! ("show_scene_" +:+ sid)
     = Some {| action_name := "Show Scene: " +:+ name sc;
               action_callback := CbShowScene sid |}) /\
  (forall sid,
     sid ∈ ["id"; "name"] -> is_Some (Registry.proto (scenes (inst w))) ->
     scenes (inst w) !! sid = None ->
     actions (env (_defineActions w)) !! ("show_scene_" +:+ sid)
     = Some {| action_name := "Show Scene: undefined";
               action_callback := CbShowScene sid |}) /\
  (forall key d, (key, d) ∈ fixed_actions ->
                 actions (env (_defineActions w)) !! key = Some d) /\
  fixed_actions.*1
    = ["toggle_stream"; "start_stream"; "stop_stream";
       "toggle_record"; "start_record"; "stop_record"] /\
  (forall key d,
     actions (env (_defineActions w)) !! key = Some d ->
     (key, d) ∈ fixed_actions \/
     exists sid, key = "show_scene_" +:+ sid /\ action_callback d = CbShowScene sid /\
                 (is_Some (scenes (inst w) !! sid) \/
                  (sid ∈ ["id"; "name"] /\ is_Some (Registry.proto (scenes (inst w)))))).
Proof.
  intros Hnd. split; [|split; [|split; [apply DefsMore.defineActions_fixed|split]]].
  - intros sid sc Hsc.
    apply (DefsMore.defineActions_name w sid (Some (name sc)) Hnd).
    apply DefsMore.for_in_elem. left. exists sc. split; [|reflexivity].
    now apply DefsMore.get_own_pair.
  - intros sid Hsid Hp Hnone.
    apply (DefsMore.defineActions_name w sid None Hnd).
    apply DefsMore.for_in_elem. right. now repeat split.
  - reflexivity.
  - intros key d H.
    apply DefsMore.defineActions_only in H as [H | (sid & nm & -> & Hin & ->)]; [now left|].
    right. exists sid. split; [reflexivity|]. split; [reflexivity|].
    apply DefsMore.for_in_elem in Hin as [(sc & Hin & _) | (_ & Hp & Hsid & _)].
    + left. apply RegistryFacts.lookup_is_Some, list_elem_of_fmap. now exists (sid, sc).
    + right. now split.
Qed.

Lemma defineActions_one_per_scene_witness :
  actions (env (_defineActions proto_scene_world)) !! "show_scene_id"
  = Some {| action_name := "Show Scene: undefined"; action_callback := CbShowScene "id" |}.
Proof.
  assert (Hnd : NoDup (Registry.own (scenes (inst proto_scene_world))).*1)
    by (vm_compute; constructor).
  assert (Hid : "id" ∈ ["id"; "name"]) by (now left).
  assert (Hp : is_Some (Registry.proto (scenes (inst proto_scene_world))))
    by (vm_compute; now eexists).
  exact (proj1 (proj2 (defineActions_one_per_scene proto_scene_world Hnd))
           "id" Hid Hp eq_refl).
Defined.

(** X10.  After an ingest the three definitions handed to the host
    follow the registry: one preset per name the [for ... in] loop
    visits besides the six control presets, one feedback choice per
    entry, and the action of every preset is a defined action.  The
    scene a scene preset gives to its feedback is one of the feedback
    choices, except for the presets [id] and [name] that exist when a
    scene of the input has the identifier ["__proto__"]; without such a
    scene there are as many scene presets as feedback choices. *)
Theorem ingestScenes_definitions_agree
        (scenesArray : option (list RawScene)) (w : World) :
  let w' := _ingestScenes scenesArray w in
  length (presets (env w')) = (length (Registry.for_in (scenes (inst w'))) + 6)%nat /\
  length (feedback_choices (env w')) = length (Registry.own (scenes (inst w'))) /\
  (forall sid sc, scenes (inst w') !! sid = Some sc ->
     scene_preset sid (Some (name sc)) ∈ presets (env w') /\
     (sid, name sc) ∈ feedback_choices (env w')) /\
  (forall p, p ∈ presets (env w') ->
     is_Some (actions (env w') !! preset_action p) /\
     forall sid, preset_feedback_scene p = Some sid ->
                 (exists label, (sid, label) ∈ feedback_choices (env w')) \/
                 (sid ∈ ["id"; "name"]
                  /\ "__proto__" ∈ raw_id <$> default [] scenesArray)) /\
  ("__proto__" ∉ raw_id <$> default [] scenesArray ->
   length (presets (env w')) = (length (feedback_choices (env w')) + 6)%nat).
Proof.
  intros w'.
  set (m := scenes (inst w')).
  assert (Hm : m = ingest_loop (default [] scenesArray)) by reflexivity.
  assert (Hnd : NoDup (Registry.own m).*1) by (rewrite Hm; apply SceneFacts.ingest_loop_NoDup).
  assert (Hproto : is_Some (Registry.proto m) ->
                   "__proto__" ∈ raw_id <$> default [] scenesArray).
  { rewrite Hm, SceneMore.ingest_loop_proto. intros [sc Hsc].
    destruct (last _) as [raw|] eqn:Hl; [|discriminate].
    apply last_Some_elem_of, list_elem_of_filter in Hl as [Hid Hin].
    apply list_elem_of_fmap. now exists raw. }
  assert (Hid : forall sid sc, m !! sid = Some sc -> id sc = sid).
  { intros sid sc H. rewrite Hm in H.
    apply SceneFacts.ingest_loop_lookup in H as (raw & _ & _ & ->). reflexivity. }
  assert (Hpresets : presets (env w')
                     = ((fun kn : string * option string => scene_preset kn.1 kn.2)
                          <$> Registry.for_in m)
                       ++ fixed_presets) by reflexivity.
  assert (Hchoices : feedback_choices (env w')
                     = (fun sc : Scene => (id sc, name sc)) <$> Registry.values m)
    by reflexivity.
  assert (Hactions : actions (env w')
                     = actions (env (_defineActions
                                       (on_inst (set_scenes m) w)))) by reflexivity.
  assert (Hchoice : forall sid sc, m !! sid = Some sc ->
                                   (sid, name sc) ∈ feedback_choices (env w')).
  { intros sid sc Hsc. rewrite Hchoices. apply list_elem_of_fmap.
    exists sc. rewrite (Hid sid sc Hsc). split; [reflexivity|].
    unfold Registry.values. apply list_elem_of_fmap. exists (sid, sc).
    split; [reflexivity | now apply DefsMore.get_own_pair]. }
  split. { rewrite Hpresets, length_app, length_fmap. reflexivity. }
  split. { rewrite Hchoices, length_fmap. unfold Registry.values. now rewrite length_fmap. }
  split; [|split].
  - intros sid sc Hsc. split; [|now apply Hchoice].
    rewrite Hpresets. apply elem_of_app. left. apply list_elem_of_fmap.
    exists (sid, Some (name sc)). split; [reflexivity|].
    apply DefsMore.for_in_elem. left. exists sc. split; [|reflexivity].
    now apply DefsMore.get_own_pair.
  - intros p. rewrite Hpresets, elem_of_app, list_elem_of_fmap.
    intros [([sid nm] & -> & Hin) | Hfixed].
    + cbn [scene_preset preset_action preset_feedback_scene fst snd]. split.
      * rewrite Hactions, (DefsMore.defineActions_name _ sid nm); [now eexists | |];
          assumption.
      * intros sid' [= <-].
        apply DefsMore.for_in_elem in Hin as [(sc & Hin & ->) | (-> & Hp & Hsid & _)].
        -- left. exists (name sc). apply Hchoice.
           now apply DefsMore.get_own_of_pair.
        -- right. split; [assumption | now apply Hproto].
    + unfold fixed_presets in Hfixed. rewrite !elem_of_cons, elem_of_nil in Hfixed.
      rewrite Hactions.
      destruct Hfixed as [-> | [-> | [-> | [-> | [-> | [-> | []]]]]]];
        (split; [|discriminate]); cbn [control_preset preset_action];
        eexists; apply DefsMore.defineActions_fixed; unfold fixed_actions;
        rewrite !elem_of_cons; tauto.
  - intros Hno. rewrite Hpresets, Hchoices, length_app, !length_fmap.
    unfold Registry.values, Registry.for_in. rewrite length_fmap.
    destruct (Registry.proto m) as [sc|] eqn:Hp.
    + exfalso. apply Hno, Hproto. now eexists.
    + now rewrite app_nil_r, length_fmap.
Qed.



(** ** Binding the channel *)

Module BindFacts.

(** What a state change notification leaves alone, and what it sets. *)
Lemma onStateChange_frame (k : TickKind) (b : bool) (w : World) :
  qweb (inst (onStateChange k b w)) = qweb (inst w) /\
  status (env (onStateChange k b w)) = status (env w) /\
  sub_sceneChanged (env (onStateChange k b w)) = sub_sceneChanged (env w) /\
  sub_isRecordingChanged (env (onStateChange k b w)) = sub_isRecordingChanged (env w) /\
  sub_isStreamingChanged (env (onStateChange k b w)) = sub_isStreamingChanged (env w) /\
  Date_now (onStateChange k b w) = Date_now w /\
  (forall k', k' <> k ->
     active k' (onStateChange k b w) = active k' w /\
     start_of k' (onStateChange k b w) = start_of k' w) /\
  start_of k (onStateChange k b w)
    = (if b && negb (active k w) then Some (Date_now w) else start_of k w).
Proof.
  destruct w as [[? ? ? ? ? r s ? ? rt st] e].
  destruct k, b, r, s, rt, st; cbn;
    repeat match goal with |- _ /\ _ => split end; try reflexivity;
    intros [] Hk; first [congruence | now split].
Qed.

Lemma refreshScenes_frame (w : World) :
  qweb (inst (_refreshScenes w)) = qweb (inst w) /\
  status (env (_refreshScenes w)) = status (env w) /\
  sub_sceneChanged (env (_refreshScenes w)) = sub_sceneChanged (env w) /\
  sub_isRecordingChanged (env (_refreshScenes w)) = sub_isRecordingChanged (env w) /\
  sub_isStreamingChanged (env (_refreshScenes w)) = sub_isStreamingChanged (env w) /\
  (forall k, active k (_refreshScenes w) = active k w /\
             start_of k (_refreshScenes w) = start_of k w).
Proof.
  unfold _refreshScenes. destruct (qweb (inst w)) as [p|] eqn:Hq.
  - destruct (has_method p "getScenes"); [|destruct (session_items p)];
      cbn; rewrite ?Hq;
      repeat match goal with |- _ /\ _ => split end; try reflexivity;
      intros []; now split.
  - rewrite Hq. repeat match goal with |- _ /\ _ => split end; try reflexivity.
    intros []; now split.
Qed.

End BindFacts.

(** ** Sockets and reconnects *)

Module NetFacts.

Lemma net_tidy_view (w1 w2 : World) :
  net_view w2 = net_view w1 -> net_tidy w1 -> net_tidy w2.
Proof.
  unfold net_view, net_tidy. intros E (H1 & H2 & H3).
  injection E as -> -> -> ->. now repeat split.
Qed.

(** Closes a goal [net_tidy (f w)] for an [f] that leaves the sockets,
    the reconnects and the clock alone. *)
Ltac same_net :=
  match goal with
  | H : net_tidy ?w |- net_tidy _ =>
      apply (net_tidy_view w); [reflexivity | exact H]
  end.

Lemma constructed_net_tidy (t0 : Z) : net_tidy (constructed t0).
Proof.
  split; [|split].
  - intros k s H. cbn in H. now rewrite lookup_nil in H.
  - intros k H. discriminate H.
  - apply Forall_nil_2.
Qed.

Lemma onStateChange_net (k : TickKind) (b : bool) (w : World) :
  net_view (onStateChange k b w) = net_view w.
Proof.
  destruct w as [[? ? ? ? ? r s ? ? rt st] e].
  destruct k, b, r, s, rt, st; reflexivity.
Qed.

Lemma onRecording_net (b : bool) (w : World) :
  net_view (_onRecordingStateChange b w) = net_view w.
Proof. exact (onStateChange_net RecordTick b w). Qed.

Lemma onStreaming_net (b : bool) (w : World) :
  net_view (_onStreamingStateChange b w) = net_view w.
Proof. exact (onStateChange_net StreamTick b w). Qed.

Lemma run_callback_net (cb : Callback) (w : World) :
  net_view (run_callback cb w) = net_view w.
Proof.
  rewrite ActionFacts.run_callback_split.
  set (w0 := on_env _ w). change (net_view w) with (net_view w0).
  destruct cb; cbn [local_entry]; try reflexivity;
    first [ apply (onStateChange_net StreamTick) | apply (onStateChange_net RecordTick) ].
Qed.

Lemma refreshScenes_net (w : World) : net_view (_refreshScenes w) = net_view w.
Proof.
  unfold _refreshScenes. destruct (qweb (inst w)) as [p|]; [|reflexivity].
  destruct (has_method p "getScenes"); [reflexivity|].
  destruct (session_items p); reflexivity.
Qed.

Lemma on_channel_net (meld : option Proxy) (w : World) :
  net_view (on_channel meld w) = net_view w.
Proof.
  unfold on_channel. rewrite refreshScenes_net.
  destruct meld as [p|]; cbn [fmap option_fmap option_map]; [|reflexivity].
  destruct (p_isRecording p), (p_isStreaming p);
    rewrite ?onStreaming_net, ?onRecording_net; reflexivity.
Qed.

Lemma stopTimer_net (k : TickKind) (w : World) : net_view (stopTimer k w) = net_view w.
Proof.
  destruct w as [[? ? ? ? ? ? ? ? ? rt st] e]. destruct k, rt, st; reflexivity.
Qed.

Lemma closing_not_live (s : Socket) : live (closing s) = false.
Proof. unfold closing, live. destruct (sock_state s) eqn:E; cbn; now rewrite ?E. Qed.

(** After the instance has dropped its socket, no socket is live. *)
Lemma drop_socket_spec (w : World) :
  net_tidy w ->
  ws (inst (drop_socket w)) = None /\
  (forall k s, sockets (env (drop_socket w)) !! k = Some s -> live s = false) /\
  length (sockets (env (drop_socket w))) = length (sockets (env w)) /\
  timeouts (env (drop_socket w)) = timeouts (env w) /\
  Date_now (drop_socket w) = Date_now w /\
  config (inst (drop_socket w)) = config (inst w) /\
  status (env (drop_socket w)) = status (env w).
Proof.
  intros (Hlive & _ & _). unfold drop_socket.
  destruct (ws (inst w)) as [k0|] eqn:Hws.
  - cbn. split; [reflexivity|]. split; [|now rewrite length_alter].
    intros k s Hk. destruct (decide (k0 = k)) as [<- | Hne].
    + rewrite list_lookup_alter_eq in Hk.
      destruct (sockets (env w) !! k0) as [s0|]; [|discriminate].
      injection Hk as <-. apply closing_not_live.
    + rewrite list_lookup_alter_ne in Hk by assumption.
      destruct (live s) eqn:Hs; [|reflexivity].
      specialize (Hlive k s Hk Hs). congruence.
  - split; [assumption|]. split; [|now repeat split].
    intros k s Hk. destruct (live s) eqn:Hs; [|reflexivity].
    specialize (Hlive k s Hk Hs). congruence.
Qed.

Lemma drop_socket_tidy (w : World) : net_tidy w -> net_tidy (drop_socket w).
Proof.
  intros H. destruct (drop_socket_spec w H) as (Hws & Hdead & _ & Ht & Hnow & _).
  destruct H as (_ & _ & Hto). split; [|split].
  - intros k s Hk Hs. rewrite (Hdead k s Hk) in Hs. discriminate.
  - intros k Hk. congruence.
  - now rewrite Ht, Hnow.
Qed.

Lemma connect_shape (o : Construction) (w : World) :
  _connect o w
  = let w1 := log_message info
                (MsgConnecting (host (config (inst w))) (port (config (inst w))))
                (drop_socket w) in
    match o with
    | Built =>
        on_inst (set_ws (Some (length (sockets (env w)))))
          (on_env (fun e =>
             set_sockets
               (sockets e ++
                  [{| sock_host := host (config (inst w));
                      sock_port := port (config (inst w));
                      sock_state := CONNECTING; sock_channel := false |}]) e) w1)
    | Throws e => updateStatus (connection_failure (message_or e "Connect failed")) w1
    end.
Proof.
  unfold _connect, drop_socket. destruct (ws (inst w)); destruct o; cbn;
    rewrite ?length_alter; reflexivity.
Qed.

Lemma connect_net_tidy (o : Construction) (w : World) : net_tidy w -> net_tidy (_connect o w).
Proof.
  intros H. rewrite connect_shape. cbn zeta.
  pose proof (drop_socket_tidy w H) as Hd.
  destruct (drop_socket_spec w H) as (Hws & Hdead & Hlen & Ht & Hnow & _).
  destruct o.
  - destruct Hd as (_ & _ & Hto). split; [|split].
    + intros k s. cbn. intros Hk Hs.
      apply lookup_app_Some in Hk as [Hk | [Hge Hk]].
      * rewrite (Hdead k s Hk) in Hs. discriminate.
      * apply list_lookup_singleton_Some in Hk as [Hk _]. f_equal. lia.
    + intros k. cbn. intros [= <-]. rewrite length_app. cbn. lia.
    + exact Hto.
  - apply (net_tidy_view (drop_socket w)); [reflexivity | assumption].
Qed.

Lemma destroy_net_tidy (w : World) : net_tidy w -> net_tidy (destroy w).
Proof.
  intros H.
  assert (H1 : net_tidy (_stopStreamTimer (_stopRecordTimer w))).
  { apply (net_tidy_view w); [|assumption].
    now rewrite (stopTimer_net StreamTick), (stopTimer_net RecordTick). }
  exact (drop_socket_tidy _ H1).
Qed.

(** Changing the state or the channel mark of a socket that is live
    and stays live, or of any socket that ends up not live. *)
Lemma alter_tidy (f : Socket -> Socket) (k : nat) (w : World) :
  (forall s, live (f s) = true -> live s = true) ->
  net_tidy w ->
  net_tidy (on_env (fun e => set_sockets (alter f k (sockets e)) e) w).
Proof.
  intros Hf (Hlive & Hws & Hto). split; [|split].
  - intros k' s. cbn. intros Hk Hs. destruct (decide (k = k')) as [<- | Hne].
    + rewrite list_lookup_alter_eq in Hk.
      destruct (sockets (env w) !! k) as [s0|] eqn:E; [|discriminate].
      injection Hk as <-. apply (Hlive k s0 E). now apply Hf.
    + rewrite list_lookup_alter_ne in Hk by assumption. now apply (Hlive k' s).
  - intros k'. cbn. rewrite length_alter. apply Hws.
  - exact Hto.
Qed.

Lemma on_close_net (w : World) :
  ws (inst (on_close w)) = ws (inst w) /\
  sockets (env (on_close w)) = sockets (env w) /\
  Date_now (on_close w) = Date_now w /\
  timeouts (env (on_close w))
    = timeouts (env w)
      ++ [{| timeout_id := next_timer (env w); timeout_set_at := Date_now w;
             timeout_delay := 3000 |}].
Proof.
  destruct w as [[? ? ? ? ? ? ? ? ? rt st] e]. destruct rt, st; now repeat split.
Qed.

Lemma on_close_net_tidy (w : World) : net_tidy w -> net_tidy (on_close w).
Proof.
  intros (Hlive & Hws & Hto). destruct (on_close_net w) as (E1 & E2 & E3 & E4).
  split; [|split].
  - intros k s. rewrite E1, E2. apply Hlive.
  - intros k. rewrite E1, E2. apply Hws.
  - rewrite E3, E4. apply Forall_app. split; [assumption|]. repeat constructor. cbn. lia.
Qed.

Section Steps.

Variable StringToNumber : string -> JsNumber.
Variable ObjectToNumber : nat -> JsNumber.

Lemma step_net_tidy (ev : Event) (w w' : World) :
  step StringToNumber ObjectToNumber ev w = Some w' -> net_tidy w -> net_tidy w'.
Proof.
  intros Hstep H. destruct ev; cbn [step] in Hstep.
  - injection Hstep as <-. unfold init. apply connect_net_tidy. same_net.
  - injection Hstep as <-. unfold configUpdated. apply connect_net_tidy. same_net.
  - injection Hstep as <-. now apply destroy_net_tidy.
  - destruct (socket_state k w) as [[]|] eqn:Hk; try discriminate.
    injection Hstep as <-.
    assert (H0 : net_tidy (set_socket_state k OPEN w)).
    { destruct H as (Hlive & Hws & Hto). split; [|split].
      - intros k' s. cbn. intros Hk' Hs. destruct (decide (k = k')) as [<- | Hne].
        + unfold socket_state in Hk.
          destruct (sockets (env w) !! k) as [s0|] eqn:E; [|discriminate].
          apply (Hlive k s0 E). unfold live. cbn in Hk. injection Hk as ->. reflexivity.
        + rewrite list_lookup_alter_ne in Hk' by assumption. now apply (Hlive k' s).
      - intros k'. cbn. rewrite length_alter. apply Hws.
      - exact Hto. }
    unfold on_open. destruct o.
    + now apply (alter_tidy (set_sock_channel true)).
    + assert (H1 : net_tidy
                     (log_message error (MsgQWebChannelInitFailed message)
                        (updateStatus (connection_failure "QWebChannel init failed")
                           (set_socket_state k OPEN w)))) by same_net.
      apply (alter_tidy closing); [|assumption].
      intros s. now rewrite closing_not_live.
  - destruct (sockets (env w) !! k) as [s|]; [|discriminate].
    destruct (sock_state s), (sock_channel s); try discriminate.
    injection Hstep as <-. apply (net_tidy_view _ _ (on_channel_net _ _)).
    now apply (alter_tidy (set_sock_channel false)).
  - assert (Hclosed : net_tidy (set_socket_state k CLOSED w)).
    { apply (alter_tidy (set_sock_state CLOSED)); [|assumption]. intros s. discriminate. }
    destruct (socket_state k w) as [[]|]; try discriminate;
      injection Hstep as <-; now apply on_close_net_tidy.
  - destruct (socket_state k w); [|discriminate].
    injection Hstep as <-. same_net.
  - destruct (filter _ (timeouts (env w))) as [|t ?]; [discriminate|].
    destruct (due t w); [|discriminate].
    injection Hstep as <-. apply connect_net_tidy.
    destruct H as (Hlive & Hws & Hto). split; [assumption|]. split; [assumption|].
    cbn. rewrite Forall_forall in *. intros t' Hin.
    apply list_elem_of_filter in Hin as [_ Hin]. now apply Hto.
  - destruct (filter _ (intervals (env w))) as [|iv ?]; [discriminate|].
    injection Hstep as <-. destruct (interval_kind iv); same_net.
  - destruct (sub_sceneChanged (env w)); [|discriminate].
    injection Hstep as <-. same_net.
  - destruct (sub_isRecordingChanged (env w)); [|discriminate].
    injection Hstep as <-. unfold on_isRecordingChanged.
    match goal with |- net_tidy (match qweb (inst ?w0) with _ => _ end) =>
      assert (H0 : net_tidy w0) by same_net; destruct (qweb (inst w0))
    end; [|assumption].
    now apply (net_tidy_view _ _ (onRecording_net _ _)).
  - destruct (sub_isStreamingChanged (env w)); [|discriminate].
    injection Hstep as <-. unfold on_isStreamingChanged.
    match goal with |- net_tidy (match qweb (inst ?w0) with _ => _ end) =>
      assert (H0 : net_tidy w0) by same_net; destruct (qweb (inst w0))
    end; [|assumption].
    now apply (net_tidy_view _ _ (onStreaming_net _ _)).
  - destruct (pending_getScenes (env w)); [discriminate|].
    injection Hstep as <-. same_net.
  - destruct (actions (env w) !! key); [|discriminate].
    injection Hstep as <-. now apply (net_tidy_view _ _ (run_callback_net _ _)).
  - destruct (Z.leb_spec 0 dt); [|discriminate].
    injection Hstep as <-. destruct H as (Hlive & Hws & Hto).
    split; [assumption|]. split; [assumption|].
    cbn. rewrite Forall_forall in *. intros t Hin. specialize (Hto t Hin).
    unfold Date_now in *. cbn. lia.
Qed.

Lemma run_net_tidy (evs : list Event) (w w' : World) :
  run StringToNumber ObjectToNumber evs w = Some w' -> net_tidy w -> net_tidy w'.
Proof.
  revert w. induction evs as [|ev evs IH]; intros w Hrun H; cbn [run] in Hrun.
  - now injection Hrun as <-.
  - destruct (step StringToNumber ObjectToNumber ev w) as [w1|] eqn:E; [|discriminate].
    apply (IH w1); [assumption|]. now apply (step_net_tidy ev w).
Qed.

End Steps.

End NetFacts.

(** X13.  In every world a run can reach, at most one socket is
    connecting or open, and it is the one the instance refers to: every
    socket the instance has let go of is closing or closed, so
    connections are replaced and never pile up. *)
Theorem reachable_one_live_socket
        (S2N : string -> JsNumber) (O2N : nat -> JsNumber) (w : World)
        (k : nat) (s : Socket) :
  reachable S2N O2N w ->
  sockets (env w) !! k = Some s ->
  (sock_state s = CONNECTING \/ sock_state s = OPEN) ->
  ws (inst w) = Some k.
Proof.
  intros (t0 & evs & Hrun) Hk Hs.
  pose proof (NetFacts.run_net_tidy S2N O2N evs _ _ Hrun
                (NetFacts.constructed_net_tidy t0)) as (Hlive & _).
  apply (Hlive k s Hk). unfold live. now destruct Hs as [-> | ->].
Qed.

Lemma reachable_one_live_socket_witness :
  sock_state <$> sockets (env two_closes_world) !! 0%nat = Some CLOSED /\
  sock_state <$> sockets (env recording_world) !! 0%nat = Some OPEN /\
  ws (inst recording_world) = Some 0%nat.
Proof.
  assert (Hreach : reachable StringToNumber_digits ObjectToNumber_plain recording_world).
  { exists 1000, recording_run. vm_compute. reflexivity. }
  assert (Hs : exists s, sockets (env recording_world) !! 0%nat = Some s
                         /\ sock_state s = OPEN).
  { eexists. split; vm_compute; reflexivity. }
  split; [vm_compute; reflexivity|]. split; [vm_compute; reflexivity|].
  destruct Hs as (s & Hs & Hopen).
  exact (reachable_one_live_socket _ _ recording_world 0%nat s Hreach Hs
           (or_intror Hopen)).
Defined.

(** X14.  In every world a run can reach, every pending reconnect was
    scheduled with a delay of 3000 ms at a clock reading that has been
    reached; and a reconnect only fires when its 3000 ms are over. *)
Theorem reachable_reconnects_wait
        (S2N : string -> JsNumber) (O2N : nat -> JsNumber) (w : World) :
  reachable S2N O2N w ->
  (forall t, t ∈ timeouts (env w) ->
     timeout_delay t = 3000 /\ timeout_set_at t <= Date_now w) /\
  (forall i o w', step S2N O2N (EvTimeout i o) w = Some w' ->
     exists t, t ∈ timeouts (env w) /\ timeout_id t = i /\
               timeout_set_at t + 3000 <= Date_now w).
Proof.
  intros (t0 & evs & Hrun).
  pose proof (NetFacts.run_net_tidy S2N O2N evs _ _ Hrun
                (NetFacts.constructed_net_tidy t0)) as (_ & _ & Hto).
  rewrite Forall_forall in Hto. split; [exact Hto|].
  intros i o w' Hstep. cbn [step] in Hstep.
  destruct (filter _ (timeouts (env w))) as [|t l] eqn:Hf; [discriminate|].
  destruct (due t w) eqn:Hdue; [|discriminate].
  assert (Hin : t ∈ filter (fun t => timeout_id t = i) (timeouts (env w)))
    by (rewrite Hf; left).
  apply list_elem_of_filter in Hin as [Hid Hin].
  exists t. split; [assumption|]. split; [assumption|].
  destruct (Hto t Hin) as [Hdelay _]. unfold due in Hdue. rewrite Hdelay in Hdue.
  now apply Z.leb_le.
Qed.

Lemma reachable_reconnects_wait_witness :
  forallb (fun t => (timeout_delay t =? 3000) && (timeout_set_at t <=? 2000))
          (timeouts (env two_closes_world)) = true /\
  (forall t, t ∈ timeouts (env two_closes_world) ->
     timeout_delay t = 3000 /\ timeout_set_at t <= Date_now two_closes_world).
Proof.
  assert (Hreach : reachable StringToNumber_digits ObjectToNumber_plain two_closes_world).
  { exists 1000, two_closes_run. vm_compute. reflexivity. }
  split; [vm_compute; reflexivity|].
  exact (proj1 (reachable_reconnects_wait _ _ two_closes_world Hreach)).
Defined.

(** X15.  A connection attempt lets go of the socket the instance had,
    which is closing or closed from then on, and opens a new socket to
    the host and port of the current configuration, which becomes the
    instance's socket.  It does so at once, and it leaves the status,
    the pending reconnects, the proxy reference and the timers as they
    are.  When the socket cannot be constructed the instance has no
    socket and the status is a connection failure with the error's
    message, or ["Connect failed"] when the error has none. *)
Theorem connect_replaces_socket (o : Construction) (w : World) :
  net_tidy w ->
  (forall k s, sockets (env w) !! k = Some s ->
     exists s', sockets (env (_connect o w)) !! k = Some s' /\ live s' = false) /\
  timeouts (env (_connect o w)) = timeouts (env w) /\
  qweb (inst (_connect o w)) = qweb (inst w) /\
  intervals (env (_connect o w)) = intervals (env w) /\
  match o with
  | Built =>
      ws (inst (_connect o w)) = Some (length (sockets (env w))) /\
      sockets (env (_connect o w)) !! length (sockets (env w))
        = Some {| sock_host := host (config (inst w));
                  sock_port := port (config (inst w));
                  sock_state := CONNECTING; sock_channel := false |} /\
      status (env (_connect o w)) = status (env w)
  | Throws e =>
      ws (inst (_connect o w)) = None /\
      length (sockets (env (_connect o w))) = length (sockets (env w)) /\
      status (env (_connect o w))
        = Some (connection_failure (match e with
                                    | Some m => if decide (m = "") then "Connect failed" else m
                                    | None => "Connect failed"
                                    end))
  end.
Proof.
  intros H. destruct (NetFacts.drop_socket_spec w H)
    as (Hws & Hdead & Hlen & Ht & Hnow & Hcfg & Hst).
  assert (Hold : forall k s, sockets (env w) !! k = Some s ->
                 exists s', sockets (env (drop_socket w)) !! k = Some s').
  { intros k s Hk. apply lookup_lt_is_Some. rewrite Hlen. now apply lookup_lt_is_Some. }
  assert (Hframe : qweb (inst (drop_socket w)) = qweb (inst w) /\
                   intervals (env (drop_socket w)) = intervals (env w)).
  { unfold drop_socket. now destruct (ws (inst w)). }
  rewrite NetFacts.connect_shape. cbn zeta. destruct o; cbn.
  - split.
    { intros k s Hk. destruct (Hold k s Hk) as (s' & Hs'). exists s'.
      split; [now apply lookup_app_l_Some | now apply (Hdead k s')]. }
    split; [assumption|]. split; [apply Hframe|]. split; [apply Hframe|].
    split; [reflexivity|]. split; [|assumption].
    rewrite lookup_app_r by lia. rewrite Hlen, Nat.sub_diag. reflexivity.
  - split.
    { intros k s Hk. destruct (Hold k s Hk) as (s' & Hs'). exists s'.
      split; [assumption | now apply (Hdead k s')]. }
    split; [assumption|]. split; [apply Hframe|]. split; [apply Hframe|].
    split; [assumption|]. split; [assumption|].
    do 2 f_equal. unfold message_or. destruct message as [m|]; [|reflexivity].
    destruct (decide (m = "")) as [-> | Hm]; [reflexivity|].
    apply String.eqb_neq in Hm. now rewrite Hm.
Qed.

Lemma connect_replaces_socket_witness :
  net_tidy recording_world /\
  ws (inst (_connect Built recording_world)) = Some 1%nat /\
  sock_state <$> sockets (env (_connect Built recording_world)) !! 0%nat = Some CLOSING.
Proof.
  assert (Hreach : run StringToNumber_digits ObjectToNumber_plain recording_run
                       (constructed 1000) = Some recording_world)
    by (vm_compute; reflexivity).
  pose proof (NetFacts.run_net_tidy _ _ _ _ _ Hreach (NetFacts.constructed_net_tidy 1000))
    as Htidy.
  pose proof (connect_replaces_socket Built recording_world Htidy) as H.
  split; [exact Htidy|].
  split; [exact (proj1 (proj2 (proj2 (proj2 (proj2 H))))) | vm_compute; reflexivity].
Defined.

Lemma close_after_closing
      (S2N : string -> JsNumber) (O2N : nat -> JsNumber) (k : nat) (w1 : World) :
  socket_state k w1 = Some CLOSING ->
  exists w'', step S2N O2N (EvClose k) w1 = Some w'' /\
              length (timeouts (env w'')) = S (length (timeouts (env w1))) /\
              status (env w'') = Some disconnected.
Proof.
  intros Hstate. exists (on_close (set_socket_state k CLOSED w1)).
  cbn [step]. rewrite Hstate. split; [reflexivity|].
  destruct (CloseFacts.on_close_frame (set_socket_state k CLOSED w1))
    as (Hst & _ & _ & _ & _ & _ & Hto).
  split; [|exact Hst]. rewrite Hto, length_app. cbn. lia.
Qed.

(** X16.  When the channel cannot be constructed on an opened socket,
    the status becomes a connection failure, the error is logged, and
    the socket is closed by force; nothing is scheduled at that point.
    The reconnect comes with the close event of that socket, which can
    then happen. *)
Theorem handshake_failure_closes_socket
        (S2N : string -> JsNumber) (O2N : nat -> JsNumber)
        (k : nat) (e : option string) (w w' : World) :
  step S2N O2N (EvOpen k (Throws e)) w = Some w' ->
  status (env w') = Some (connection_failure "QWebChannel init failed") /\
  log (env w') = log (env w) ++ [(error, MsgQWebChannelInitFailed e)] /\
  socket_state k w' = Some CLOSING /\
  timeouts (env w') = timeouts (env w) /\
  qweb (inst w') = qweb (inst w) /\
  ws (inst w') = ws (inst w) /\
  exists w'', step S2N O2N (EvClose k) w' = Some w'' /\
              length (timeouts (env w'')) = S (length (timeouts (env w))) /\
              status (env w'') = Some disconnected.
Proof.
  cbn [step]. destruct (socket_state k w) as [[]|] eqn:Hk; try discriminate.
  intros [= <-].
  assert (Hstate : socket_state k
                     (on_open k (Throws e) (set_socket_state k OPEN w)) = Some CLOSING).
  { unfold socket_state in *. cbn. rewrite !list_lookup_alter_eq.
    destruct (sockets (env w) !! k) as [s|]; [reflexivity | discriminate]. }
  repeat match goal with |- _ /\ _ => split end; try reflexivity; [exact Hstate|].
  destruct (close_after_closing S2N O2N k _ Hstate) as (w'' & Hstep & Hlen & Hst).
  exists w''. split; [exact Hstep|]. split; [exact Hlen | exact Hst].
Qed.

Lemma handshake_failure_closes_socket_witness :
  socket_state 0 (on_open 0 (Throws (Some "boom")) (set_socket_state 0 OPEN connecting_world))
  = Some CLOSING.
Proof.
  assert (Hstep : step StringToNumber_digits ObjectToNumber_plain
                       (EvOpen 0 (Throws (Some "boom"))) connecting_world
                  = Some (on_open 0 (Throws (Some "boom"))
                            (set_socket_state 0 OPEN connecting_world)))
    by (vm_compute; reflexivity).
  exact (proj1 (proj2 (proj2 (handshake_failure_closes_socket _ _ _ _ _ _ Hstep)))).
Defined.

Module ScheduleFacts.

Lemma connect_timeouts (o : Construction) (w : World) :
  timeouts (env (_connect o w)) = timeouts (env w).
Proof. unfold _connect. destruct (ws (inst w)), o; reflexivity. Qed.

Lemma view_timeouts (w1 w2 : World) :
  net_view w2 = net_view w1 -> timeouts (env w2) = timeouts (env w1).
Proof. unfold net_view. now intros [= _ _ ->]. Qed.

End ScheduleFacts.

(** X17.  Only the close event of a socket adds a pending reconnect,
    and it adds exactly one; only a reconnect that fires removes one.
    Every other event, a socket error and a configuration change among
    them, leaves the pending reconnects as they are. *)
Theorem only_close_schedules
        (S2N : string -> JsNumber) (O2N : nat -> JsNumber)
        (ev : Event) (w w' : World) :
  step S2N O2N ev w = Some w' ->
  match ev with
  | EvClose _ =>
      timeouts (env w')
      = timeouts (env w)
        ++ [{| timeout_id := next_timer (env w); timeout_set_at := Date_now w;
               timeout_delay := 3000 |}]
  | EvTimeout i _ =>
      timeouts (env w') = filter (fun t => timeout_id t <> i) (timeouts (env w))
  | _ => timeouts (env w') = timeouts (env w)
  end.
Proof.
  intros Hstep. destruct ev; cbn [step] in Hstep.
  - injection Hstep as <-. unfold init. now rewrite ScheduleFacts.connect_timeouts.
  - injection Hstep as <-. unfold configUpdated.
    now rewrite ScheduleFacts.connect_timeouts.
  - injection Hstep as <-. destruct w as [[s ? ? ? ? ? ? ? ? rt st] e].
    now destruct s, rt, st.
  - destruct (socket_state k w) as [[]|]; try discriminate.
    injection Hstep as <-. now destruct o.
  - destruct (sockets (env w) !! k) as [s|]; [|discriminate].
    destruct (sock_state s), (sock_channel s); try discriminate.
    injection Hstep as <-.
    now rewrite (ScheduleFacts.view_timeouts _ _ (NetFacts.on_channel_net _ _)).
  - apply (ReconnectFacts.step_close_timeouts S2N O2N k w w' Hstep).
  - destruct (socket_state k w); [|discriminate]. now injection Hstep as <-.
  - destruct (filter _ (timeouts (env w))) as [|t ?]; [discriminate|].
    destruct (due t w); [|discriminate].
    injection Hstep as <-. now rewrite ScheduleFacts.connect_timeouts.
  - destruct (filter _ (intervals (env w))) as [|iv ?]; [discriminate|].
    injection Hstep as <-. now destruct (interval_kind iv).
  - destruct (sub_sceneChanged (env w)); [|discriminate]. now injection Hstep as <-.
  - destruct (sub_isRecordingChanged (env w)); [|discriminate].
    injection Hstep as <-. unfold on_isRecordingChanged.
    match goal with |- context [match qweb (inst ?w0) with _ => _ end] =>
      destruct (qweb (inst w0))
    end; [|reflexivity].
    now rewrite (ScheduleFacts.view_timeouts _ _ (NetFacts.onRecording_net _ _)).
  - destruct (sub_isStreamingChanged (env w)); [|discriminate].
    injection Hstep as <-. unfold on_isStreamingChanged.
    match goal with |- context [match qweb (inst ?w0) with _ => _ end] =>
      destruct (qweb (inst w0))
    end; [|reflexivity].
    now rewrite (ScheduleFacts.view_timeouts _ _ (NetFacts.onStreaming_net _ _)).
  - destruct (pending_getScenes (env w)); [discriminate|]. now injection Hstep as <-.
  - destruct (actions (env w) !! key); [|discriminate].
    injection Hstep as <-.
    now rewrite (ScheduleFacts.view_timeouts _ _ (NetFacts.run_callback_net _ _)).
  - destruct (0 <=? dt); [|discriminate]. now injection Hstep as <-.
Qed.

Lemma only_close_schedules_witness :
  timeouts (env (on_error (Some "connect ECONNREFUSED") bound_world))
  = timeouts (env bound_world).
Proof.
  assert (Hstep : step StringToNumber_digits ObjectToNumber_plain
                       (EvError 0 (Some "connect ECONNREFUSED")) bound_world
                  = Some (on_error (Some "connect ECONNREFUSED") bound_world))
    by (vm_compute; reflexivity).
  exact (only_close_schedules _ _ _ _ _ Hstep).
Defined.

(** ** Start-up, teardown and feedback *)


(** X19.  Teardown clears both timer fields, leaves no interval active
    and makes the instance let go of its socket, which is closing or
    closed afterwards; a second teardown changes nothing.  It does not
    touch the flags, the published values or the proxy reference, and
    it cancels no pending reconnect: the close event of the socket it
    closed still schedules one. *)
Theorem destroy_stops_and_lets_go
        (S2N : string -> JsNumber) (O2N : nat -> JsNumber) (w : World) :
  ticks_owned w ->
  recordTimer (inst (destroy w)) = None /\
  streamTimer (inst (destroy w)) = None /\
  intervals (env (destroy w)) = [] /\
  ws (inst (destroy w)) = None /\
  (forall k s, ws (inst w) = Some k -> sockets (env w) !! k = Some s ->
     sockets (env (destroy w)) !! k = Some (closing s)) /\
  destroy (destroy w) = destroy w /\
  variables (env (destroy w)) = variables (env w) /\
  isRecording (inst (destroy w)) = isRecording (inst w) /\
  isStreaming (inst (destroy w)) = isStreaming (inst w) /\
  timeouts (env (destroy w)) = timeouts (env w) /\
  (forall k w', step S2N O2N (EvClose k) (destroy w) = Some w' ->
     length (timeouts (env w')) = S (length (timeouts (env w)))).
Proof.
  intros Hown.
  assert (Hticks : intervals (env (destroy w)) = []).
  { destruct (TimerFacts.stopTimer_owned RecordTick _ Hown) as (H1 & Hrec & _).
    destruct (TimerFacts.stopTimer_owned StreamTick _ H1) as (_ & Hstr & _).
    cbn [stopTimer] in *.
    assert (E : intervals (env (destroy w))
                = intervals (env (_stopStreamTimer (_stopRecordTimer w)))).
    { unfold destroy. now destruct (ws (inst (_stopStreamTimer (_stopRecordTimer w)))). }
    rewrite E.
    destruct (intervals (env (_stopStreamTimer _))) as [|iv l] eqn:El; [reflexivity|].
    exfalso.
    assert (Hin : iv ∈ intervals (env (_stopStreamTimer (_stopRecordTimer w))))
      by (rewrite El; left).
    destruct (interval_kind iv) eqn:Hk.
    - apply (CloseFacts.stopTimer_sub StreamTick) in Hin.
      exact (filter_nil_not_elem_of _ _ iv Hrec Hk Hin).
    - exact (filter_nil_not_elem_of _ _ iv Hstr Hk Hin). }
  assert (Hto : timeouts (env (destroy w)) = timeouts (env w)).
  { destruct w as [[s ? ? ? ? ? ? ? ? rt st] e]. now destruct s, rt, st. }
  split. { destruct w as [[s ? ? ? ? ? ? ? ? rt st] e]. now destruct s, rt, st. }
  split. { destruct w as [[s ? ? ? ? ? ? ? ? rt st] e]. now destruct s, rt, st. }
  split; [exact Hticks|].
  split. { destruct w as [[s ? ? ? ? ? ? ? ? rt st] e]. now destruct s, rt, st. }
  split.
  { intros k s Hws Hk. destruct w as [[s0 ? ? ? ? ? ? ? ? rt st] e]. cbn in Hws, Hk.
    subst s0. destruct rt, st; cbn; now rewrite list_lookup_alter_eq, Hk. }
  split.
  { destruct w as [[s ? ? ? ? ? ? ? ? rt st] e]. now destruct s, rt, st. }
  split. { destruct w as [[s ? ? ? ? ? ? ? ? rt st] e]. now destruct s, rt, st. }
  split. { destruct w as [[s ? ? ? ? ? ? ? ? rt st] e]. now destruct s, rt, st. }
  split. { destruct w as [[s ? ? ? ? ? ? ? ? rt st] e]. now destruct s, rt, st. }
  split; [exact Hto|].
  intros k w' Hstep. apply ReconnectFacts.step_close_timeouts in Hstep.
  rewrite Hstep, length_app, Hto. cbn. lia.
Qed.

Lemma destroy_stops_and_lets_go_witness :
  ticks_owned recording_world /\
  length (intervals (env recording_world)) = 1%nat /\
  intervals (env (destroy recording_world)) = [] /\
  destroy (destroy recording_world) = destroy recording_world.
Proof.
  assert (Hown : ticks_owned recording_world)
    by (apply (bool_decide_unpack (ticks_owned recording_world)); vm_compute; exact I).
  pose proof (destroy_stops_and_lets_go StringToNumber_digits ObjectToNumber_plain
                recording_world Hown) as H.
  split; [exact Hown|]. split; [vm_compute; reflexivity|].
  split; [exact (proj1 (proj2 (proj2 H)))|].
  exact (proj1 (proj2 (proj2 (proj2 (proj2 (proj2 H)))))).
Defined.

(** X20.  The scene feedback is on for exactly the scene of the last
    [sceneChanged] signal: after the signal with a non-empty scene
    identifier, the feedback of an option is on if and only if the
    option is that identifier, and the host is asked once more to
    re-check its feedbacks.  Before any signal no feedback is on, and
    binding a channel does not by itself set the current scene. *)
Theorem scene_feedback_follows_signal
        (sid : string) (option_scene : option string) (w : World) (meld : option Proxy)
        (t0 : Z) :
  sid <> "" ->
  (scene_active option_scene (on_sceneChanged sid w) = true <-> option_scene = Some sid) /\
  feedback_checks (env (on_sceneChanged sid w)) = S (feedback_checks (env w)) /\
  scene_active option_scene (constructed t0) = false /\
  currentSceneId (inst (on_channel meld w)) = currentSceneId (inst w).
Proof.
  intros Hsid. split; [|split; [reflexivity|split; [reflexivity|]]].
  - unfold scene_active. cbn. apply String.eqb_neq in Hsid. rewrite Hsid.
    apply bool_decide_eq_true.
  - unfold on_channel, _refreshScenes.
    assert (Hchange : forall k b w1,
              currentSceneId (inst (onStateChange k b w1)) = currentSceneId (inst w1)).
    { intros k b [[? ? ? ? ? r s ? ? rt st] e]. now destruct k, b, r, s, rt, st. }
    pose proof (Hchange RecordTick) as Hr. pose proof (Hchange StreamTick) as Hs.
    cbn [onStateChange] in Hr, Hs.
    destruct meld as [p|]; cbn [fmap option_fmap option_map].
    + repeat match goal with
             | |- context [match ?x with _ => _ end] =>
                 lazymatch x with
                 | p_isRecording p => destruct (p_isRecording p)
                 | p_isStreaming p => destruct (p_isStreaming p)
                 | qweb _ => destruct x
                 | has_method _ _ => destruct x
                 | session_items _ => destruct x
                 end
             | |- context [if has_method ?a ?b then _ else _] => destruct (has_method a b)
             end; cbn; rewrite ?Hs, ?Hr; reflexivity.
    + reflexivity.
Qed.

Lemma scene_feedback_follows_signal_witness :
  scene_active (Some "A") (on_sceneChanged "A" bound_world) = true /\
  scene_active (Some "B") (on_sceneChanged "A" bound_world) = false.
Proof.
  assert (Hne : "A" <> "") by discriminate.
  pose proof (scene_feedback_follows_signal "A" (Some "A") bound_world None 0 Hne) as HA.
  split; [exact (proj2 (proj1 HA) eq_refl) | vm_compute; reflexivity].
Defined.

(** ** The transport *)

(** X21.  [transport.send] never throws.  A string is written to the
    socket as it is and anything else in its JSON text; when the
    conversion or the write throws, nothing is written and, if a logger
    was given, exactly one error is logged with what was thrown.
    Nothing is handed to the channel. *)
Theorem transport_send_never_throws
        (logger : bool) (outcome : Construction) (data : Transport.Payload)
        (s : Transport.State) :
  let r := Transport.send logger outcome data s in
  r.1 = Transport.Returns tt /\
  Transport.delivered r.2 = Transport.delivered s /\
  match data, outcome with
  | Transport.Text t, Built | Transport.Other (Transport.Returns t), Built =>
      Transport.wire r.2 = Transport.wire s ++ [t] /\
      Transport.tlog r.2 = Transport.tlog s
  | Transport.Other (Transport.Raises e), _ | _, Throws e =>
      Transport.wire r.2 = Transport.wire s /\
      Transport.tlog r.2
        = (if logger then Transport.tlog s ++ [(error, Transport.MsgSendFailed e)]
           else Transport.tlog s)
  end.
Proof.
  destruct s. destruct data as [t | [t | e]], outcome as [| e'], logger;
    cbn; repeat split; reflexivity.
Qed.

(** X22.  The message listener never throws into the socket's event
    dispatch.  While no handler is installed a message is dropped
    without a trace; with a handler the text of the message is handed
    over, a binary message as its text; and when the conversion or the
    handler throws, exactly one error is logged if a logger was given.
    Nothing is written to the socket. *)
Theorem transport_message_never_throws
        (logger : bool) (handler : option (string -> Construction))
        (data : Transport.Payload) (s : Transport.State) :
  let r := Transport.on_message logger handler data s in
  r.1 = Transport.Returns tt /\
  Transport.wire r.2 = Transport.wire s /\
  match data with
  | Transport.Text t | Transport.Other (Transport.Returns t) =>
      match handler with
      | None => r.2 = s
      | Some h =>
          Transport.delivered r.2 = Transport.delivered s ++ [t] /\
          Transport.tlog r.2
            = match h t with
              | Built => Transport.tlog s
              | Throws e =>
                  if logger
                  then Transport.tlog s ++ [(error, Transport.MsgOnMessageFailed e)]
                  else Transport.tlog s
              end
      end
  | Transport.Other (Transport.Raises e) =>
      Transport.delivered r.2 = Transport.delivered s /\
      Transport.tlog r.2
        = (if logger then Transport.tlog s ++ [(error, Transport.MsgOnMessageFailed e)]
           else Transport.tlog s)
  end.
Proof.
  destruct s. destruct data as [t | [t | e]], handler as [h|], logger; cbn;
    unfold Transport.on_message, Transport.try_catch, Transport.bind, Transport.deliver;
    cbn; try (destruct (h t)); cbn; repeat split; reflexivity.
Qed.

(** ** Two independent timers *)

Module HandleFacts.

Lemma handles_fresh_view (w1 w2 : World) :
  handle_view w2 = handle_view w1 -> handles_fresh w1 -> handles_fresh w2.
Proof.
  unfold handle_view, handles_fresh. intros E (H1 & H2 & H3).
  injection E as Ei Er Es En. rewrite Ei, En, Er, Es. split; [assumption|].
  split; [|assumption].
  intros k i. specialize (H2 k i). destruct k; cbn [owner] in *; now rewrite ?Er, ?Es.
Qed.

Ltac same_handles :=
  match goal with
  | H : handles_fresh ?w |- handles_fresh _ =>
      apply (handles_fresh_view w); [reflexivity | exact H]
  end.

Lemma constructed_fresh (t0 : Z) : handles_fresh (constructed t0).
Proof.
  split; [apply Forall_nil_2|]. split; [|discriminate].
  intros k i H. now destruct k.
Qed.

Lemma stopTimer_fresh (k : TickKind) (w : World) :
  handles_fresh w -> handles_fresh (stopTimer k w).
Proof.
  intros (H1 & H2 & H3). pose proof (H2 RecordTick) as Hr. pose proof (H2 StreamTick) as Hs.
  destruct w as [[? ? ? ? ? ? ? ? ? rt st] e]. cbn in *.
  destruct k, rt as [r|], st as [s|]; cbn;
    (split; [|split]); cbn;
    try (apply Forall_forall; intros iv Hin; apply list_elem_of_filter in Hin as [_ Hin];
         rewrite Forall_forall in H1; now apply H1);
    try assumption; try discriminate;
    intros [] i; cbn; try discriminate; auto.
Qed.

Lemma start_fresh (k : TickKind) (w : World) :
  handles_fresh w -> handles_fresh (start k w).
Proof.
  intros H.
  set (w0 := match k with
             | RecordTick =>
                 on_inst (set_recordStart (Some (Date_now w)))
                         (on_inst (set_isRecording true) w)
             | StreamTick =>
                 on_inst (set_streamStart (Some (Date_now w)))
                         (on_inst (set_isStreaming true) w)
             end).
  assert (H0 : handles_fresh (stopTimer k w0)).
  { apply stopTimer_fresh. apply (handles_fresh_view w); [unfold w0; now destruct k|].
    assumption. }
  assert (Hshape : exists n, n = next_timer (env (stopTimer k w0)) /\
    intervals (env (start k w))
      = intervals (env (stopTimer k w0))
        ++ [{| interval_id := n; interval_kind := k; interval_period := 1000 |}] /\
    next_timer (env (start k w)) = S n /\
    owner k (start k w) = Some n /\
    forall k', k' <> k -> owner k' (start k w) = owner k' (stopTimer k w0)).
  { exists (next_timer (env (stopTimer k w0))). split; [reflexivity|].
    unfold w0. destruct w as [[? ? ? ? ? ? ? ? ? rt st] e].
    destruct k, rt, st; cbn; repeat split; intros [] Hk; try congruence; reflexivity. }
  destruct Hshape as (n & Hn & Hint & Hnext & Hnew & Hother).
  destruct H0 as (H1 & H2 & H3). rewrite <- Hn in *.
  pose proof (H2 RecordTick) as Hr. pose proof (H2 StreamTick) as Hs.
  pose proof (Hother RecordTick) as Hor. pose proof (Hother StreamTick) as Hos.
  split; [|split].
  - rewrite Hint, Hnext. apply Forall_app. split.
    + eapply Forall_impl; [exact H1|]. cbn. intros; lia.
    + constructor; [cbn; lia | constructor].
  - intros k' i. rewrite Hnext. destruct (decide (k' = k)) as [-> | Hne].
    + rewrite Hnew. intros [= <-]. lia.
    + rewrite Hother by assumption. intros Hi. specialize (H2 k' i Hi). lia.
  - intros i. destruct k; cbn [owner] in *.
    + rewrite Hnew, Hos by discriminate. intros [= <-] Hsi.
      specialize (Hs _ Hsi). lia.
    + rewrite Hnew, Hor by discriminate. intros Hri [= <-].
      specialize (Hr _ Hri). lia.
Qed.

Lemma stop_fresh (k : TickKind) (w : World) : handles_fresh w -> handles_fresh (stop k w).
Proof.
  intros H. destruct k; cbn [stop]; unfold _stopRecording, _stopStreaming.
  - assert (H0 : handles_fresh (on_inst (set_isRecording false) w)) by same_handles.
    apply (stopTimer_fresh RecordTick) in H0. cbn [stopTimer] in H0. same_handles.
  - assert (H0 : handles_fresh (on_inst (set_isStreaming false) w)) by same_handles.
    apply (stopTimer_fresh StreamTick) in H0. cbn [stopTimer] in H0. same_handles.
Qed.

Lemma onStateChange_fresh (k : TickKind) (b : bool) (w : World) :
  handles_fresh w -> handles_fresh (onStateChange k b w).
Proof.
  intros H.
  destruct k; cbn [onStateChange];
    unfold _onRecordingStateChange, _onStreamingStateChange;
    repeat match goal with |- context [if ?c then _ else _] => destruct c end;
    try assumption.
  - now apply (start_fresh RecordTick).
  - now apply (stop_fresh RecordTick).
  - now apply (start_fresh StreamTick).
  - now apply (stop_fresh StreamTick).
Qed.

Lemma run_callback_fresh (cb : Callback) (w : World) :
  handles_fresh w -> handles_fresh (run_callback cb w).
Proof.
  intros H. rewrite ActionFacts.run_callback_split.
  set (calls := calls_of cb (qweb (inst w))).
  assert (H0 : handles_fresh
                 (on_env (fun e => set_remote_calls (remote_calls e ++ calls) e) w))
    by same_handles.
  destruct cb; cbn [local_entry]; try assumption;
    first [ now apply (onStateChange_fresh StreamTick)
          | now apply (onStateChange_fresh RecordTick) ].
Qed.

Lemma refreshScenes_fresh (w : World) :
  handles_fresh w -> handles_fresh (_refreshScenes w).
Proof.
  intros H. unfold _refreshScenes.
  destruct (qweb (inst w)) as [p|]; [|assumption].
  destruct (has_method p "getScenes"); [same_handles|].
  destruct (session_items p); same_handles.
Qed.

Lemma connect_fresh (o : Construction) (w : World) :
  handles_fresh w -> handles_fresh (_connect o w).
Proof. intros H. unfold _connect. destruct (ws (inst w)); destruct o; same_handles. Qed.

Lemma on_channel_fresh (meld : option Proxy) (w : World) :
  handles_fresh w -> handles_fresh (on_channel meld w).
Proof.
  intros H. unfold on_channel. apply refreshScenes_fresh.
  destruct meld as [p|]; cbn [fmap option_fmap option_map]; [|same_handles].
  destruct (p_isRecording p), (p_isStreaming p);
    repeat first [ apply (onStateChange_fresh StreamTick)
                 | apply (onStateChange_fresh RecordTick) ];
    same_handles.
Qed.

(** One more handle given out, to a reconnect. *)
Lemma bump_fresh (w : World) :
  handles_fresh w -> handles_fresh (setTimeout_connect 3000 w).
Proof.
  intros (H1 & H2 & H3). split; [|split].
  - cbn. eapply Forall_impl; [exact H1|]. cbn. intros; lia.
  - intros k i Hi. cbn. specialize (H2 k i). destruct k; cbn in *; specialize (H2 Hi); lia.
  - exact H3.
Qed.

Lemma on_close_fresh (w : World) : handles_fresh w -> handles_fresh (on_close w).
Proof.
  intros H. unfold on_close. apply bump_fresh.
  assert (H0 : handles_fresh (updateStatus disconnected w)) by same_handles.
  apply (stopTimer_fresh RecordTick) in H0. apply (stopTimer_fresh StreamTick) in H0.
  exact H0.
Qed.

Lemma destroy_fresh (w : World) : handles_fresh w -> handles_fresh (destroy w).
Proof.
  intros H. unfold destroy.
  apply (stopTimer_fresh RecordTick) in H. apply (stopTimer_fresh StreamTick) in H.
  cbn [stopTimer] in H.
  destruct (ws (inst (_stopStreamTimer (_stopRecordTimer w)))); [same_handles | assumption].
Qed.

Section Steps.

Variable StringToNumber : string -> JsNumber.
Variable ObjectToNumber : nat -> JsNumber.

Lemma step_fresh (ev : Event) (w w' : World) :
  step StringToNumber ObjectToNumber ev w = Some w' -> handles_fresh w -> handles_fresh w'.
Proof.
  intros Hstep H. destruct ev; cbn [step] in Hstep.
  - injection Hstep as <-. unfold init. apply connect_fresh. same_handles.
  - injection Hstep as <-. unfold configUpdated. apply connect_fresh. same_handles.
  - injection Hstep as <-. now apply destroy_fresh.
  - destruct (socket_state k w) as [[]|]; try discriminate.
    injection Hstep as <-. unfold on_open. destruct o; same_handles.
  - destruct (sockets (env w) !! k) as [s|]; [|discriminate].
    destruct (sock_state s), (sock_channel s); try discriminate.
    injection Hstep as <-. apply on_channel_fresh. same_handles.
  - destruct (socket_state k w) as [[]|]; try discriminate;
      injection Hstep as <-; apply on_close_fresh; same_handles.
  - destruct (socket_state k w); [|discriminate].
    injection Hstep as <-. same_handles.
  - destruct (filter _ (timeouts (env w))) as [|t ?]; [discriminate|].
    destruct (due t w); [|discriminate].
    injection Hstep as <-. apply connect_fresh. same_handles.
  - destruct (filter _ (intervals (env w))) as [|iv ?]; [discriminate|].
    injection Hstep as <-. destruct (interval_kind iv); same_handles.
  - destruct (sub_sceneChanged (env w)); [|discriminate].
    injection Hstep as <-. same_handles.
  - destruct (sub_isRecordingChanged (env w)); [|discriminate].
    injection Hstep as <-. unfold on_isRecordingChanged.
    match goal with |- handles_fresh (match qweb (inst ?w0) with _ => _ end) =>
      assert (H0 : handles_fresh w0) by same_handles; destruct (qweb (inst w0))
    end; [|assumption].
    now apply (onStateChange_fresh RecordTick).
  - destruct (sub_isStreamingChanged (env w)); [|discriminate].
    injection Hstep as <-. unfold on_isStreamingChanged.
    match goal with |- handles_fresh (match qweb (inst ?w0) with _ => _ end) =>
      assert (H0 : handles_fresh w0) by same_handles; destruct (qweb (inst w0))
    end; [|assumption].
    now apply (onStateChange_fresh StreamTick).
  - destruct (pending_getScenes (env w)); [discriminate|].
    injection Hstep as <-. same_handles.
  - destruct (actions (env w) !! key); [|discriminate].
    injection Hstep as <-. now apply run_callback_fresh.
  - destruct (0 <=? dt); [|discriminate].
    injection Hstep as <-. same_handles.
Qed.

Lemma run_fresh (evs : list Event) (w w' : World) :
  run StringToNumber ObjectToNumber evs w = Some w' -> handles_fresh w -> handles_fresh w'.
Proof.
  revert w. induction evs as [|ev evs IH]; intros w Hrun H; cbn [run] in Hrun.
  - now injection Hrun as <-.
  - destruct (step StringToNumber ObjectToNumber ev w) as [w1|] eqn:E; [|discriminate].
    apply (IH w1); [assumption|]. now apply (step_fresh ev w).
Qed.

End Steps.

(** With distinct handles, clearing the timer of one kind leaves the
    tick sources of the other kind. *)
Lemma stopTimer_other (k k' : TickKind) (w : World) :
  ticks_owned w -> handles_fresh w -> k' <> k ->
  ticking k' (stopTimer k w) = ticking k' w.
Proof.
  intros Hown (_ & _ & Hdistinct) Hne.
  pose proof (proj1 (TimerFacts.ticks_owned_spec w) Hown) as Hiv.
  assert (Hcase : intervals (env (stopTimer k w)) = intervals (env w) \/
                  exists i, owner k w = Some i /\
                    intervals (env (stopTimer k w))
                    = filter (fun iv => interval_id iv <> i) (intervals (env w))).
  { destruct k; cbn [stopTimer owner]; unfold _stopRecordTimer, _stopStreamTimer.
    - destruct (recordTimer (inst w)) as [i|]; [right; now exists i | now left].
    - destruct (streamTimer (inst w)) as [i|]; [right; now exists i | now left]. }
  unfold ticking. destruct Hcase as [-> | (i & Hi & ->)]; [reflexivity|].
  rewrite list_filter_filter.
  induction (intervals (env w)) as [|iv l IH]; [reflexivity|].
  assert (Hhead : interval_kind iv = k' -> interval_id iv <> i).
  { intros Hk Hid. specialize (Hiv iv ltac:(left)). rewrite Hk, Hid in Hiv.
    destruct k, k'; cbn [owner] in *; try congruence.
    - exact (Hdistinct i Hi Hiv).
    - exact (Hdistinct i Hiv Hi). }
  rewrite !filter_cons. 
  assert (IH' : filter (fun x => interval_kind x = k' /\ interval_id x <> i) l
                = filter (fun iv => interval_kind iv = k') l).
  { apply IH. intros iv' Hin. apply Hiv. now right. }
  destruct (decide (interval_kind iv = k')) as [Hk | Hk].
  - rewrite decide_True by (split; [assumption | now apply Hhead]). now rewrite IH'.
  - rewrite decide_False by tauto. exact IH'.
Qed.

End HandleFacts.

Module IndependenceFacts.

Lemma start_intervals (k : TickKind) (w : World) :
  exists n,
    intervals (env (start k w))
    = intervals (env (stopTimer k w))
      ++ [{| interval_id := n; interval_kind := k; interval_period := 1000 |}].
Proof.
  destruct w as [[? ? ? ? ? ? ? ? ? rt st] e].
  destruct k, rt, st; cbn; eexists; reflexivity.
Qed.

Lemma start_other (k k' : TickKind) (w : World) :
  k' <> k ->
  active k' (start k w) = active k' w /\
  start_of k' (start k w) = start_of k' w /\
  owner k' (start k w) = owner k' w /\
  variables (env (start k w)) = variables (env w).
Proof.
  intros Hne. destruct w as [[? ? ? ? ? ? ? ? ? rt st] e].
  destruct k, k'; try congruence; destruct rt, st; now repeat split.
Qed.

Lemma stop_other (k k' : TickKind) (w : World) :
  k' <> k ->
  active k' (stop k w) = active k' w /\
  start_of k' (stop k w) = start_of k' w /\
  owner k' (stop k w) = owner k' w /\
  intervals (env (stop k w)) = intervals (env (stopTimer k w)) /\
  variables (env (stop k w)) !! timecode k' = variables (env w) !! timecode k'.
Proof.
  intros Hne. destruct w as [[? ? ? ? ? ? ? ? ? rt st] e].
  destruct k, k'; try congruence; destruct rt, st; cbn;
    repeat split; unfold setVariableValues; cbn;
    now rewrite lookup_insert_ne by discriminate.
Qed.

Lemma cleared_handle_gone (i : nat) (l : list Interval) :
  filter (fun iv => interval_id iv = i) (filter (fun iv => interval_id iv <> i) l) = [].
Proof.
  apply TimerFacts.filter_none. intros iv Hin. now apply list_elem_of_filter in Hin as [Hne _].
Qed.

Lemma filter_sub_gone (i j : nat) (l : list Interval) :
  filter (fun iv => interval_id iv = i) l = [] ->
  filter (fun iv => interval_id iv = i) (filter (fun iv => interval_id iv <> j) l) = [].
Proof.
  intros H. apply TimerFacts.filter_none. intros iv Hin Hid.
  apply list_elem_of_filter in Hin as [_ Hin].
  exact (filter_nil_not_elem_of _ _ iv H Hid Hin).
Qed.

End IndependenceFacts.

(** X23.  The two timers are independent.  In every world a run can
    reach, a state change notification for one kind, whether it starts
    the timer, stops it or is redundant, leaves the other kind's flag,
    start timestamp, timer field, tick source and published value
    exactly as they were. *)
Theorem timers_are_independent
        (S2N : string -> JsNumber) (O2N : nat -> JsNumber)
        (w : World) (k k' : TickKind) (b : bool) :
  reachable S2N O2N w ->
  k' <> k ->
  active k' (onStateChange k b w) = active k' w /\
  start_of k' (onStateChange k b w) = start_of k' w /\
  owner k' (onStateChange k b w) = owner k' w /\
  ticking k' (onStateChange k b w) = ticking k' w /\
  variables (env (onStateChange k b w)) !! timecode k'
    = variables (env w) !! timecode k'.
Proof.
  intros Hreach Hne.
  pose proof (Reach.reachable_owned S2N O2N w Hreach) as Hown.
  destruct Hreach as (t0 & evs & Hrun).
  pose proof (HandleFacts.run_fresh S2N O2N evs _ _ Hrun (HandleFacts.constructed_fresh t0))
    as Hfresh.
  pose proof (HandleFacts.stopTimer_other k k' w Hown Hfresh Hne) as Hticks.
  assert (Hcases : onStateChange k b w = start k w \/ onStateChange k b w = stop k w
                   \/ onStateChange k b w = w).
  { destruct k; cbn [onStateChange start stop];
      unfold _onRecordingStateChange, _onStreamingStateChange;
      repeat match goal with |- context [if ?c then _ else _] => destruct c end; tauto. }
  destruct Hcases as [-> | [-> | ->]]; [| |now repeat split].
  - destruct (IndependenceFacts.start_other k k' w Hne) as (Ha & Hs & Ho & Hv).
    rewrite Ha, Hs, Ho, Hv. repeat split.
    destruct (IndependenceFacts.start_intervals k w) as (n & Hint).
    unfold ticking in *. rewrite Hint, filter_app, filter_cons_False, filter_nil, app_nil_r
      by (cbn; congruence).
    exact Hticks.
  - destruct (IndependenceFacts.stop_other k k' w Hne) as (Ha & Hs & Ho & Hint & Hv).
    rewrite Ha, Hs, Ho, Hv. repeat split.
    unfold ticking in *. now rewrite Hint.
Qed.

Lemma timers_are_independent_witness :
  ticking RecordTick (onStateChange StreamTick true recording_world)
    = ticking RecordTick recording_world /\
  length (ticking RecordTick recording_world) = 1%nat /\
  length (ticking StreamTick (onStateChange StreamTick true recording_world)) = 1%nat.
Proof.
  assert (Hreach : reachable StringToNumber_digits ObjectToNumber_plain recording_world).
  { exists 1000, recording_run. vm_compute. reflexivity. }
  assert (Hne : RecordTick <> StreamTick) by discriminate.
  pose proof (timers_are_independent _ _ recording_world StreamTick RecordTick true
                Hreach Hne) as H.
  split; [exact (proj1 (proj2 (proj2 (proj2 H))))|].
  split; vm_compute; reflexivity.
Defined.

(** X24.  A timer that was cleared never ticks again: after a stop of
    its kind, after the close handler and after teardown, the interval
    the timer field referred to cannot fire any more, so the value
    published by a stop is not overwritten by a late tick. *)
Theorem cleared_timer_never_ticks
        (S2N : string -> JsNumber) (O2N : nat -> JsNumber)
        (k : TickKind) (w : World) (i : nat) :
  owner k w = Some i ->
  step S2N O2N (EvInterval i) (stop k w) = None /\
  step S2N O2N (EvInterval i) (on_close w) = None /\
  step S2N O2N (EvInterval i) (destroy w) = None.
Proof.
  intros Hi.
  assert (Hgone : forall w1,
            filter (fun iv => interval_id iv = i) (intervals (env w1)) = [] ->
            step S2N O2N (EvInterval i) w1 = None).
  { intros w1 H. cbn [step]. now rewrite H. }
  destruct w as [[s ? ? ? ? ? ? ? ? rt st] e].
  repeat split; apply Hgone; destruct k; cbn in Hi; subst;
    try destruct rt as [r|]; try destruct st as [t|]; try destruct s; cbn;
    first [ apply IndependenceFacts.cleared_handle_gone
          | apply IndependenceFacts.filter_sub_gone,
                  IndependenceFacts.cleared_handle_gone ].
Qed.

Lemma cleared_timer_never_ticks_witness :
  owner RecordTick recording_world = Some 0%nat /\
  step StringToNumber_digits ObjectToNumber_plain (EvInterval 0)
       (_stopRecording recording_world) = None.
Proof.
  assert (Hi : owner RecordTick recording_world = Some 0%nat) by (vm_compute; reflexivity).
  split; [exact Hi|].
  exact (proj1 (cleared_timer_never_ticks StringToNumber_digits ObjectToNumber_plain
                  RecordTick recording_world 0%nat Hi)).
Defined.

(** ** What a bind reconciles *)

Module ReconcileFacts.

Lemma onStateChange_cases (k : TickKind) (b : bool) (w : World) :
  onStateChange k b w
  = if b then (if active k w then w else start k w)
    else (if active k w then stop k w else w).
Proof.
  destruct k; cbn [onStateChange active start stop];
    unfold _onRecordingStateChange, _onStreamingStateChange;
    destruct b; cbn [andb negb].
  - now destruct (isRecording (inst w)).
  - now destruct (isRecording (inst w)).
  - now destruct (isStreaming (inst w)).
  - now destruct (isStreaming (inst w)).
Qed.

(** A stop, seen through the view of its kind. *)
Lemma stop_view (k : TickKind) (w : World) :
  ticks_owned w ->
  kind_view k (stop k w) = (false, start_of k w, None, [], Some "00:00:00").
Proof.
  intros Hown.
  set (w0 := match k with
             | RecordTick => on_inst (set_isRecording false) w
             | StreamTick => on_inst (set_isStreaming false) w
             end).
  assert (Hown0 : ticks_owned w0).
  { apply (TimerFacts.ticks_owned_view w); [unfold w0; now destruct k | assumption]. }
  destruct (TimerFacts.stopTimer_owned k w0 Hown0) as (_ & Hnone & Hoff).
  destruct (TimerMore.stopTimer_flags k k w0) as (Ha & _ & Hs & _).
  assert (Hstop : stop k w
                  = setVariableValues [(timecode k, "00:00:00")] (stopTimer k w0)).
  { unfold w0. now destruct k. }
  unfold kind_view. rewrite Hstop.
  change (active k (setVariableValues ?l ?x)) with (active k x).
  change (start_of k (setVariableValues ?l ?x)) with (start_of k x).
  change (owner k (setVariableValues ?l ?x)) with (owner k x).
  change (ticking k (setVariableValues ?l ?x)) with (ticking k x).
  rewrite Ha, Hs, Hoff, Hnone.
  unfold setVariableValues. cbn [foldl env variables on_env set_variables].
  rewrite lookup_insert_eq.
  unfold w0. now destruct k.
Qed.

(** A start, seen through the view of its kind. *)
Lemma start_view (k : TickKind) (w : World) :
  ticks_owned w ->
  kind_view k (start k w)
  = (true, Some (Date_now w), Some (next_timer (env w)),
     [{| interval_id := next_timer (env w); interval_kind := k;
         interval_period := 1000 |}],
     variables (env w) !! timecode k).
Proof.
  intros Hown.
  destruct (TimerFacts.start_owned k w Hown) as (_ & Ht & Ho & Hs & Ha).
  unfold kind_view. rewrite Ht, Ho, Hs, Ha.
  destruct w as [[? ? ? ? ? ? ? ? ? rt st] e].
  destruct k, rt, st; reflexivity.
Qed.

(** A state change notification of one kind leaves the view of the
    other kind as it was. *)
Lemma onStateChange_other (k k' : TickKind) (b : bool) (w : World) :
  ticks_owned w -> handles_fresh w -> k' <> k ->
  kind_view k' (onStateChange k b w) = kind_view k' w.
Proof.
  intros Hown Hfresh Hne.
  pose proof (HandleFacts.stopTimer_other k k' w Hown Hfresh Hne) as Hticks.
  rewrite onStateChange_cases.
  assert (Hstart : kind_view k' (start k w) = kind_view k' w).
  { destruct (IndependenceFacts.start_other k k' w Hne) as (Ha & Hs & Ho & Hv).
    assert (Ht : ticking k' (start k w) = ticking k' w).
    { destruct (IndependenceFacts.start_intervals k w) as (n & Hint).
      unfold ticking in *.
      rewrite Hint, filter_app, filter_cons_False, filter_nil, app_nil_r
        by (cbn; congruence).
      exact Hticks. }
    unfold kind_view. now rewrite Ha, Hs, Ho, Hv, Ht. }
  assert (Hstop : kind_view k' (stop k w) = kind_view k' w).
  { destruct (IndependenceFacts.stop_other k k' w Hne) as (Ha & Hs & Ho & Hint & Hv).
    assert (Ht : ticking k' (stop k w) = ticking k' w).
    { unfold ticking in *. now rewrite Hint. }
    unfold kind_view. now rewrite Ha, Hs, Ho, Hv, Ht. }
  destruct b, (active k w); auto.
Qed.

Lemma refreshScenes_view (k : TickKind) (w : World) :
  kind_view k (_refreshScenes w) = kind_view k w.
Proof.
  unfold _refreshScenes. destruct (qweb (inst w)) as [p|]; [|reflexivity].
  destruct (has_method p "getScenes"); [now destruct k|].
  destruct (session_items p); now destruct k.
Qed.

End ReconcileFacts.

(** X12.  When the channel is bound, the instance takes the proxy it is
    given, reports the status [ok] (also when the channel has no [meld]
    object) and connects to the signals the proxy has.  At once, without
    waiting for a signal, it passes each state property that is a
    boolean to the state change handler of its kind, which compares it
    with the local flag only.  Reported as running with the local flag
    off, the timer starts: the flag goes on, the start timestamp is the
    current clock reading, and one new interval of 1000 ms, held by the
    timer field, is its only tick source.  Reported as stopped with the
    local flag on, the timer stops: flag off, timer field cleared, no
    tick source, ["00:00:00"] published, start timestamp kept.  In
    every other case (the report agrees with the flag, or is not a
    boolean, or there is no proxy) flag, start timestamp, timer field,
    tick sources and published value stay exactly as they were; so a
    flag that is on without a tick source, as the close handler leaves
    it, gets no tick source from a bind that reports the timer as
    running. *)
Theorem on_channel_reconciles (meld : option Proxy) (w : World) :
  ticks_owned w ->
  handles_fresh w ->
  let w' := on_channel meld w in
  qweb (inst w') = meld /\
  status (env w') = Some ok /\
  sub_sceneChanged (env w') = from_option sig_sceneChanged false meld /\
  sub_isRecordingChanged (env w') = from_option sig_isRecordingChanged false meld /\
  sub_isStreamingChanged (env w') = from_option sig_isStreamingChanged false meld /\
  forall k : TickKind,
    match reported k meld with
    | Some (JBool true) =>
        if active k w then kind_view k w' = kind_view k w
        else exists i : nat,
            kind_view k w'
            = (true, Some (Date_now w), Some i,
               [{| interval_id := i; interval_kind := k; interval_period := 1000 |}],
               variables (env w) !! timecode k)
    | Some (JBool false) =>
        if active k w
        then kind_view k w' = (false, start_of k w, None, [], Some "00:00:00")
        else kind_view k w' = kind_view k w
    | _ => kind_view k w' = kind_view k w
    end.
Proof.
  intros Hown Hfresh w'. unfold w', on_channel.
  set (w0 := on_env (set_sub_isStreamingChanged _) _).
  set (w1 := match p_isRecording <$> meld with
             | Some (JBool b) => _onRecordingStateChange b w0
             | _ => w0
             end).
  set (w2 := match p_isStreaming <$> meld with
             | Some (JBool b) => _onStreamingStateChange b w1
             | _ => w1
             end).
  destruct (BindFacts.refreshScenes_frame w2) as (Hq & Hst & Hs1 & Hs2 & Hs3 & _).
  rewrite Hq, Hst, Hs1, Hs2, Hs3. clear Hq Hst Hs1 Hs2 Hs3.
  assert (Hown0 : ticks_owned w0)
    by (apply (TimerFacts.ticks_owned_view w); [reflexivity | assumption]).
  assert (Hfresh0 : handles_fresh w0)
    by (apply (HandleFacts.handles_fresh_view w); [reflexivity | assumption]).
  assert (Hview0 : forall k, kind_view k w0 = kind_view k w) by (intros []; reflexivity).
  assert (Hnow0 : Date_now w0 = Date_now w) by reflexivity.
  assert (Hown1 : ticks_owned w1).
  { unfold w1. destruct (p_isRecording <$> meld) as [[| |b| | |]|]; try assumption.
    now apply (Reach.onStateChange_owned RecordTick). }
  assert (Hnet1 : qweb (inst w1) = meld /\ status (env w1) = Some ok /\
                  sub_sceneChanged (env w1) = from_option sig_sceneChanged false meld /\
                  sub_isRecordingChanged (env w1)
                    = from_option sig_isRecordingChanged false meld /\
                  sub_isStreamingChanged (env w1)
                    = from_option sig_isStreamingChanged false meld /\
                  Date_now w1 = Date_now w).
  { unfold w1. destruct (p_isRecording <$> meld) as [[| |b| | |]|];
      try (now repeat split).
    destruct (BindFacts.onStateChange_frame RecordTick b w0)
      as (Hq & Hst & Hs1 & Hs2 & Hs3 & Hnow & _).
    cbn [onStateChange] in *. rewrite Hq, Hst, Hs1, Hs2, Hs3, Hnow. now repeat split. }
  destruct Hnet1 as (Hq & Hst & Hs1 & Hs2 & Hs3 & Hnow1).
  assert (Hnet2 : qweb (inst w2) = meld /\ status (env w2) = Some ok /\
                  sub_sceneChanged (env w2) = from_option sig_sceneChanged false meld /\
                  sub_isRecordingChanged (env w2)
                    = from_option sig_isRecordingChanged false meld /\
                  sub_isStreamingChanged (env w2)
                    = from_option sig_isStreamingChanged false meld).
  { unfold w2. destruct (p_isStreaming <$> meld) as [[| |b| | |]|];
      try (now repeat split).
    destruct (BindFacts.onStateChange_frame StreamTick b w1)
      as (Hq' & Hst' & Hs1' & Hs2' & Hs3' & _).
    cbn [onStateChange] in *. rewrite Hq', Hst', Hs1', Hs2', Hs3'. now repeat split. }
  destruct Hnet2 as (Hq2 & Hst2 & Hs12 & Hs22 & Hs32).
  do 5 (split; [assumption|]).
  (* the effect of a notification on the view of its own kind *)
  assert (Hself : forall (k : TickKind) (b : bool) (w3 : World), ticks_owned w3 ->
            if b then
              if active k w3 then kind_view k (onStateChange k b w3) = kind_view k w3
              else exists i : nat,
                  kind_view k (onStateChange k b w3)
                  = (true, Some (Date_now w3), Some i,
                     [{| interval_id := i; interval_kind := k; interval_period := 1000 |}],
                     variables (env w3) !! timecode k)
            else
              if active k w3
              then kind_view k (onStateChange k b w3)
                   = (false, start_of k w3, None, [], Some "00:00:00")
              else kind_view k (onStateChange k b w3) = kind_view k w3).
  { intros k b w3 H3. rewrite ReconcileFacts.onStateChange_cases.
    destruct b, (active k w3); try reflexivity.
    - exists (next_timer (env w3)). now apply ReconcileFacts.start_view.
    - now apply ReconcileFacts.stop_view. }
  assert (Hactive : forall (k : TickKind) (w3 w4 : World), kind_view k w3 = kind_view k w4 ->
                                    active k w3 = active k w4 /\
                                    start_of k w3 = start_of k w4 /\
                                    variables (env w3) !! timecode k
                                    = variables (env w4) !! timecode k).
  { unfold kind_view. intros k w3 w4 E. injection E as -> -> _ _ ->. now repeat split. }
  intros k. rewrite ReconcileFacts.refreshScenes_view.
  destruct k; cbn [reported].
  - (* recording: set first, untouched by the streaming notification *)
    assert (H21 : kind_view RecordTick w2 = kind_view RecordTick w1).
    { unfold w2. destruct (p_isStreaming <$> meld) as [[| |b| | |]|]; try reflexivity.
      apply (ReconcileFacts.onStateChange_other StreamTick RecordTick b w1);
        [assumption | | discriminate].
      unfold w1. destruct (p_isRecording <$> meld) as [[| |b'| | |]|]; try assumption.
      now apply (HandleFacts.onStateChange_fresh RecordTick). }
    rewrite H21. clear H21. unfold w1.
    destruct (Hactive RecordTick w0 w (Hview0 _)) as (Ha & Hs & Hv).
    destruct (p_isRecording <$> meld) as [[| |b| | |]|]; try apply Hview0.
    specialize (Hself RecordTick b w0 Hown0). cbn [onStateChange] in Hself.
    rewrite Ha, Hs, Hv, Hnow0, (Hview0 RecordTick) in Hself.
    destruct b; exact Hself.
  - (* streaming: untouched by the recording notification, then set *)
    assert (H10 : kind_view StreamTick w1 = kind_view StreamTick w).
    { rewrite <- (Hview0 StreamTick). unfold w1.
      destruct (p_isRecording <$> meld) as [[| |b| | |]|]; try reflexivity.
      apply (ReconcileFacts.onStateChange_other RecordTick StreamTick b w0);
        [assumption | assumption | discriminate]. }
    destruct (Hactive StreamTick w1 w H10) as (Ha & Hs & Hv).
    unfold w2.
    destruct (p_isStreaming <$> meld) as [[| |b| | |]|]; try exact H10.
    specialize (Hself StreamTick b w1 Hown1). cbn [onStateChange] in Hself.
    rewrite Ha, Hs, Hv, Hnow1, H10 in Hself.
    destruct b; exact Hself.
Qed.

Lemma on_channel_reconciles_witness :
  ticks_owned reopened_world /\
  handles_fresh reopened_world /\
  reported RecordTick still_recording = Some (JBool true) /\
  kind_view RecordTick reopened_world = (true, Some 1000, None, [], Some "00:00:05") /\
  kind_view RecordTick (on_channel still_recording reopened_world)
    = kind_view RecordTick reopened_world /\
  kind_view RecordTick rebound_world = (true, Some 1000, None, [], Some "00:00:05") /\
  status (env rebound_world) = Some ok /\
  (exists i : nat,
      kind_view RecordTick (on_channel still_recording open_world)
      = (true, Some 1000, Some i,
         [{| interval_id := i; interval_kind := RecordTick; interval_period := 1000 |}],
         Some "00:00:00")).
Proof.
  assert (Hown : ticks_owned reopened_world)
    by (apply (bool_decide_unpack (ticks_owned reopened_world)); vm_compute; exact I).
  assert (Hreach : run StringToNumber_digits ObjectToNumber_plain reopened_run
                       (constructed 1000) = Some reopened_world)
    by (vm_compute; reflexivity).
  pose proof (HandleFacts.run_fresh _ _ _ _ _ Hreach (HandleFacts.constructed_fresh 1000))
    as Hfresh.
  assert (Hown' : ticks_owned open_world)
    by (apply (bool_decide_unpack (ticks_owned open_world)); vm_compute; exact I).
  assert (Hreach' : run StringToNumber_digits ObjectToNumber_plain
                        [EvInit None Built; EvOpen 0 Built]
                        (constructed 1000) = Some open_world)
    by (vm_compute; reflexivity).
  pose proof (HandleFacts.run_fresh _ _ _ _ _ Hreach' (HandleFacts.constructed_fresh 1000))
    as Hfresh'.
  split; [exact Hown|]. split; [exact Hfresh|].
  split; [reflexivity|].
  split; [vm_compute; reflexivity|].
  split.
  - exact (proj2 (proj2 (proj2 (proj2 (proj2
             (on_channel_reconciles still_recording reopened_world Hown Hfresh)))))
             RecordTick).
  - split; [vm_compute; reflexivity|]. split; [vm_compute; reflexivity|].
    exact (proj2 (proj2 (proj2 (proj2 (proj2
             (on_channel_reconciles still_recording open_world Hown' Hfresh')))))
             RecordTick).
Defined.
